(** * Anonymization engine of [scripts/anonymize.py]

    A shallow embedding of the k-anonymity enforcer, the equivalence
    classifier, the l-diversity checker, the linkage-risk simulator, the
    NCP calculator and the HMAC tokenizer, followed by the properties the
    specification states about them.

    Conventions of the embedding.
    - A pandas cell is an integer, a text or the missing marker NaN
      ([cell]).  A row has the six columns of the input schema
      ([Patient_ID], [Name], [Age], [Gender], [ZIP_Code], [Diagnosis]); a
      [DataFrame] is the list of its rows in order.  An age binned by
      [pd.cut] is the text of its label.
    - Vectorised column operations ([pd.cut], [.str.slice], [.sum()] ...)
      are written row by row.
    - A Python exception is a value [Raise e] of the [result] type; the
      lines written by [print] are kept in the state of the loop.
    - Python [str] is [string]; the characters used by the hierarchy are
      ASCII, so characters and UTF-8 bytes coincide.
    - An integer cell is an int64 value; where the code subtracts two of
      them the wrap-around of int64 is written out.
    - float64 quotients and sums are exact rationals ([Q]); about a sum
      of several fractions the properties stated are those that rounding
      keeps (signs, zeros, order), not digits.
    - pandas keeps a dtype with every column, also with a column that has
      no cells; where the code reads it ([is_numeric_dtype]) the dtypes of
      the frame are an argument of the model.
    - [df.copy()] is the frame itself: frames are values. *)

From Stdlib Require Import ZArith QArith List String Ascii Bool Lia Lqa.
From Stdlib Require Import Permutation.
From Stdlib Require DecimalString DecimalFacts DecimalZ.
Import ListNotations.

Local Open Scope string_scope.
Local Open Scope Z_scope.
Local Open Scope list_scope.

(* ================================================================== *)
(** ** Exceptions as results *)

Inductive error : Type :=
| KeyError (name : string)
| KeyError_int (key : Z)
| ValueError (msg : string)
| TypeError
| AttributeError
| IndexError
| ZeroDivisionError.

Inductive result (A : Type) : Type :=
| Ok (a : A)
| Raise (e : error).

Arguments Ok {A} a.
Arguments Raise {A} e.

Definition bind {A B : Type} (r : result A) (f : A -> result B) : result B :=
  match r with
  | Ok a => f a
  | Raise e => Raise e
  end.

Notation "x <- c1 ;; c2" := (bind c1 (fun x => c2))
  (at level 61, c1 at next level, right associativity).

Fixpoint mapM {A B : Type} (f : A -> result B) (l : list A) : result (list B) :=
  match l with
  | [] => Ok []
  | a :: t => b <- f a ;; bs <- mapM f t ;; Ok (b :: bs)
  end.

(* ================================================================== *)
(** ** Cells, rows and frames *)

Inductive cell : Type :=
| VInt (z : Z)
| VStr (s : string)
| VNaN.

Record Row : Type := mkRow {
  Patient_ID : cell;
  Name : cell;
  Age : cell;
  Gender : cell;
  ZIP_Code : cell;
  Diagnosis : cell
}.

Definition DataFrame : Type := list Row.

Definition isna (c : cell) : bool :=
  match c with VNaN => true | _ => false end.

Definition cell_eqb (a b : cell) : bool :=
  match a, b with
  | VInt x, VInt y => x =? y
  | VStr s, VStr t => String.eqb s t
  | VNaN, VNaN => true
  | _, _ => false
  end.

Fixpoint key_eqb (a b : list cell) : bool :=
  match a, b with
  | [], [] => true
  | x :: a', y :: b' => cell_eqb x y && key_eqb a' b'
  | _, _ => false
  end.

(** [df[name]]: the accessor of a column, [KeyError] for a name that is
    not a column of the frame. *)
Definition column (name : string) : result (Row -> cell) :=
  if String.eqb name "Patient_ID" then Ok Patient_ID
  else if String.eqb name "Name" then Ok Name
  else if String.eqb name "Age" then Ok Age
  else if String.eqb name "Gender" then Ok Gender
  else if String.eqb name "ZIP_Code" then Ok ZIP_Code
  else if String.eqb name "Diagnosis" then Ok Diagnosis
  else Raise (KeyError name).

(** [df[name] = v] on one row. *)
Definition set_column (name : string) (v : cell) (r : Row) : result Row :=
  if String.eqb name "Patient_ID" then
    Ok (mkRow v (Name r) (Age r) (Gender r) (ZIP_Code r) (Diagnosis r))
  else if String.eqb name "Name" then
    Ok (mkRow (Patient_ID r) v (Age r) (Gender r) (ZIP_Code r) (Diagnosis r))
  else if String.eqb name "Age" then
    Ok (mkRow (Patient_ID r) (Name r) v (Gender r) (ZIP_Code r) (Diagnosis r))
  else if String.eqb name "Gender" then
    Ok (mkRow (Patient_ID r) (Name r) (Age r) v (ZIP_Code r) (Diagnosis r))
  else if String.eqb name "ZIP_Code" then
    Ok (mkRow (Patient_ID r) (Name r) (Age r) (Gender r) v (Diagnosis r))
  else if String.eqb name "Diagnosis" then
    Ok (mkRow (Patient_ID r) (Name r) (Age r) (Gender r) (ZIP_Code r) v)
  else Raise (KeyError name).

Definition set_Age (v : cell) (r : Row) : Row :=
  mkRow (Patient_ID r) (Name r) v (Gender r) (ZIP_Code r) (Diagnosis r).

Definition set_ZIP_Code (v : cell) (r : Row) : Row :=
  mkRow (Patient_ID r) (Name r) (Age r) (Gender r) v (Diagnosis r).

(** ['x' in qis] *)
Definition name_in (x : string) (qis : list string) : bool :=
  existsb (String.eqb x) qis.

(** [l[i]] with Python's negative indices and [IndexError]. *)
Definition py_get {A : Type} (l : list A) (i : Z) : result A :=
  let n := Z.of_nat (List.length l) in
  let j := if i <? 0 then i + n else i in
  if (0 <=? j) && (j <? n) then
    match nth_error l (Z.to_nat j) with
    | Some x => Ok x
    | None => Raise IndexError
    end
  else Raise IndexError.

(* ================================================================== *)
(** ** Text helpers *)

(** [str(z)] for a Python int. *)
Definition str_of_Z (z : Z) : string :=
  DecimalString.NilZero.string_of_int (Z.to_int z).

(** [.astype(str)] on one cell of an [object] or integer column: NaN
    becomes the text [nan]. *)
Definition astype_str (c : cell) : string :=
  match c with
  | VInt z => str_of_Z z
  | VStr s => s
  | VNaN => "nan"
  end.

Fixpoint str_take (n : nat) (s : string) : string :=
  match n, s with
  | S n', String c s' => String c (str_take n' s')
  | _, _ => EmptyString
  end.

Definition str_len (s : string) : Z := Z.of_nat (String.length s).

(** [s[0:stop]]: a negative [stop] counts from the end. *)
Definition str_slice0 (stop : Z) (s : string) : string :=
  if stop <? 0 then str_take (Z.to_nat (str_len s + stop)) s
  else str_take (Z.to_nat stop) s.

Fixpoint repeat_char (c : ascii) (n : nat) : string :=
  match n with
  | O => EmptyString
  | S n' => String c (repeat_char c n')
  end.

(** [.str.pad(width, side='right', fillchar=c)] *)
Definition str_pad_right (width : Z) (c : ascii) (s : string) : string :=
  (s ++ repeat_char c (Z.to_nat (width - str_len s)))%string.

(* ================================================================== *)
(** ** Generalization functions *)

(** [pd.cut(v, bins, labels, right=False)] on an integer: the label of the
    half-open bin [[lo, hi)] that holds [v], NaN when no bin does. *)
Fixpoint cut_bins (bins : list Z) (labels : list string) (v : Z) : cell :=
  match bins, labels with
  | lo :: ((hi :: _) as rest), lab :: labs =>
      if (lo <=? v) && (v <? hi) then VStr lab else cut_bins rest labs v
  | _, _ => VNaN
  end.

(** [pd.cut] on one cell: NaN stays NaN, a text cannot be compared with
    the bin edges.  Before it looks at a cell [pd.cut] checks its bins and
    labels (edges increasing, one label for each bin, no label twice) and
    raises [ValueError] otherwise; the four rungs of the enforcer pass the
    check, and [cut_cell] is the function on binnings that pass it
    ([binning_ok] below). *)
Definition cut_cell (bins : list Z) (labels : list string) (c : cell)
  : result cell :=
  match c with
  | VInt v => Ok (cut_bins bins labels v)
  | VNaN => Ok VNaN
  | VStr _ => Raise TypeError
  end.

Definition generalize_age (df : DataFrame) (bins : list Z)
    (labels : list string) : result DataFrame :=
  mapM (fun r => c <- cut_cell bins labels (Age r) ;; Ok (set_Age c r)) df.

Definition mask_zip (precision : Z) (c : cell) : cell :=
  VStr (str_pad_right 5 "*"%char (str_slice0 precision (astype_str c))).

Definition generalize_zip (df : DataFrame) (precision : Z) : DataFrame :=
  map (fun r => set_ZIP_Code (mask_zip precision (ZIP_Code r)) r) df.

(* ================================================================== *)
(** ** Equivalence classes

    [df.groupby(qis, observed=True)].  pandas' [groupby] keeps its default
    [dropna=True]: a row whose key holds a NaN enters no group.  A class
    is its key with the positions of its members.  The classes are listed
    by first occurrence of the key; pandas lists them by sorted key, a
    permutation of this list. *)

Definition eq_class : Type := (list cell * list nat)%type.

Fixpoint add_member (key : list cell) (i : nat) (cls : list eq_class)
  : list eq_class :=
  match cls with
  | [] => [(key, [i])]
  | (k, ms) :: rest =>
      if key_eqb k key then (k, ms ++ [i]) :: rest
      else (k, ms) :: add_member key i rest
  end.

Definition group_key (cols : list (Row -> cell)) (r : Row) : list cell :=
  map (fun f => f r) cols.

Fixpoint group_rows (cols : list (Row -> cell)) (rows : list Row) (i : nat)
    (acc : list eq_class) : list eq_class :=
  match rows with
  | [] => acc
  | r :: rs =>
      let key := group_key cols r in
      group_rows cols rs (S i)
        (if existsb isna key then acc else add_member key i acc)
  end.

(** The groups of an array of labels, one label for each row. *)
Fixpoint group_labels (labels : list string) (i : nat) (acc : list eq_class)
  : list eq_class :=
  match labels with
  | [] => acc
  | l :: ls => group_labels ls (S i) (add_member [VStr l] i acc)
  end.

(** [groupby] resolves its keys in [get_grouper]:
    - without keys it raises [No group keys passed!] only when the frame
      has rows; a frame without rows gets a grouping without groups;
    - a list with as many names as the frame has rows, one of which is not
      a column, is taken for an array of labels, one for each row (the
      "index replacement" of [get_grouper]): no name is looked up;
    - otherwise each name is looked up in turn, and the first that is not
      a column raises [KeyError]. *)
Definition get_equivalence_classes (df : DataFrame) (qis : list string)
  : result (list eq_class) :=
  match qis, df with
  | [], [] => Ok []
  | [], _ :: _ => Raise (ValueError "No group keys passed!")
  | _ :: _, _ =>
      match mapM column qis with
      | Ok cols => Ok (group_rows cols df 0%nat [])
      | Raise e =>
          if Nat.eqb (List.length qis) (List.length df)
          then Ok (group_labels qis 0%nat [])
          else Raise e
      end
  end.

(** [eq_classes.size()] *)
Definition group_sizes (cls : list eq_class) : list Z :=
  map (fun c => Z.of_nat (List.length (snd c))) cls.

(** [.min()] of a series: NaN ([None]) for the empty series. *)
Fixpoint series_min (l : list Z) : option Z :=
  match l with
  | [] => None
  | x :: t =>
      match series_min t with
      | None => Some x
      | Some m => Some (Z.min x m)
      end
  end.

(** [m >= k] where [m] may be NaN: a comparison with NaN is false. *)
Definition ge_nan (m : option Z) (k : Z) : bool :=
  match m with
  | Some v => k <=? v
  | None => false
  end.

Definition check_k_anonymity (df : DataFrame) (qis : list string) (k : Z)
  : result bool :=
  match df with
  | [] => Ok true
  | _ =>
      eq_classes <- get_equivalence_classes df qis ;;
      Ok (ge_nan (series_min (group_sizes eq_classes)) k)
  end.

(* ================================================================== *)
(** ** The k-anonymity enforcer *)

Definition age_generalizations : list (list Z * list string) :=
  [ ([0; 20; 30; 40; 50; 60; 70; 80; 90; 100],
     ["0-19"; "20-29"; "30-39"; "40-49"; "50-59"; "60-69"; "70-79";
      "80-89"; "90-99"]);
    ([0; 25; 50; 75; 100], ["0-24"; "25-49"; "50-74"; "75-99"]);
    ([0; 50; 100], ["0-49"; "50-99"]);
    ([0; 100], ["0-99"]) ].

Definition zip_generalizations : list Z := [4; 3; 2; 1].

(** The variables of the loop, with what was printed so far. *)
Record loop_state : Type := mkState {
  anonymized_df : DataFrame;
  temp_df : DataFrame;
  gen_level : Z;
  stdout : list string
}.

Definition msg_not_met (k level : Z) : string :=
  ("k=" ++ str_of_Z k ++ " not met. Applying generalization level "
        ++ str_of_Z (level + 1) ++ "...")%string.

Definition msg_error : string :=
  "Error: Could not achieve k-anonymity after multiple generalization steps.".

Definition msg_achieved (k : Z) : string :=
  ("k=" ++ str_of_Z k ++ " anonymity achieved.")%string.

(** Lines 81-95: the frame of one attempt, built from the original [df]. *)
Definition generalize_attempt (df : DataFrame) (qis : list string)
    (level : Z) : result DataFrame :=
  let temp := df in
  let age_level_idx := level / 2 in
  let zip_level_idx := (level - 1) / 2 in
  temp <- (if name_in "Age" qis then
             let current_age_level :=
               Z.min age_level_idx
                     (Z.of_nat (List.length age_generalizations) - 1) in
             gen <- py_get age_generalizations current_age_level ;;
             generalize_age temp (fst gen) (snd gen)
           else Ok temp) ;;
  if name_in "ZIP_Code" qis && (0 <=? zip_level_idx) then
    let current_zip_level :=
      Z.min zip_level_idx (Z.of_nat (List.length zip_generalizations) - 1) in
    zip_prec <- py_get zip_generalizations current_zip_level ;;
    Ok (generalize_zip temp zip_prec)
  else Ok temp.

(** Lines 79-98: one turn of the loop body, up to [gen_level += 1]. *)
Definition loop_body (df : DataFrame) (qis : list string) (k : Z)
    (st : loop_state) : result loop_state :=
  let out := stdout st ++ [msg_not_met k (gen_level st)] in
  temp <- generalize_attempt df qis (gen_level st) ;;
  Ok (mkState temp temp (gen_level st + 1) out).

(** Where the function returned: inside the loop (line 101) or after it
    (line 104). *)
Inductive exit_point : Type :=
| ReturnInLoop
| ReturnAfterLoop.

Definition print (s : string) (st : loop_state) : loop_state :=
  mkState (anonymized_df st) (temp_df st) (gen_level st)
          (stdout st ++ [s]).

(** The [while] loop, with fuel: [None] is a loop that has not returned
    within [fuel] turns. *)
Fixpoint while_loop (fuel : nat) (df : DataFrame) (qis : list string)
    (k : Z) (st : loop_state) : option (result (exit_point * loop_state)) :=
  match fuel with
  | O => None
  | S fuel' =>
      match check_k_anonymity (anonymized_df st) qis k with
      | Raise e => Some (Raise e)
      | Ok true => Some (Ok (ReturnAfterLoop, print (msg_achieved k) st))
      | Ok false =>
          match loop_body df qis k st with
          | Raise e => Some (Raise e)
          | Ok st' =>
              if 10 <? gen_level st' then
                Some (Ok (ReturnInLoop, print msg_error st'))
              else while_loop fuel' df qis k st'
          end
      end
  end.

Definition initial_state (df : DataFrame) : loop_state :=
  mkState df df 0 [].

(** The run of [apply_k_anonymity] with everything it leaves behind. *)
Definition enforce (df : DataFrame) (qis : list string) (k : Z)
  : option (result (exit_point * loop_state)) :=
  while_loop 11 df qis k (initial_state df).

(** The value [apply_k_anonymity] returns: the frame alone. *)
Definition apply_k_anonymity (df : DataFrame) (qis : list string) (k : Z)
  : option (result DataFrame) :=
  match enforce df qis k with
  | None => None
  | Some (Raise e) => Some (Raise e)
  | Some (Ok (_, st)) => Some (Ok (anonymized_df st))
  end.

(* ================================================================== *)
(** ** SHA-256 and HMAC (FIPS 180-4, RFC 2104)

    [hmac.new(key, msg, hashlib.sha256).hexdigest()] of the Python
    library.  A byte is a [Z] below 256, a word a [Z] below [2^32] with
    the wrap-around written out. *)

Module SHA256.

Definition mask32 : Z := 4294967295.
Definition wrap (x : Z) : Z := Z.land x mask32.
Definition rotr (n x : Z) : Z :=
  Z.lor (Z.shiftr x n) (wrap (Z.shiftl x (32 - n))).
Definition Ch (x y z : Z) : Z :=
  Z.lxor (Z.land x y) (Z.land (Z.lxor x mask32) z).
Definition Maj (x y z : Z) : Z :=
  Z.lxor (Z.lxor (Z.land x y) (Z.land x z)) (Z.land y z).
Definition Sigma0 (x : Z) : Z :=
  Z.lxor (Z.lxor (rotr 2 x) (rotr 13 x)) (rotr 22 x).
Definition Sigma1 (x : Z) : Z :=
  Z.lxor (Z.lxor (rotr 6 x) (rotr 11 x)) (rotr 25 x).
Definition sigma0 (x : Z) : Z :=
  Z.lxor (Z.lxor (rotr 7 x) (rotr 18 x)) (Z.shiftr x 3).
Definition sigma1 (x : Z) : Z :=
  Z.lxor (Z.lxor (rotr 17 x) (rotr 19 x)) (Z.shiftr x 10).

(** The primes below 312, the first sixty-four. *)
Definition is_prime (p : Z) : bool :=
  (1 <? p)
  && forallb (fun d => negb (p mod d =? 0))
             (map (fun i => 2 + Z.of_nat i) (seq 0 (Z.to_nat (p - 2)))).

Definition primes : list Z :=
  filter is_prime (map Z.of_nat (seq 0 312)).

(** The integer cube root, one bit at a time from bit [bits - 1] down. *)
Fixpoint cube_root_bits (bits : nat) (n r : Z) : Z :=
  match bits with
  | O => r
  | S b =>
      let c := r + 2 ^ Z.of_nat b in
      cube_root_bits b n (if c * c * c <=? n then c else r)
  end.

(** The first 32 bits of the fractional part of the cube root and of the
    square root of [p]. *)
Definition frac_cube_root (p : Z) : Z :=
  wrap (cube_root_bits 36 (p * 2 ^ 96) 0).

Definition frac_square_root (p : Z) : Z := wrap (Z.sqrt (p * 2 ^ 64)).

(** The round constants: the cube roots of the sixty-four primes. *)
Definition K : list Z := Eval vm_compute in map frac_cube_root primes.

Record regs : Type := mkRegs {
  ra : Z; rb : Z; rc : Z; rd : Z; re : Z; rf : Z; rg : Z; rh : Z
}.

(** The initial hash value: the square roots of the first eight primes. *)
Definition H0 : regs :=
  Eval vm_compute in
    match map frac_square_root (firstn 8 primes) with
    | [a; b; c; d; e; f; g; h] => mkRegs a b c d e f g h
    | _ => mkRegs 0 0 0 0 0 0 0 0
    end.

(** The 64 rounds over one block; [w] is the sliding window of the last
    sixteen words of the message schedule. *)
Fixpoint rounds (ks : list Z) (w : list Z) (r : regs) : regs :=
  match ks with
  | [] => r
  | k :: ks' =>
      let wt := nth 0 w 0 in
      let t1 := rh r + Sigma1 (re r) + Ch (re r) (rf r) (rg r) + k + wt in
      let t2 := Sigma0 (ra r) + Maj (ra r) (rb r) (rc r) in
      let next :=
        sigma1 (nth 14 w 0) + nth 9 w 0 + sigma0 (nth 1 w 0) + nth 0 w 0 in
      rounds ks' (tl w ++ [wrap next])
        (mkRegs (wrap (t1 + t2)) (ra r) (rb r) (rc r)
                (wrap (rd r + t1)) (re r) (rf r) (rg r))
  end.

Fixpoint be_words (n : nat) (l : list Z) : list Z :=
  match n with
  | O => []
  | S n' =>
      match l with
      | a :: b :: c :: d :: t =>
          (((a * 256 + b) * 256 + c) * 256 + d) :: be_words n' t
      | _ => []
      end
  end.

Definition add_regs (x y : regs) : regs :=
  mkRegs (wrap (ra x + ra y)) (wrap (rb x + rb y)) (wrap (rc x + rc y))
         (wrap (rd x + rd y)) (wrap (re x + re y)) (wrap (rf x + rf y))
         (wrap (rg x + rg y)) (wrap (rh x + rh y)).

Fixpoint process (n : nat) (l : list Z) (r : regs) : regs :=
  match n with
  | O => r
  | S n' => process n' (skipn 64 l) (add_regs r (rounds K (be_words 16 l) r))
  end.

Definition be_bytes (nbytes : nat) (x : Z) : list Z :=
  map (fun i => Z.land (Z.shiftr x (8 * Z.of_nat i)) 255)
      (List.rev (List.seq 0 nbytes)).

Definition pad (msg : list Z) : list Z :=
  let len := Z.of_nat (List.length msg) in
  msg ++ [128] ++ repeat 0 (Z.to_nat ((55 - len) mod 64))
      ++ be_bytes 8 (8 * len).

Definition digest_bytes (r : regs) : list Z :=
  be_bytes 4 (ra r) ++ be_bytes 4 (rb r) ++ be_bytes 4 (rc r)
  ++ be_bytes 4 (rd r) ++ be_bytes 4 (re r) ++ be_bytes 4 (rf r)
  ++ be_bytes 4 (rg r) ++ be_bytes 4 (rh r).

Definition sha256 (msg : list Z) : list Z :=
  let p := pad msg in
  digest_bytes (process (Nat.div (List.length p) 64) p H0).

Definition block_size : nat := 64.

Definition hmac (key msg : list Z) : list Z :=
  let key0 :=
    if Nat.ltb block_size (List.length key) then sha256 key else key in
  let key1 := key0 ++ repeat 0 (block_size - List.length key0) in
  let ipad := map (Z.lxor 54) key1 in
  let opad := map (Z.lxor 92) key1 in
  sha256 (opad ++ sha256 (ipad ++ msg)).

Definition hex_digit (x : Z) : ascii :=
  nth (Z.to_nat x)
      ["0"; "1"; "2"; "3"; "4"; "5"; "6"; "7"; "8"; "9";
       "a"; "b"; "c"; "d"; "e"; "f"]%char "0"%char.

Fixpoint hex (bytes : list Z) : string :=
  match bytes with
  | [] => EmptyString
  | b :: t =>
      String (hex_digit (Z.shiftr b 4)) (String (hex_digit (Z.land b 15)) (hex t))
  end.

Fixpoint bytes_of_string (s : string) : list Z :=
  match s with
  | EmptyString => []
  | String c s' => Z.of_N (N_of_ascii c) :: bytes_of_string s'
  end.

End SHA256.

(* ================================================================== *)
(** ** Tokenization *)

Definition HMAC_SECRET_KEY : string :=
  "bcse318l-secret-key-for-reproducible-tokenization".

(** [hmac.new(key, value.encode('utf-8'), hashlib.sha256).hexdigest()] *)
Definition hmac_hexdigest (key : string) (value : string) : string :=
  SHA256.hex (SHA256.hmac (SHA256.bytes_of_string key)
                          (SHA256.bytes_of_string value)).

(** The inner function of [tokenize_ids]; only a text has [.encode]. *)
Definition generate_token (value : cell) : result string :=
  match value with
  | VStr s => Ok (hmac_hexdigest HMAC_SECRET_KEY s)
  | _ => Raise AttributeError
  end.

(** [d[k] = v] on a [dict] held in insertion order. *)
Fixpoint dict_set (k : cell) (v : string) (d : list (cell * string))
  : list (cell * string) :=
  match d with
  | [] => [(k, v)]
  | (k', v') :: rest =>
      if cell_eqb k' k then (k', v) :: rest else (k', v') :: dict_set k v rest
  end.

Definition dict_of (kvs : list (cell * string)) : list (cell * string) :=
  fold_left (fun d kv => dict_set (fst kv) (snd kv) d) kvs [].

Definition tokenize_ids (df : DataFrame) (id_col : string)
  : result (DataFrame * list (cell * string)) :=
  get <- column id_col ;;
  tokens <- mapM (fun r => generate_token (get r)) df ;;
  df_tokenized <-
    mapM (fun rt => set_column id_col (VStr (snd rt)) (fst rt))
         (combine df tokens) ;;
  Ok (df_tokenized, dict_of (combine (map get df) tokens)).

(* ================================================================== *)
(** ** l-diversity *)

(** The rows of one group. *)
Definition group_rows_of (df : DataFrame) (members : list nat) : list Row :=
  flat_map (fun i => match nth_error df i with
                     | Some r => [r]
                     | None => []
                     end) members.

(** [.dropna()] *)
Definition dropna (l : list cell) : list cell :=
  filter (fun c => negb (isna c)) l.

(** The distinct values of a series, each at its last occurrence. *)
Fixpoint unique (l : list cell) : list cell :=
  match l with
  | [] => []
  | x :: t => if existsb (cell_eqb x) t then unique t else x :: unique t
  end.

(** [.nunique()] *)
Definition nunique (l : list cell) : Z := Z.of_nat (List.length (unique l)).

(** [group[sensitive_col].dropna().nunique()] *)
Definition diversity_of (df : DataFrame) (sensitive_col : string)
    (c : eq_class) : result Z :=
  get <- column sensitive_col ;;
  Ok (nunique (dropna (map get (group_rows_of df (snd c))))).

(** The [for] loop of [check_l_diversity] over the remaining groups. *)
Fixpoint failing_groups_from (df : DataFrame) (sensitive_col : string)
    (l_val : Z) (cls : list eq_class) (failing_groups : list (list cell * Z))
  : result (list (list cell * Z)) :=
  match cls with
  | [] => Ok failing_groups
  | c :: rest =>
      diversity <- diversity_of df sensitive_col c ;;
      failing_groups_from df sensitive_col l_val rest
        (if diversity <? l_val then failing_groups ++ [(fst c, diversity)]
         else failing_groups)
  end.

Definition check_l_diversity (df : DataFrame) (sensitive_col : string)
    (qis : list string) (l_val : Z) : result (bool * list (list cell * Z)) :=
  eq_classes <- get_equivalence_classes df qis ;;
  failing_groups <- failing_groups_from df sensitive_col l_val eq_classes [] ;;
  Ok (Nat.eqb (List.length failing_groups) 0, failing_groups).

(* ================================================================== *)
(** ** Risk and utility metrics *)

(** [(group_sizes == 1).sum()] *)
Definition count_singletons (sizes : list Z) : Z :=
  Z.of_nat (List.length (filter (fun s => s =? 1) sizes)).

Definition simulate_linkage_attack (df : DataFrame)
    (attacker_qis : list string) : result Q :=
  eq_classes <- get_equivalence_classes df attacker_qis ;;
  let num_unique := count_singletons (group_sizes eq_classes) in
  let total_records := Z.of_nat (List.length df) in
  Ok (if 0 <? total_records
      then (inject_Z num_unique / inject_Z total_records)%Q
      else 0%Q).

(** The dtype pandas keeps with a column: [int64] for integers, [float64]
    for integers and NaN, [object] for everything else.  A frame made from
    another (a filter, a slice) keeps the dtypes of that frame, also when
    no row is left. *)
Inductive dtype : Type :=
| int64
| float64
| object.

(** [pd.api.types.is_numeric_dtype] *)
Definition is_numeric_dtype (d : dtype) : bool :=
  match d with
  | object => false
  | _ => true
  end.

(** The dtypes [read_csv] and the [DataFrame] constructor infer from the
    cells; a column without cells is read as [object]. *)
Definition infer_dtype (col : list cell) : dtype :=
  match col with
  | [] => object
  | _ =>
      if existsb (fun c => match c with VStr _ => true | _ => false end) col
      then object
      else if existsb isna col then float64 else int64
  end.

Definition read_dtypes (df : DataFrame) (name : string) : dtype :=
  match column name with
  | Ok get => infer_dtype (map get df)
  | Raise _ => object
  end.

(** The sum or difference of two int64 values as numpy leaves it: wrapped
    around into [[-2^63, 2^63)]. *)
Definition wrap_int64 (z : Z) : Z :=
  (z + 2 ^ 63) mod 2 ^ 64 - 2 ^ 63.

(** [.min()] and [.max()] of a numeric column, NaN cells skipped. *)
Fixpoint numeric_values (col : list cell) : list Z :=
  match col with
  | [] => []
  | VInt z :: t => z :: numeric_values t
  | _ :: t => numeric_values t
  end.

Fixpoint series_max (l : list Z) : option Z :=
  match l with
  | [] => None
  | x :: t =>
      match series_max t with
      | None => Some x
      | Some m => Some (Z.max x m)
      end
  end.

(** [s.split(sep)] *)
Fixpoint split_on (sep : ascii) (s : string) : list string :=
  match s with
  | EmptyString => [EmptyString]
  | String c s' =>
      if Ascii.eqb c sep then EmptyString :: split_on sep s'
      else match split_on sep s' with
           | p :: ps => String c p :: ps
           | [] => [String c EmptyString]
           end
  end.

(** [pd.to_numeric(s, errors='coerce')] on the texts the hierarchy
    produces: a run of decimal digits is its number; the empty text, [nan]
    and every other text read here is NaN. *)
Definition to_numeric (s : string) : option Z :=
  match DecimalString.NilZero.uint_of_string s with
  | Some d => Some (Z.of_uint d)
  | None => None
  end.

(** Lines 172-183 on one cell: the width [|high - low|] of the interval a
    cell shows, NaN when its lower end does not parse.  A cell with one
    part has no [high]; [fillna] gives it [low].  (With one part in every
    row, line 177 copies [low] into [high]: the same widths.) *)
Definition generalized_range (c : cell) : option Z :=
  let parts := split_on "-"%char (astype_str c) in
  let low := match parts with p0 :: _ => to_numeric p0 | [] => None end in
  let high := match parts with _ :: p1 :: _ => to_numeric p1 | _ => None end in
  let high := match high with Some h => Some h | None => low end in
  match high, low with
  | Some h, Some l => Some (Z.abs (h - l))
  | _, _ => None
  end.

(** [.sum()] of a float series, NaN skipped. *)
Fixpoint nansum (l : list (option Q)) : Q :=
  match l with
  | [] => 0%Q
  | Some q :: t => (q + nansum t)%Q
  | None :: t => nansum t
  end.

Definition opt_sub (a b : option Z) : option Z :=
  match a, b with
  | Some x, Some y => Some (x - y)
  | _, _ => None
  end.

(** [(generalized_ranges / total_range).sum()] *)
Definition age_ncp (total_range : option Z) (anon_col : list cell) : Q :=
  nansum (map (fun c =>
                 match generalized_range c, total_range with
                 | Some w, Some t => Some (inject_Z w / inject_Z t)%Q
                 | _, _ => None
                 end) anon_col).

(** [.str.count(r'\*')] *)
Fixpoint count_char (c : ascii) (s : string) : Z :=
  match s with
  | EmptyString => 0
  | String x s' => (if Ascii.eqb x c then 1 else 0) + count_char c s'
  end.

(** [(masked_chars / 5).sum()] *)
Definition zip_ncp (anon_col : list cell) : Q :=
  nansum (map (fun c =>
                 Some (inject_Z (count_char "*"%char (astype_str c)) / 5)%Q)
              anon_col).

(** [max_val - min_val]: two int64 scalars of an [int64] column, two
    floats of a [float64] column; NaN when the column has no value. *)
Definition range_of (d : dtype) (max_val min_val : option Z) : option Z :=
  match d, opt_sub max_val min_val with
  | int64, Some t => Some (wrap_int64 t)
  | _, t => t
  end.

(** One turn of the [for qi in qis] loop: what the turn adds to
    [total_ncp] ([continue] adds nothing).  [dtypes] are the dtypes of
    [original_df].  Line 173 splits into as many columns as the longest
    row has parts: none for an anonymized column without cells, and
    [intervals[0]] of line 179 is then a [KeyError]. *)
Definition qi_ncp (dtypes : string -> dtype)
    (original_df anonymized_df : DataFrame) (qi : string) : result Q :=
  orig <- column qi ;;
  if is_numeric_dtype (dtypes qi) && String.eqb qi "Age" then
    let min_val := series_min (numeric_values (map orig original_df)) in
    let max_val := series_max (numeric_values (map orig original_df)) in
    let total_range := range_of (dtypes qi) max_val min_val in
    match total_range with
    | Some 0 => Ok 0%Q
    | _ => anon <- column qi ;;
           match anonymized_df with
           | [] => Raise (KeyError_int 0)
           | _ :: _ => Ok (age_ncp total_range (map anon anonymized_df))
           end
    end
  else if String.eqb qi "ZIP_Code" then
    anon <- column qi ;;
    Ok (zip_ncp (map anon anonymized_df))
  else Ok 0%Q.

Fixpoint total_ncp_from (dtypes : string -> dtype)
    (original_df anonymized_df : DataFrame)
    (qis : list string) (total_ncp : Q) : result Q :=
  match qis with
  | [] => Ok total_ncp
  | qi :: rest =>
      x <- qi_ncp dtypes original_df anonymized_df qi ;;
      total_ncp_from dtypes original_df anonymized_df rest (total_ncp + x)%Q
  end.

(** [compute_ncp(original_df, anonymized_df, qis)], with the dtypes of
    [original_df]. *)
Definition compute_ncp (dtypes : string -> dtype)
    (original_df anonymized_df : DataFrame)
    (qis : list string) : result Q :=
  let num_qis := Z.of_nat (List.length qis) in
  total_ncp <- total_ncp_from dtypes original_df anonymized_df qis 0%Q ;;
  let n := Z.of_nat (List.length original_df) in
  if 0 <? n then
    if n * num_qis =? 0 then Raise ZeroDivisionError
    else Ok (total_ncp / inject_Z (n * num_qis))%Q
  else Ok 0%Q.

(* ================================================================== *)
(** ** Vocabulary of the specification *)

Definition is_column (name : string) : bool :=
  match column name with Ok _ => true | Raise _ => false end.

(** A quasi-identifier set the classifier accepts: at least one name, and
    every name a column of the schema. *)
Definition valid_qis (qis : list string) : bool :=
  match qis with
  | [] => false
  | _ => forallb is_column qis
  end.

(** The age column can be binned: it holds no text, or it is not a
    quasi-identifier. *)
Definition age_cuttable (df : DataFrame) (qis : list string) : bool :=
  negb (name_in "Age" qis)
  || forallb (fun r => match Age r with VStr _ => false | _ => true end) df.

(** No record misses the value of a quasi-identifier. *)
Definition no_missing_qi (df : DataFrame) (qis : list string) : bool :=
  forallb (fun r =>
             forallb (fun q => match column q with
                               | Ok get => negb (isna (get r))
                               | Raise _ => true
                               end) qis) df.

(** The frame the loop holds in [anonymized_df] when [gen_level] is
    [level]: the input at level 0, the attempt of the level before
    afterwards. *)
Definition frame_before (df : DataFrame) (qis : list string) (level : Z)
  : result DataFrame :=
  if level =? 0 then Ok df else generalize_attempt df qis (level - 1).

(** The integers [lo], [lo + 1], ..., [hi - 1]. *)
Definition zrange (lo hi : Z) : list Z :=
  map (fun i => lo + Z.of_nat i) (seq 0 (Z.to_nat (hi - lo))).

(** The schedule in the words of the specification. *)
Definition age_rung (level : Z) : Z := Z.min (level / 2) 3.

Definition zip_rung_idx (level : Z) : Z := (level - 1) / 2.

Definition age_bins_at (rung : Z) : list Z * list string :=
  nth (Z.to_nat rung) age_generalizations ([], []).

Definition zip_precision_at (idx : Z) : Z :=
  nth (Z.to_nat (Z.min idx 3)) zip_generalizations 0.

(** What the specification asks of one record [r'] of the attempt at
    [level] against the record [r] of the original dataset. *)
Definition attempt_row (qis : list string) (level : Z) (r r' : Row) : Prop :=
  Patient_ID r' = Patient_ID r /\ Name r' = Name r
  /\ Gender r' = Gender r /\ Diagnosis r' = Diagnosis r
  /\ (if name_in "Age" qis
      then cut_cell (fst (age_bins_at (age_rung level)))
                    (snd (age_bins_at (age_rung level))) (Age r)
           = Ok (Age r')
      else Age r' = Age r)
  /\ (if name_in "ZIP_Code" qis && (0 <=? zip_rung_idx level)
      then ZIP_Code r'
           = mask_zip (zip_precision_at (zip_rung_idx level)) (ZIP_Code r)
      else ZIP_Code r' = ZIP_Code r).

(** The members of all classes together. *)
Definition all_members (cls : list eq_class) : list nat :=
  flat_map snd cls.

(** The positions [i], [i+1], ... of the rows whose key holds no NaN. *)
Fixpoint kept_positions (cols : list (Row -> cell)) (rows : list Row)
    (i : nat) : list nat :=
  match rows with
  | [] => []
  | r :: rs =>
      if existsb isna (group_key cols r) then kept_positions cols rs (S i)
      else i :: kept_positions cols rs (S i)
  end.


(** The last line the enforcer prints on each way out. *)
Definition final_message (k : Z) (e : exit_point) : string :=
  match e with
  | ReturnAfterLoop => msg_achieved k
  | ReturnInLoop => msg_error
  end.

(** The number of classes of size 1. *)
Definition singleton_classes (cls : list eq_class) : Z :=
  Z.of_nat (List.length
              (filter (fun c => Nat.eqb (List.length (snd c)) 1) cls)).

(** The diversity of the class with the members [members]. *)
Definition class_diversity (df : DataFrame) (get : Row -> cell)
    (members : list nat) : Z :=
  nunique (dropna (map get (group_rows_of df members))).

(** The classes whose diversity is below [l_val], with their diversity. *)
Definition failing_of (df : DataFrame) (get : Row -> cell) (l_val : Z)
    (cls : list eq_class) : list (list cell * Z) :=
  flat_map (fun c => if class_diversity df get (snd c) <? l_val
                     then [(fst c, class_diversity df get (snd c))]
                     else []) cls.







(** The range of the ages that line 168 computes. *)
Definition age_range (dtypes : string -> dtype) (original_df : DataFrame)
  : option Z :=
  range_of (dtypes "Age")
           (series_max (numeric_values (map Age original_df)))
           (series_min (numeric_values (map Age original_df))).




(** ** Sample datasets *)

Definition patient (id : string) (age : Z) (gender zip diagnosis : string)
  : Row :=
  mkRow (VStr id) (VStr "Jane Doe") (VInt age) (VStr gender) (VStr zip)
        (VStr diagnosis).

(** Five records with the ages 22, 23, 45, 46 and 47. *)
Definition five_ages : DataFrame :=
  [ patient "P001" 22 "F" "12345" "Flu";
    patient "P002" 23 "F" "12345" "Asthma";
    patient "P003" 45 "F" "12345" "Flu";
    patient "P004" 46 "F" "12345" "Diabetes";
    patient "P005" 47 "F" "12345" "Flu" ].

(** One record: no generalization gives it a companion. *)
Definition lone_record : DataFrame :=
  [ patient "P001" 30 "M" "12345" "Flu" ].

(** Two records of 25 years and one of 100, the first age outside the
    bins [[0, 100)]. *)
Definition with_centenarian : DataFrame :=
  [ patient "P001" 25 "M" "12345" "Flu";
    patient "P002" 25 "M" "12345" "Asthma";
    patient "P003" 100 "M" "12345" "Flu" ].

(** One record whose age is missing. *)
Definition lone_missing : DataFrame :=
  [ mkRow (VStr "P001") (VStr "Jane Doe") VNaN (VStr "M") (VStr "12345")
          (VStr "Flu") ].

(** Two records of 30 years and a third whose age is missing; and the same
    with a third of 31 years. *)
Definition third_missing : DataFrame :=
  [ patient "P001" 30 "M" "12345" "Flu";
    patient "P002" 30 "M" "12345" "Asthma";
    mkRow (VStr "P003") (VStr "Jane Doe") VNaN (VStr "M") (VStr "12345")
          (VStr "Flu") ].

Definition third_apart : DataFrame :=
  [ patient "P001" 30 "M" "12345" "Flu";
    patient "P002" 30 "M" "12345" "Asthma";
    patient "P003" 31 "M" "12345" "Flu" ].

(** Two records whose ages, 20 and 21, span a range of one year. *)
Definition narrow_ages : DataFrame :=
  [ patient "P001" 20 "M" "12345" "Flu";
    patient "P002" 21 "M" "12345" "Asthma" ].

(** Three records of the same age, one of another gender. *)
Definition same_age : DataFrame :=
  [ patient "P001" 30 "M" "12345" "Flu";
    patient "P002" 30 "F" "12345" "Asthma";
    patient "P003" 30 "M" "12345" "Flu" ].

(** The token of the identifier [P001], and [lone_record] tokenized. *)
Definition lone_token : string :=
  "4b1e9381f9a733f7049ac7d18c3747dc43231dda118752bdfe946f33b96dfae4".

Definition lone_record_tokenized : DataFrame * list (cell * string) :=
  ([patient lone_token 30 "M" "12345" "Flu"], [(VStr "P001", lone_token)]).

(** [narrow_ages] with the ages binned by decade. *)
Definition narrow_ages_binned : DataFrame :=
  map (set_Age (VStr "20-29")) narrow_ages.


(** A released frame: its postal codes are masked already. *)
Definition released : DataFrame :=
  [ patient "P001" 20 "M" "1234*" "Flu";
    patient "P002" 55 "M" "1234*" "Asthma" ].

(** ** Vocabulary of the further properties *)

(** The text [generalize_zip] makes of a text. *)
Definition mask_text (precision : Z) (s : string) : string :=
  str_pad_right 5 "*"%char (str_slice0 precision s).

(** The two ends a label of the age hierarchy shows, read the way
    [compute_ncp] reads them. *)
Definition label_interval (label : string) : option (Z * Z) :=
  match split_on "-"%char label with
  | [a; b] =>
      match to_numeric a, to_numeric b with
      | Some lo, Some hi => Some (lo, hi)
      | _, _ => None
      end
  | _ => None
  end.

(** The label given to the age [v] shows an interval that holds [v], and
    [compute_ncp] reads its width. *)
Definition age_label_ok (bins : list Z) (labels : list string) (v : Z)
  : bool :=
  match cut_bins bins labels v with
  | VStr label =>
      match label_interval label, generalized_range (VStr label) with
      | Some (lo, hi), Some w => (lo <=? v) && (v <=? hi) && (w =? hi - lo)
      | _, _ => false
      end
  | _ => false
  end.

Definition age_not_text (r : Row) : bool :=
  match Age r with VStr _ => false | _ => true end.

Fixpoint increasing (l : list Z) : bool :=
  match l with
  | a :: ((b :: _) as t) => (a <? b) && increasing t
  | _ => true
  end.

Fixpoint distinct (l : list string) : bool :=
  match l with
  | [] => true
  | x :: t => negb (existsb (String.eqb x) t) && distinct t
  end.

(** Bins and labels that [pd.cut] accepts: int64 edges that increase, at
    least one bin, one label for each bin and no label twice. *)
Definition binning_ok (bins : list Z) (labels : list string) : bool :=
  forallb (fun b => (- 2 ^ 63 <=? b) && (b <? 2 ^ 63)) bins
  && increasing bins
  && distinct labels
  && negb (Nat.eqb (List.length labels) 0)
  && Nat.eqb (List.length bins) (S (List.length labels)).

(** The age cell [pd.cut] makes of a cell that is not a text. *)
Definition cut_value (bins : list Z) (labels : list string) (c : cell)
  : cell :=
  match c with
  | VInt v => cut_bins bins labels v
  | _ => VNaN
  end.

(** The age [v] binned at a rung of the hierarchy. *)
Definition age_at (rung : nat) (v : Z) : cell :=
  cut_bins (fst (nth rung age_generalizations ([], [])))
           (snd (nth rung age_generalizations ([], []))) v.

(** The key of a record has no missing value. *)
Definition complete (cols : list (Row -> cell)) (r : Row) : bool :=
  negb (existsb isna (group_key cols r)).

(** The number of records of [df] with the key of [r], [r] included. *)
Definition companions (cols : list (Row -> cell)) (df : DataFrame) (r : Row)
  : Z :=
  Z.of_nat (List.length
              (filter (fun r' => key_eqb (group_key cols r')
                                         (group_key cols r)) df)).

(** The size of the class of [key], 0 when there is none. *)
Definition class_size (key : list cell) (cls : list eq_class) : nat :=
  match find (fun c => key_eqb (fst c) key) cls with
  | Some c => List.length (snd c)
  | None => 0%nat
  end.

(** The first name of a list that is not a column. *)
Fixpoint first_unknown (qis : list string) : option string :=
  match qis with
  | [] => None
  | q :: rest => if is_column q then first_unknown rest else Some q
  end.

(** The exception [groupby] raises on a list of names, if any. *)
Definition groupby_error (qis : list string) : option error :=
  match qis with
  | [] => Some (ValueError "No group keys passed!")
  | _ => match first_unknown qis with
         | Some name => Some (KeyError name)
         | None => None
         end
  end.

(** What [apply_k_anonymity] leaves of a record [r] in the record [r']. *)
Definition kept_record (qis : list string) (r r' : Row) : Prop :=
  Patient_ID r' = Patient_ID r /\ Name r' = Name r
  /\ Gender r' = Gender r /\ Diagnosis r' = Diagnosis r
  /\ (name_in "Age" qis = false -> Age r' = Age r)
  /\ (name_in "ZIP_Code" qis = false -> ZIP_Code r' = ZIP_Code r).

Definition is_text (c : cell) : bool :=
  match c with VStr _ => true | _ => false end.

(** The number of records that miss no quasi-identifier value and share
    their quasi-identifier values with no other record. *)
Definition unique_records (cols : list (Row -> cell)) (df : DataFrame) : Z :=
  Z.of_nat (List.length
              (filter (fun r => complete cols r
                                && (companions cols df r =? 1)) df)).

(** The sum over the classes of [F key] times the size of the class. *)
Fixpoint weighted (F : list cell -> nat) (cls : list eq_class) : nat :=
  match cls with
  | [] => 0%nat
  | c :: rest => (List.length (snd c) * F (fst c) + weighted F rest)%nat
  end.

(** Two records agree on every column but the one named [name]. *)
Definition same_but (name : string) (r r' : Row) : Prop :=
  forall q get, column q = Ok get -> q <> name -> get r' = get r.

(** The value a [dict] holds for a key. *)
Fixpoint dict_get (k : cell) (d : list (cell * string)) : option string :=
  match d with
  | [] => None
  | (k', v) :: rest => if cell_eqb k' k then Some v else dict_get k rest
  end.

(* ================================================================== *)
(** * Properties *)

(** ** Results and columns *)

Lemma cell_eqb_eq (a b : cell) : cell_eqb a b = true <-> a = b.
Proof.
  destruct a, b; simpl; split; intro H; try discriminate; try reflexivity.
  - apply Z.eqb_eq in H. now subst.
  - inversion H. apply Z.eqb_refl.
  - apply String.eqb_eq in H. now subst.
  - inversion H. apply String.eqb_refl.
Qed.

Lemma key_eqb_eq (a b : list cell) : key_eqb a b = true <-> a = b.
Proof.
  revert b. induction a as [|x a IH]; intros [|y b]; simpl;
    split; intro H; try discriminate; try reflexivity.
  - apply andb_true_iff in H as [H1 H2].
    apply cell_eqb_eq in H1. apply IH in H2. now subst.
  - inversion H; subst. apply andb_true_iff. split.
    + now apply cell_eqb_eq.
    + now apply IH.
Qed.

Lemma key_eqb_refl (a : list cell) : key_eqb a a = true.
Proof. now apply key_eqb_eq. Qed.

Lemma mapM_ok {A B : Type} (f : A -> result B) (l : list A) :
  (forall a, In a l -> exists b, f a = Ok b) ->
  exists l', mapM f l = Ok l'.
Proof.
  induction l as [|a l IH]; intros H; simpl.
  - now exists [].
  - destruct (H a (or_introl eq_refl)) as [b Hb]. rewrite Hb. simpl.
    destruct IH as [l' Hl'].
    + intros x Hx. apply H. now right.
    + rewrite Hl'. simpl. now exists (b :: l').
Qed.

Lemma mapM_Forall2 {A B : Type} (f : A -> result B) (l : list A)
    (l' : list B) :
  mapM f l = Ok l' -> Forall2 (fun a b => f a = Ok b) l l'.
Proof.
  revert l'. induction l as [|a l IH]; intros l' H; simpl in H.
  - inversion H. constructor.
  - destruct (f a) as [b|e] eqn:Hb; simpl in H; [|discriminate].
    destruct (mapM f l) as [bs|e] eqn:Hbs; simpl in H; [|discriminate].
    inversion H; subst. constructor; auto.
Qed.

Lemma is_column_ok (name : string) :
  is_column name = true -> exists get, column name = Ok get.
Proof.
  unfold is_column. destruct (column name) as [g|e]; [eauto|discriminate].
Qed.

Lemma valid_qis_columns (qis : list string) :
  valid_qis qis = true ->
  qis <> [] /\ exists cols, mapM column qis = Ok cols.
Proof.
  intros H. destruct qis as [|q qs]; [discriminate|]. split; [discriminate|].
  apply mapM_ok. intros a Ha. apply is_column_ok.
  unfold valid_qis in H. rewrite forallb_forall in H. now apply H.
Qed.

Lemma valid_qis_classes (qis : list string) :
  valid_qis qis = true ->
  exists cols, mapM column qis = Ok cols
    /\ forall df, get_equivalence_classes df qis
                  = Ok (group_rows cols df 0%nat []).
Proof.
  intros H. destruct (valid_qis_columns qis H) as [Hne [cols Hc]].
  exists cols. split; [exact Hc|]. intros df.
  unfold get_equivalence_classes. destruct qis; [congruence|].
  rewrite Hc. reflexivity.
Qed.

(** ** Equivalence classes *)

Lemma add_member_members (key : list cell) (i : nat) (cls : list eq_class) :
  Permutation (all_members (add_member key i cls)) (i :: all_members cls).
Proof.
  unfold all_members.
  induction cls as [|[k ms] rest IH]; simpl.
  - reflexivity.
  - destruct (key_eqb k key); simpl.
    + rewrite <- app_assoc. simpl. apply Permutation_sym, Permutation_middle.
    + rewrite IH. apply Permutation_sym, Permutation_middle.
Qed.

Lemma group_rows_members (cols : list (Row -> cell)) (rows : list Row)
    (i : nat) (acc : list eq_class) :
  Permutation (all_members (group_rows cols rows i acc))
              (all_members acc ++ kept_positions cols rows i).
Proof.
  revert i acc. induction rows as [|r rs IH]; intros i acc; simpl.
  - rewrite app_nil_r. reflexivity.
  - destruct (existsb isna (group_key cols r)).
    + apply IH.
    + rewrite IH, add_member_members. simpl. apply Permutation_middle.
Qed.

Lemma kept_positions_length (cols : list (Row -> cell)) (rows : list Row)
    (i : nat) :
  (List.length (kept_positions cols rows i) <= List.length rows)%nat.
Proof.
  revert i. induction rows as [|r rs IH]; intros i; simpl.
  - lia.
  - destruct (existsb isna (group_key cols r)); simpl;
      specialize (IH (S i)); lia.
Qed.

Lemma kept_positions_In (cols : list (Row -> cell)) (rows : list Row)
    (i p : nat) :
  In p (kept_positions cols rows i) <->
  (i <= p)%nat
  /\ exists r, nth_error rows (p - i) = Some r
               /\ existsb isna (group_key cols r) = false.
Proof.
  revert i. induction rows as [|r rs IH]; intros i; simpl.
  - split; [tauto|]. intros [_ [r [H _]]].
    destruct (p - i)%nat; discriminate.
  - destruct (existsb isna (group_key cols r)) eqn:Hr; simpl;
      rewrite IH; split.
    + intros [Hle [r' [Hn Hk]]]. split; [lia|]. exists r'. split; [|exact Hk].
      replace (p - i)%nat with (S (p - S i)) by lia. exact Hn.
    + intros [Hle [r' [Hn Hk]]].
      destruct (p - i)%nat as [|m] eqn:Hm; simpl in Hn.
      * inversion Hn; subst. congruence.
      * split; [lia|]. exists r'. split; [|exact Hk].
        replace (p - S i)%nat with m by lia. exact Hn.
    + intros [Heq | [Hle [r' [Hn Hk]]]].
      * subst. split; [lia|]. exists r. rewrite Nat.sub_diag. now split.
      * split; [lia|]. exists r'. split; [|exact Hk].
        replace (p - i)%nat with (S (p - S i)) by lia. exact Hn.
    + intros [Hle [r' [Hn Hk]]].
      destruct (p - i)%nat as [|m] eqn:Hm; simpl in Hn.
      * left. lia.
      * right. split; [lia|]. exists r'. split; [|exact Hk].
        replace (p - S i)%nat with m by lia. exact Hn.
Qed.

Lemma kept_positions_all (cols : list (Row -> cell)) (rows : list Row)
    (i : nat) :
  (forall r, In r rows -> existsb isna (group_key cols r) = false) ->
  kept_positions cols rows i = seq i (List.length rows).
Proof.
  revert i. induction rows as [|r rs IH]; intros i H; simpl.
  - reflexivity.
  - rewrite (H r (or_introl eq_refl)). f_equal. apply IH.
    intros x Hx. apply H. now right.
Qed.

Lemma add_member_nonempty (key : list cell) (i : nat) (cls : list eq_class) :
  Forall (fun c => snd c <> []) cls ->
  Forall (fun c => snd c <> []) (add_member key i cls).
Proof.
  induction cls as [|[k ms] rest IH]; intros H; simpl.
  - constructor; [discriminate|constructor].
  - inversion H; subst. destruct (key_eqb k key); constructor; auto.
    simpl. destruct ms; discriminate.
Qed.

Lemma group_rows_nonempty (cols : list (Row -> cell)) (rows : list Row)
    (i : nat) (acc : list eq_class) :
  Forall (fun c => snd c <> []) acc ->
  Forall (fun c => snd c <> []) (group_rows cols rows i acc).
Proof.
  revert i acc. induction rows as [|r rs IH]; intros i acc H; simpl.
  - exact H.
  - apply IH. destruct (existsb isna (group_key cols r)); [exact H|].
    now apply add_member_nonempty.
Qed.

Lemma add_member_keys (key : list cell) (i : nat) (cls : list eq_class) :
  forall k, In k (map fst (add_member key i cls)) <->
            k = key \/ In k (map fst cls).
Proof.
  induction cls as [|[k0 ms] rest IH]; intros k; simpl.
  - split; [intros [H|[]]; now left | intros [H|[]]; now left].
  - destruct (key_eqb k0 key) eqn:E; simpl.
    + apply key_eqb_eq in E. subst. split; intros [H|H]; auto.
    + rewrite IH. split; intros [H|[H|H]]; auto.
Qed.

Lemma add_member_NoDup (key : list cell) (i : nat) (cls : list eq_class) :
  NoDup (map fst cls) -> NoDup (map fst (add_member key i cls)).
Proof.
  induction cls as [|[k0 ms] rest IH]; intros H; simpl.
  - constructor; [intros []|constructor].
  - inversion H; subst. destruct (key_eqb k0 key) eqn:E; simpl.
    + now constructor.
    + constructor; [|now apply IH].
      rewrite add_member_keys. intros [Hk|Hk]; [|contradiction].
      subst. rewrite key_eqb_refl in E. discriminate.
Qed.

Lemma group_rows_NoDup (cols : list (Row -> cell)) (rows : list Row)
    (i : nat) (acc : list eq_class) :
  NoDup (map fst acc) -> NoDup (map fst (group_rows cols rows i acc)).
Proof.
  revert i acc. induction rows as [|r rs IH]; intros i acc H; simpl.
  - exact H.
  - apply IH. destruct (existsb isna (group_key cols r)); [exact H|].
    now apply add_member_NoDup.
Qed.

Lemma count_singletons_le (cls : list eq_class) :
  count_singletons (group_sizes cls)
  <= Z.of_nat (List.length (all_members cls)).
Proof.
  unfold count_singletons, group_sizes, all_members.
  induction cls as [|[k ms] rest IH]; simpl.
  - lia.
  - rewrite length_app.
    destruct (Z.of_nat (List.length ms) =? 1) eqn:E; simpl; lia.
Qed.

Lemma singletons_le_total (cols : list (Row -> cell)) (df : DataFrame) :
  count_singletons (group_sizes (group_rows cols df 0%nat []))
  <= Z.of_nat (List.length df).
Proof.
  pose proof (count_singletons_le (group_rows cols df 0%nat [])) as H.
  pose proof (Permutation_length (group_rows_members cols df 0%nat [])) as P.
  simpl in P. pose proof (kept_positions_length cols df 0%nat). lia.
Qed.

Lemma count_singletons_nonneg (sizes : list Z) : 0 <= count_singletons sizes.
Proof. unfold count_singletons. lia. Qed.

(** ** The k-anonymity test *)

Lemma series_min_none (l : list Z) : series_min l = None <-> l = [].
Proof.
  destruct l as [|x t]; simpl; [tauto|].
  destruct (series_min t); split; discriminate.
Qed.

Lemma series_min_lower (l : list Z) (m : Z) :
  series_min l = Some m -> Forall (fun x => m <= x) l.
Proof.
  revert m. induction l as [|x t IH]; intros m H; simpl in H.
  - discriminate.
  - destruct (series_min t) as [m'|] eqn:E.
    + inversion H; subst. constructor; [lia|].
      eapply Forall_impl; [|apply IH; reflexivity].
      simpl. intros a Ha. lia.
    + inversion H; subst. apply series_min_none in E. subst.
      constructor; [lia|constructor].
Qed.

Lemma series_min_ge (l : list Z) (k : Z) :
  l <> [] -> Forall (fun x => k <= x) l -> ge_nan (series_min l) k = true.
Proof.
  induction l as [|x t IH]; intros Hne H; [congruence|].
  inversion H; subst. simpl.
  destruct (series_min t) as [m|] eqn:E; simpl.
  - destruct t as [|y t']; [discriminate|].
    assert (G : ge_nan (Some m) k = true) by (apply IH; [discriminate|auto]).
    simpl in G. apply Z.leb_le in G. apply Z.leb_le. lia.
  - now apply Z.leb_le.
Qed.

Lemma ge_nan_mono (m : option Z) (k1 k2 : Z) :
  k1 <= k2 -> ge_nan m k2 = true -> ge_nan m k1 = true.
Proof.
  destruct m; simpl; intros H G; [|discriminate].
  apply Z.leb_le in G. apply Z.leb_le. lia.
Qed.

Lemma check_k_anonymity_total (df : DataFrame) (qis : list string) (k : Z) :
  valid_qis qis = true -> exists b, check_k_anonymity df qis k = Ok b.
Proof.
  intros H. destruct (valid_qis_classes qis H) as [cols [_ Hc]].
  unfold check_k_anonymity. destruct df; [eauto|].
  rewrite Hc. simpl. eauto.
Qed.

Lemma check_k_anonymity_mono (df : DataFrame) (qis : list string)
    (k1 k2 : Z) :
  k1 <= k2 ->
  check_k_anonymity df qis k2 = Ok true ->
  check_k_anonymity df qis k1 = Ok true.
Proof.
  unfold check_k_anonymity. intros Hk. destruct df; [auto|].
  destruct (get_equivalence_classes _ qis) as [cls|e]; simpl; [|discriminate].
  intros H. inversion H as [G]. rewrite G.
  now rewrite (ge_nan_mono _ k1 k2 Hk G).
Qed.

(** ** One attempt of the enforcer *)

Lemma py_get_nth {A : Type} (l : list A) (i : Z) (d : A) :
  0 <= i < Z.of_nat (List.length l) ->
  py_get l i = Ok (nth (Z.to_nat i) l d).
Proof.
  intros [H0 H1]. unfold py_get.
  destruct (i <? 0) eqn:E; [apply Z.ltb_lt in E; lia|].
  assert (G : (0 <=? i) && (i <? Z.of_nat (List.length l)) = true).
  { apply andb_true_iff. split; [now apply Z.leb_le | now apply Z.ltb_lt]. }
  rewrite G.
  destruct (nth_error l (Z.to_nat i)) as [x|] eqn:N.
  - now rewrite (nth_error_nth _ _ d N).
  - apply nth_error_None in N. lia.
Qed.

Lemma generalize_age_rows (df : DataFrame) (bins : list Z)
    (labels : list string) :
  (forall r, In r df -> match Age r with VStr _ => false | _ => true end = true) ->
  exists frame,
    generalize_age df bins labels = Ok frame
    /\ Forall2 (fun r r' => exists c, cut_cell bins labels (Age r) = Ok c
                                      /\ r' = set_Age c r) df frame.
Proof.
  unfold generalize_age.
  induction df as [|r df IH]; intros H; simpl.
  - exists []. split; [reflexivity|constructor].
  - destruct IH as [frame [Hf HF]]; [intros x Hx; apply H; now right|].
    assert (Hr := H r (or_introl eq_refl)).
    destruct (cut_cell bins labels (Age r)) as [c|e] eqn:Hc.
    + simpl. rewrite Hf. simpl. eexists. split; [reflexivity|].
      constructor; [|exact HF]. now exists c.
    + destruct (Age r); simpl in Hc; discriminate.
Qed.

Lemma generalize_zip_rows (df : DataFrame) (p : Z) :
  Forall2 (fun r r' => r' = set_ZIP_Code (mask_zip p (ZIP_Code r)) r)
          df (generalize_zip df p).
Proof. induction df; simpl; constructor; auto. Qed.

Lemma Forall2_compose {A B C : Type} (R : A -> B -> Prop) (S : B -> C -> Prop)
    (l1 : list A) (l2 : list B) (l3 : list C) :
  Forall2 R l1 l2 -> Forall2 S l2 l3 ->
  Forall2 (fun a c => exists b, R a b /\ S b c) l1 l3.
Proof.
  intros H. revert l3. induction H; intros l3 H3; inversion H3; subst.
  - constructor.
  - constructor; eauto.
Qed.

Lemma Forall2_refl_eq {A : Type} (l : list A) : Forall2 eq l l.
Proof. induction l; constructor; auto. Qed.

Lemma age_rung_range (level : Z) :
  0 <= level ->
  age_rung level = 0 \/ age_rung level = 1 \/ age_rung level = 2
  \/ age_rung level = 3.
Proof.
  intros H. unfold age_rung. pose proof (Z.div_pos level 2). lia.
Qed.

Lemma zip_rung_idx_lower (level : Z) : 0 <= level -> -1 <= zip_rung_idx level.
Proof.
  intros H. unfold zip_rung_idx. apply Z.div_le_lower_bound; lia.
Qed.

(** The age step of an attempt (lines 86-89). *)
Lemma attempt_age_step (df : DataFrame) (qis : list string) (level : Z) :
  0 <= level ->
  age_cuttable df qis = true ->
  exists temp,
    (if name_in "Age" qis then
       let current_age_level :=
         Z.min (level / 2) (Z.of_nat (List.length age_generalizations) - 1) in
       gen <- py_get age_generalizations current_age_level ;;
       generalize_age df (fst gen) (snd gen)
     else Ok df) = Ok temp
    /\ Forall2 (fun r r' =>
                  Patient_ID r' = Patient_ID r /\ Name r' = Name r
                  /\ Gender r' = Gender r /\ Diagnosis r' = Diagnosis r
                  /\ ZIP_Code r' = ZIP_Code r
                  /\ (if name_in "Age" qis
                      then cut_cell (fst (age_bins_at (age_rung level)))
                                    (snd (age_bins_at (age_rung level)))
                                    (Age r) = Ok (Age r')
                      else Age r' = Age r)) df temp.
Proof.
  intros Hl Hc. unfold age_cuttable in Hc.
  destruct (name_in "Age" qis) eqn:HA.
  - simpl in Hc. rewrite forallb_forall in Hc.
    change (Z.min (level / 2) (Z.of_nat (List.length age_generalizations) - 1))
      with (age_rung level).
    cbv zeta.
    rewrite (py_get_nth age_generalizations (age_rung level) ([], [])).
    2:{ destruct (age_rung_range level Hl) as [E|[E|[E|E]]]; rewrite E;
        simpl; lia. }
    simpl bind. fold (age_bins_at (age_rung level)).
    destruct (generalize_age_rows df (fst (age_bins_at (age_rung level)))
                (snd (age_bins_at (age_rung level))) Hc) as [frame [Hf HF]].
    exists frame. split; [exact Hf|].
    eapply Forall2_impl; [|exact HF].
    intros r r' [c [Hcut ->]]. simpl. repeat split; auto.
  - exists df. split; [reflexivity|].
    eapply Forall2_impl; [|apply Forall2_refl_eq].
    intros r r' ->. repeat split; auto.
Qed.

(** An attempt at a level from 0 on returns a frame, and each of its
    records is the original record under the sub-rungs of the level. *)
Lemma generalize_attempt_rows (df : DataFrame) (qis : list string)
    (level : Z) :
  0 <= level ->
  age_cuttable df qis = true ->
  exists frame,
    generalize_attempt df qis level = Ok frame
    /\ Forall2 (attempt_row qis level) df frame.
Proof.
  intros Hl Hc. unfold generalize_attempt. cbv zeta.
  destruct (attempt_age_step df qis level Hl Hc) as [temp [Ht HT]].
  cbv zeta in Ht. rewrite Ht. simpl bind.
  fold (zip_rung_idx level).
  pose proof (zip_rung_idx_lower level Hl) as Hz.
  destruct (name_in "ZIP_Code" qis && (0 <=? zip_rung_idx level)) eqn:HZ.
  - apply andb_true_iff in HZ as [HZ1 HZ2]. apply Z.leb_le in HZ2.
    change (Z.of_nat (List.length zip_generalizations) - 1) with 3.
    rewrite (py_get_nth zip_generalizations (Z.min (zip_rung_idx level) 3) 0).
    2:{ simpl. lia. }
    simpl bind. fold (zip_precision_at (zip_rung_idx level)).
    eexists. split; [reflexivity|].
    pose proof (Forall2_compose _ _ _ _ _ HT
                  (generalize_zip_rows temp
                     (zip_precision_at (zip_rung_idx level)))) as HF.
    eapply Forall2_impl; [|exact HF].
    intros r r' [b [[H1 [H2 [H3 [H4 [H5 H6]]]]] ->]].
    unfold attempt_row. rewrite HZ1.
    assert (E : (0 <=? zip_rung_idx level) = true) by now apply Z.leb_le.
    rewrite E. simpl. rewrite H5. repeat split; auto.
  - exists temp. split; [reflexivity|].
    eapply Forall2_impl; [|exact HT].
    intros r r' [H1 [H2 [H3 [H4 [H5 H6]]]]].
    unfold attempt_row. rewrite HZ. repeat split; auto.
Qed.

Lemma attempt_top_stable (df : DataFrame) (qis : list string) :
  generalize_attempt df qis 10 = generalize_attempt df qis 9.
Proof. reflexivity. Qed.

(** ** The enforcement loop *)

Lemma zrange_nil (lo : Z) : zrange lo lo = [].
Proof. unfold zrange. now rewrite Z.sub_diag. Qed.

Lemma zrange_cons (lo hi : Z) :
  lo < hi -> zrange lo hi = lo :: zrange (lo + 1) hi.
Proof.
  intros H. unfold zrange.
  replace (Z.to_nat (hi - lo)) with (S (Z.to_nat (hi - (lo + 1)))) by lia.
  simpl. f_equal; [lia|].
  rewrite <- seq_shift, map_map. apply map_ext. intros a. lia.
Qed.

Lemma zrange_length (lo hi : Z) :
  lo <= hi -> Z.of_nat (List.length (zrange lo hi)) = hi - lo.
Proof.
  intros H. unfold zrange. rewrite length_map, length_seq. lia.
Qed.

(** Whatever the inputs, the loop returns or raises within the fuel that
    the cap leaves: it never runs out of fuel. *)
Lemma while_loop_returns (df : DataFrame) (qis : list string) (k : Z)
    (fuel : nat) : forall st,
  11 <= gen_level st + Z.of_nat fuel ->
  gen_level st <= 10 ->
  while_loop fuel df qis k st <> None.
Proof.
  induction fuel as [|fuel IH]; intros st Hf Hl; [lia|].
  simpl.
  destruct (check_k_anonymity (anonymized_df st) qis k) as [[|]|e];
    try discriminate.
  unfold loop_body.
  destruct (generalize_attempt df qis (gen_level st)) as [frame|e];
    simpl bind; [|discriminate].
  cbn [gen_level].
  destruct (10 <? gen_level st + 1) eqn:Hcap; [discriminate|].
  apply Z.ltb_ge in Hcap. apply IH; simpl; lia.
Qed.

Lemma enforce_returns (df : DataFrame) (qis : list string) (k : Z) :
  enforce df qis k <> None.
Proof. apply while_loop_returns; simpl; lia. Qed.

(** The scenarios of the specification: ages 22, 23, 45, 46, 47 with
    [k = 2] are satisfied by the first attempt, which bins by decade; two
    postal codes that differ in the last digit by the second, which masks
    that digit. *)
Example five_ages_scenario :
  exists st,
    enforce five_ages ["Age"] 2 = Some (Ok (ReturnAfterLoop, st))
    /\ gen_level st = 1
    /\ map Age (anonymized_df st)
       = [VStr "20-29"; VStr "20-29"; VStr "40-49"; VStr "40-49";
          VStr "40-49"].
Proof. eexists. split; [vm_compute; reflexivity|]. split; reflexivity. Qed.

Example two_postal_codes_scenario :
  exists st,
    enforce [patient "P001" 30 "M" "12345" "Flu";
             patient "P002" 30 "M" "12346" "Flu"] ["ZIP_Code"] 2
    = Some (Ok (ReturnAfterLoop, st))
    /\ gen_level st = 2
    /\ map ZIP_Code (anonymized_df st) = [VStr "1234*"; VStr "1234*"].
Proof. eexists. split; [vm_compute; reflexivity|]. split; reflexivity. Qed.

Section Enforcer.

Variable df : DataFrame.
Variable qis : list string.
Variable k : Z.
Hypothesis qis_valid : valid_qis qis = true.
Hypothesis age_ok : age_cuttable df qis = true.

(** From any state the loop can be in, the loop returns within the fuel
    that is left; the frames tested on the way all failed the test. *)
Lemma while_loop_spec (fuel : nat) : forall st,
  0 <= gen_level st <= 10 ->
  11 <= gen_level st + Z.of_nat fuel ->
  frame_before df qis (gen_level st) = Ok (anonymized_df st) ->
  exists e st',
    while_loop fuel df qis k st = Some (Ok (e, st'))
    /\ gen_level st <= gen_level st' <= 11
    /\ frame_before df qis (gen_level st') = Ok (anonymized_df st')
    /\ (forall L, gen_level st <= L < gen_level st' ->
          exists f, frame_before df qis L = Ok f
                    /\ check_k_anonymity f qis k = Ok false)
    /\ stdout st'
       = stdout st
         ++ map (msg_not_met k) (zrange (gen_level st) (gen_level st'))
         ++ [final_message k e]
    /\ match e with
       | ReturnAfterLoop =>
           gen_level st' <= 10
           /\ check_k_anonymity (anonymized_df st') qis k = Ok true
       | ReturnInLoop =>
           gen_level st' = 11
           /\ check_k_anonymity (anonymized_df st') qis k = Ok false
       end.
Proof.
  induction fuel as [|fuel IH]; intros st Hl Hf Hinv; [lia|].
  simpl.
  destruct (check_k_anonymity_total (anonymized_df st) qis k qis_valid)
    as [b Hb].
  rewrite Hb. destruct b.
  - exists ReturnAfterLoop, (print (msg_achieved k) st). simpl.
    rewrite zrange_nil. simpl.
    repeat split; auto; try lia.
  - destruct (generalize_attempt_rows df qis (gen_level st)) as [frame [Hfr _]];
      [lia | exact age_ok |].
    unfold loop_body. rewrite Hfr. cbn [bind gen_level].
    destruct (10 <? gen_level st + 1) eqn:Hcap.
    + apply Z.ltb_lt in Hcap. assert (E : gen_level st = 10) by lia.
      eexists ReturnInLoop, _. split; [reflexivity|]. simpl.
      rewrite E in *. simpl.
      assert (Hsame : anonymized_df st = frame).
      { rewrite attempt_top_stable in Hfr.
        change (frame_before df qis 10) with (generalize_attempt df qis 9)
          in Hinv.
        congruence. }
      repeat split; auto; try lia.
      * intros L HL. assert (L = 10) by lia. subst L.
        exists (anonymized_df st). split; [exact Hinv | exact Hb].
      * rewrite <- app_assoc. reflexivity.
      * rewrite <- Hsame. exact Hb.
    + apply Z.ltb_ge in Hcap.
      set (st1 := mkState frame frame (gen_level st + 1)
                          (stdout st ++ [msg_not_met k (gen_level st)])).
      assert (Hinv1 : frame_before df qis (gen_level st1)
                      = Ok (anonymized_df st1)).
      { simpl. unfold frame_before.
        destruct (gen_level st + 1 =? 0) eqn:E0;
          [apply Z.eqb_eq in E0; lia|].
        now rewrite Z.add_simpl_r. }
      destruct (IH st1) as [e [st' [Hrun [Hlv [Hfb [Hfail [Hout Hend]]]]]]];
        [simpl; lia | simpl; lia | exact Hinv1 |].
      exists e, st'. simpl in *.
      split; [exact Hrun|].
      split; [lia|].
      split; [exact Hfb|].
      split.
      * intros L HL.
        destruct (Z.eq_dec L (gen_level st)) as [->|Hne].
        -- exists (anonymized_df st). split; [exact Hinv | exact Hb].
        -- apply Hfail. lia.
      * split; [|exact Hend].
        rewrite Hout. rewrite (zrange_cons (gen_level st) (gen_level st'))
          by lia.
        simpl. rewrite <- app_assoc. reflexivity.
Qed.

(** The whole run, from the initial state. *)
Lemma enforce_spec :
  exists e st,
    enforce df qis k = Some (Ok (e, st))
    /\ apply_k_anonymity df qis k = Some (Ok (anonymized_df st))
    /\ 0 <= gen_level st <= 11
    /\ frame_before df qis (gen_level st) = Ok (anonymized_df st)
    /\ (forall L, 0 <= L < gen_level st ->
          exists f, frame_before df qis L = Ok f
                    /\ check_k_anonymity f qis k = Ok false)
    /\ stdout st
       = map (msg_not_met k) (zrange 0 (gen_level st)) ++ [final_message k e]
    /\ match e with
       | ReturnAfterLoop =>
           gen_level st <= 10
           /\ check_k_anonymity (anonymized_df st) qis k = Ok true
       | ReturnInLoop =>
           gen_level st = 11
           /\ check_k_anonymity (anonymized_df st) qis k = Ok false
       end.
Proof.
  destruct (while_loop_spec 11 (initial_state df))
    as [e [st [Hrun [Hlv [Hfb [Hfail [Hout Hend]]]]]]];
    [simpl; lia | simpl; lia | reflexivity |].
  exists e, st.
  unfold apply_k_anonymity, enforce. rewrite Hrun.
  cbn [initial_state gen_level stdout app] in Hlv, Hfail, Hout.
  repeat split; auto; try lia.
Qed.

End Enforcer.

Lemma while_loop_satisfied (fuel : nat) (df : DataFrame) (qis : list string)
    (k : Z) (st : loop_state) :
  check_k_anonymity (anonymized_df st) qis k = Ok true ->
  while_loop (S fuel) df qis k st
  = Some (Ok (ReturnAfterLoop, print (msg_achieved k) st)).
Proof. intros H. simpl. now rewrite H. Qed.

Lemma no_missing_key (qis : list string) (cols : list (Row -> cell))
    (r : Row) :
  mapM column qis = Ok cols ->
  forallb (fun q => match column q with
                    | Ok get => negb (isna (get r))
                    | Raise _ => true
                    end) qis = true ->
  existsb isna (group_key cols r) = false.
Proof.
  intros H. apply mapM_Forall2 in H.
  induction H as [|q g qs gs Hq _ IH]; simpl; intros F; [reflexivity|].
  rewrite Hq in F. apply andb_true_iff in F as [F1 F2].
  apply negb_true_iff in F1. rewrite F1. simpl. now apply IH.
Qed.

Lemma check_no_missing (df : DataFrame) (qis : list string) (k : Z) :
  valid_qis qis = true -> no_missing_qi df qis = true -> k <= 1 ->
  check_k_anonymity df qis k = Ok true.
Proof.
  intros Hq Hm Hk. destruct (valid_qis_classes qis Hq) as [cols [Hc Hcls]].
  unfold check_k_anonymity. destruct df as [|r rest] eqn:Hdf; [reflexivity|].
  rewrite <- Hdf in *. rewrite Hcls. simpl bind. f_equal.
  set (cls := group_rows cols df 0%nat []).
  assert (Hkept : kept_positions cols df 0%nat = seq 0 (List.length df)).
  { apply kept_positions_all. intros x Hx. apply (no_missing_key qis); auto.
    unfold no_missing_qi in Hm. rewrite forallb_forall in Hm. now apply Hm. }
  pose proof (group_rows_members cols df 0%nat []) as P. fold cls in P.
  rewrite Hkept in P. simpl in P.
  pose proof (group_rows_nonempty cols df 0%nat [] (Forall_nil _)) as NE.
  fold cls in NE.
  apply series_min_ge.
  - unfold group_sizes. destruct cls as [|c cs]; [|discriminate].
    apply Permutation_length in P. rewrite Hdf in P. simpl in P. lia.
  - unfold group_sizes. apply Forall_map.
    eapply Forall_impl; [|exact NE]. intros c Hc'. simpl in *.
    destruct (snd c); [congruence|]. simpl. lia.
Qed.

(** ** Schedule, cap and monotonicity of the enforcer *)

(** C1. At every attempt level [L] from 0 on, the attempt is built from the
    original dataset: the age of each record is binned at rung
    [min (L / 2) 3] and its postal code masked at the sub-rung of index
    [(L - 1) / 2], left as it is when that index is negative; both only for
    the quasi-identifiers of the configured set, every other column is the
    original one.  The loop body stores this frame whatever frames the loop
    state held before, and in a run that reaches the attempt the
    k-anonymity test of this frame decides what follows: the test holds
    exactly when the run returns through the end of the loop right after
    this attempt. *)
Theorem attempt_schedule (df : DataFrame) (qis : list string) (k L : Z) :
  valid_qis qis = true ->
  age_cuttable df qis = true ->
  0 <= L ->
  exists frame e final,
    generalize_attempt df qis L = Ok frame
    /\ Forall2 (attempt_row qis L) df frame
    /\ (forall st, gen_level st = L ->
          loop_body df qis k st
          = Ok (mkState frame frame (L + 1)
                        (stdout st ++ [msg_not_met k L])))
    /\ enforce df qis k = Some (Ok (e, final))
    /\ (L < gen_level final ->
          check_k_anonymity frame qis k
          = Ok (match e with
                | ReturnAfterLoop => L + 1 =? gen_level final
                | ReturnInLoop => false
                end)).
Proof.
  intros Hq Ha HL.
  destruct (generalize_attempt_rows df qis L HL Ha) as [frame [Hf HF]].
  destruct (enforce_spec df qis k Hq Ha)
    as [e [st [Hrun [_ [Hlv [Hfb [Hfail [_ Hend]]]]]]]].
  exists frame, e, st.
  split; [exact Hf|]. split; [exact HF|]. split.
  { intros st0 E. unfold loop_body. rewrite E, Hf. reflexivity. }
  split; [exact Hrun|].
  intros Hlt.
  assert (Hnext : frame_before df qis (L + 1) = Ok frame).
  { unfold frame_before. destruct (L + 1 =? 0) eqn:E0;
      [apply Z.eqb_eq in E0; lia|]. now rewrite Z.add_simpl_r. }
  destruct (Z.eq_dec (L + 1) (gen_level st)) as [Eq|Ne].
  - rewrite Eq in Hnext. rewrite Hfb in Hnext. inversion Hnext; subst frame.
    destruct e; destruct Hend as [_ Hc]; rewrite Hc; [reflexivity|].
    now rewrite (proj2 (Z.eqb_eq _ _) Eq).
  - destruct (Hfail (L + 1)) as [f [Hf1 Hf2]]; [lia|].
    rewrite Hnext in Hf1. inversion Hf1; subst f. rewrite Hf2.
    destruct e; [reflexivity|].
    now rewrite (proj2 (Z.eqb_neq _ _) Ne).
Qed.

Lemma attempt_schedule_witness :
  exists frame e final,
    generalize_attempt five_ages ["Age"; "ZIP_Code"] 3 = Ok frame
    /\ Forall2 (attempt_row ["Age"; "ZIP_Code"] 3) five_ages frame
    /\ (forall st, gen_level st = 3 ->
          loop_body five_ages ["Age"; "ZIP_Code"] 4 st
          = Ok (mkState frame frame (3 + 1)
                        (stdout st ++ [msg_not_met 4 3])))
    /\ enforce five_ages ["Age"; "ZIP_Code"] 4 = Some (Ok (e, final))
    /\ (3 < gen_level final ->
          check_k_anonymity frame ["Age"; "ZIP_Code"] 4
          = Ok (match e with
                | ReturnAfterLoop => 3 + 1 =? gen_level final
                | ReturnInLoop => false
                end)).
Proof.
  apply (attempt_schedule five_ages ["Age"; "ZIP_Code"] 4 3);
    [reflexivity | reflexivity | lia].
Defined.

(** C3, as the code has it.  The search makes at most eleven attempts
    (levels 0 to 10) and always returns a frame, never an exception.  When
    the eleventh attempt is done the enforcer returns the frame of that
    attempt, which fails the k-anonymity test, and the last line it prints
    is the error message; otherwise the frame it returns passes the test
    and the last line is the success message.  The value returned is the
    frame alone. *)
Theorem enforce_terminates_within_cap (df : DataFrame) (qis : list string)
    (k : Z) :
  valid_qis qis = true ->
  age_cuttable df qis = true ->
  exists e st,
    enforce df qis k = Some (Ok (e, st))
    /\ apply_k_anonymity df qis k = Some (Ok (anonymized_df st))
    /\ 0 <= gen_level st <= 11
    /\ stdout st
       = map (msg_not_met k) (zrange 0 (gen_level st)) ++ [final_message k e]
    /\ match e with
       | ReturnInLoop =>
           gen_level st = 11
           /\ generalize_attempt df qis 10 = Ok (anonymized_df st)
           /\ check_k_anonymity (anonymized_df st) qis k = Ok false
       | ReturnAfterLoop =>
           gen_level st <= 10
           /\ check_k_anonymity (anonymized_df st) qis k = Ok true
       end.
Proof.
  intros Hq Ha.
  destruct (enforce_spec df qis k Hq Ha)
    as [e [st [Hrun [Hret [Hlv [Hfb [_ [Hout Hend]]]]]]]].
  exists e, st. repeat (split; [assumption|]).
  destruct e; [|exact Hend].
  destruct Hend as [E Hc]. rewrite E in Hfb. repeat split; auto.
Qed.

Lemma enforce_terminates_within_cap_witness :
  exists e st,
    enforce lone_record ["Age"; "ZIP_Code"] 2 = Some (Ok (e, st))
    /\ apply_k_anonymity lone_record ["Age"; "ZIP_Code"] 2
       = Some (Ok (anonymized_df st))
    /\ 0 <= gen_level st <= 11
    /\ stdout st
       = map (msg_not_met 2) (zrange 0 (gen_level st)) ++ [final_message 2 e]
    /\ match e with
       | ReturnInLoop =>
           gen_level st = 11
           /\ generalize_attempt lone_record ["Age"; "ZIP_Code"] 10
              = Ok (anonymized_df st)
           /\ check_k_anonymity (anonymized_df st) ["Age"; "ZIP_Code"] 2
              = Ok false
       | ReturnAfterLoop =>
           gen_level st <= 10
           /\ check_k_anonymity (anonymized_df st) ["Age"; "ZIP_Code"] 2
              = Ok true
       end.
Proof.
  apply (enforce_terminates_within_cap lone_record ["Age"; "ZIP_Code"] 2);
    reflexivity.
Defined.

(** C3, as the specification has it, fails: on a dataset of one record and
    [k = 2] the enforcer makes eleven attempts, not ten, and what it
    returns is a frame, the same value a satisfied run on that frame
    returns. *)
Lemma cap_is_eleven_attempts :
  exists st,
    enforce lone_record ["Age"; "ZIP_Code"] 2 = Some (Ok (ReturnInLoop, st))
    /\ gen_level st = 11
    /\ ~ gen_level st <= 10
    /\ List.length (filter (fun line => negb (String.eqb line msg_error))
                           (stdout st)) = 11%nat
    /\ apply_k_anonymity lone_record ["Age"; "ZIP_Code"] 2
       = Some (Ok (anonymized_df st))
    /\ apply_k_anonymity (anonymized_df st) ["Age"; "ZIP_Code"] 1
       = Some (Ok (anonymized_df st)).
Proof.
  eexists. split; [vm_compute; reflexivity|].
  repeat split; try reflexivity. simpl. lia.
Qed.

(** C9. For a fixed dataset and quasi-identifier set, a larger target [k]
    never ends the search at a lower level. *)
Theorem final_level_monotone (df : DataFrame) (qis : list string)
    (k1 k2 : Z) :
  valid_qis qis = true ->
  age_cuttable df qis = true ->
  k1 <= k2 ->
  exists e1 st1 e2 st2,
    enforce df qis k1 = Some (Ok (e1, st1))
    /\ enforce df qis k2 = Some (Ok (e2, st2))
    /\ gen_level st1 <= gen_level st2.
Proof.
  intros Hq Ha Hk.
  destruct (enforce_spec df qis k1 Hq Ha)
    as [e1 [st1 [Hrun1 [_ [Hlv1 [Hfb1 [Hfail1 [_ Hend1]]]]]]]].
  destruct (enforce_spec df qis k2 Hq Ha)
    as [e2 [st2 [Hrun2 [_ [Hlv2 [Hfb2 [Hfail2 [_ Hend2]]]]]]]].
  exists e1, st1, e2, st2. split; [exact Hrun1|]. split; [exact Hrun2|].
  destruct (Z_le_gt_dec (gen_level st1) (gen_level st2)) as [Hle|Hgt];
    [exact Hle|]. exfalso.
  destruct (Hfail1 (gen_level st2)) as [f [Hf Hc]]; [lia|].
  rewrite Hfb2 in Hf. inversion Hf; subst f.
  destruct e2; destruct Hend2 as [E2 Hc2]; [lia|].
  apply (check_k_anonymity_mono _ _ k1 k2 Hk) in Hc2. congruence.
Qed.

Lemma final_level_monotone_witness :
  exists e1 st1 e2 st2,
    enforce five_ages ["Age"; "ZIP_Code"] 2 = Some (Ok (e1, st1))
    /\ enforce five_ages ["Age"; "ZIP_Code"] 3 = Some (Ok (e2, st2))
    /\ gen_level st1 <= gen_level st2.
Proof.
  apply (final_level_monotone five_ages ["Age"; "ZIP_Code"] 2 3);
    [reflexivity | reflexivity | lia].
Defined.

(** C10. With a non-empty quasi-identifier set, no missing
    quasi-identifier value and [k <= 1], the k-anonymity test holds on the
    input, the loop makes no attempt ([gen_level] stays 0) and
    [apply_k_anonymity] returns the dataset as it came. *)
Theorem k_at_most_one_unchanged (df : DataFrame) (qis : list string)
    (k : Z) :
  valid_qis qis = true ->
  no_missing_qi df qis = true ->
  k <= 1 ->
  check_k_anonymity df qis k = Ok true
  /\ enforce df qis k
     = Some (Ok (ReturnAfterLoop, mkState df df 0 [msg_achieved k]))
  /\ apply_k_anonymity df qis k = Some (Ok df).
Proof.
  intros Hq Hm Hk.
  pose proof (check_no_missing df qis k Hq Hm Hk) as Hc.
  assert (Hrun : enforce df qis k
                 = Some (Ok (ReturnAfterLoop,
                             mkState df df 0 [msg_achieved k]))).
  { unfold enforce. now rewrite while_loop_satisfied. }
  split; [exact Hc|]. split; [exact Hrun|].
  unfold apply_k_anonymity. now rewrite Hrun.
Qed.

Lemma k_at_most_one_unchanged_witness :
  check_k_anonymity five_ages ["Age"; "Gender"; "ZIP_Code"] 1 = Ok true
  /\ enforce five_ages ["Age"; "Gender"; "ZIP_Code"] 1
     = Some (Ok (ReturnAfterLoop,
                 mkState five_ages five_ages 0 [msg_achieved 1]))
  /\ apply_k_anonymity five_ages ["Age"; "Gender"; "ZIP_Code"] 1
     = Some (Ok five_ages).
Proof.
  apply (k_at_most_one_unchanged five_ages ["Age"; "Gender"; "ZIP_Code"] 1);
    [reflexivity | reflexivity | lia].
Defined.

(** ** Which records the classes hold *)

(** The classes have distinct keys and hold, once each, the positions of
    the records whose key has no missing value, and no other position. *)
Lemma classes_hold_complete_keys (df : DataFrame) (qis : list string) :
  valid_qis qis = true ->
  exists cols cls,
    mapM column qis = Ok cols
    /\ get_equivalence_classes df qis = Ok cls
    /\ NoDup (map fst cls)
    /\ NoDup (all_members cls)
    /\ Forall (fun c => snd c <> []) cls
    /\ forall p, In p (all_members cls) <->
                 exists r, nth_error df p = Some r
                           /\ existsb isna (group_key cols r) = false.
Proof.
  intros Hq. destruct (valid_qis_classes qis Hq) as [cols [Hc Hcls]].
  exists cols, (group_rows cols df 0%nat []).
  split; [exact Hc|]. split; [apply Hcls|].
  pose proof (group_rows_members cols df 0%nat []) as P. simpl in P.
  assert (Hin : forall p, In p (kept_positions cols df 0%nat) <->
                  exists r, nth_error df p = Some r
                            /\ existsb isna (group_key cols r) = false).
  { intros p. rewrite kept_positions_In, Nat.sub_0_r.
    split; [intros [_ H]; exact H | intros H; split; [lia | exact H]]. }
  assert (Hnd : forall rows i, NoDup (kept_positions cols rows i)).
  { induction rows as [|r rs IH]; intros i; simpl; [constructor|].
    destruct (existsb isna (group_key cols r)); [apply IH|].
    constructor; [|apply IH].
    rewrite kept_positions_In. intros [Hle _]. lia. }
  split; [apply group_rows_NoDup; constructor|].
  split; [eapply Permutation_NoDup;
          [apply Permutation_sym; exact P | apply Hnd]|].
  split; [apply group_rows_nonempty; constructor|].
  intros p. rewrite <- Hin. split; intros H.
  - eapply Permutation_in; [exact P | exact H].
  - eapply Permutation_in; [apply Permutation_sym; exact P | exact H].
Qed.

(** With no missing quasi-identifier value the classes partition the
    dataset: the members of all classes together are the positions
    [0 .. n-1], each once. *)
Lemma classes_partition_no_missing (df : DataFrame) (qis : list string) :
  valid_qis qis = true ->
  no_missing_qi df qis = true ->
  exists cls,
    get_equivalence_classes df qis = Ok cls
    /\ NoDup (map fst cls)
    /\ Permutation (all_members cls) (seq 0 (List.length df)).
Proof.
  intros Hq Hm. destruct (valid_qis_classes qis Hq) as [cols [Hc Hcls]].
  exists (group_rows cols df 0%nat []).
  split; [apply Hcls|]. split; [apply group_rows_NoDup; constructor|].
  pose proof (group_rows_members cols df 0%nat []) as P. simpl in P.
  rewrite kept_positions_all in P; [exact P|].
  intros r Hr. apply (no_missing_key qis); auto.
  unfold no_missing_qi in Hm. rewrite forallb_forall in Hm. now apply Hm.
Qed.

(** C6 on the code.  The third record of [with_centenarian] is 100 years
    old; the first attempt bins its age to NaN, the classifier then puts it
    in no class, and the k-anonymity test answers true for [k = 2] on a
    frame whose classes cover two of the three records. *)
Theorem centenarian_in_no_class :
  exists frame cls final,
    generalize_attempt with_centenarian ["Age"] 0 = Ok frame
    /\ map Age frame = [VStr "20-29"; VStr "20-29"; VNaN]
    /\ get_equivalence_classes frame ["Age"] = Ok cls
    /\ cls = [([VStr "20-29"], [0; 1]%nat)]
    /\ ~ In 2%nat (all_members cls)
    /\ check_k_anonymity frame ["Age"] 2 = Ok true
    /\ enforce with_centenarian ["Age"] 2 = Some (Ok (ReturnAfterLoop, final))
    /\ anonymized_df final = frame.
Proof.
  eexists. eexists. eexists.
  split; [vm_compute; reflexivity|].
  split; [reflexivity|].
  split; [vm_compute; reflexivity|].
  split; [reflexivity|].
  split; [simpl; intros [H|[H|[]]]; discriminate|].
  split; [reflexivity|].
  split; [vm_compute; reflexivity|].
  reflexivity.
Qed.

(** ** Linkage risk *)

Lemma count_singletons_classes (cls : list eq_class) :
  count_singletons (group_sizes cls) = singleton_classes cls.
Proof.
  unfold count_singletons, singleton_classes, group_sizes.
  induction cls as [|[key ms] rest IH]; simpl; [reflexivity|].
  destruct (Nat.eqb (List.length ms) 1) eqn:E.
  - apply Nat.eqb_eq in E. rewrite E. simpl. simpl in IH. lia.
  - apply Nat.eqb_neq in E.
    destruct (Z.of_nat (List.length ms) =? 1) eqn:E'.
    + apply Z.eqb_eq in E'. lia.
    + exact IH.
Qed.

Lemma singleton_classes_zero (cls : list eq_class) :
  Forall (fun c => snd c <> []) cls ->
  (singleton_classes cls = 0
   <-> Forall (fun c => (2 <= List.length (snd c))%nat) cls).
Proof.
  unfold singleton_classes.
  induction cls as [|[key ms] rest IH]; intros NE; simpl.
  - split; [constructor | reflexivity].
  - inversion NE as [|? ? Hms Hrest]; subst. simpl in Hms.
    destruct (Nat.eqb (List.length ms) 1) eqn:E.
    + apply Nat.eqb_eq in E. split.
      * simpl. lia.
      * intros F. inversion F; subst. simpl in *. lia.
    + apply Nat.eqb_neq in E. rewrite (IH Hrest). split.
      * intros F. constructor; [|exact F]. simpl.
        destruct ms; [congruence|]. simpl in *. lia.
      * intros F. now inversion F.
Qed.

Lemma ratio_bounds (s n : Z) :
  0 <= s <= n -> 0 < n ->
  (0 <= inject_Z s / inject_Z n <= 1)%Q
  /\ ((inject_Z s / inject_Z n == 0)%Q <-> s = 0).
Proof.
  intros [Hs Hsn] Hn.
  destruct n as [|p|p]; try lia.
  unfold Qdiv, Qinv, Qmult, Qle, Qeq, inject_Z. simpl.
  repeat split; try lia.
Qed.

(** C5 on the code.  A record whose quasi-identifier value is missing is
    in no group, so it is never counted as a class of size 1 although it
    shares its values with no other record.  Of three records aged 30, 30
    and 31 the third is counted: the risk is 1/3.  With the third age
    missing instead the risk is 0, and a single record without age has a
    risk of 0, not 1.  The frame the enforcer returns for
    [with_centenarian] and [k = 2] has a risk of 0 although its third
    record, the only one without an age bin, is alone with its values. *)
Theorem missing_value_hides_unique_record :
  (exists risk,
     get_equivalence_classes third_apart ["Age"]
     = Ok [([VInt 30], [0; 1]%nat); ([VInt 31], [2%nat])]
     /\ simulate_linkage_attack third_apart ["Age"] = Ok risk
     /\ (risk == 1 # 3)%Q)
  /\ (exists risk r,
        get_equivalence_classes third_missing ["Age"]
        = Ok [([VInt 30], [0; 1]%nat)]
        /\ simulate_linkage_attack third_missing ["Age"] = Ok risk
        /\ (risk == 0)%Q
        /\ nth_error third_missing 2 = Some r
        /\ companions [Age] third_missing r = 1)
  /\ (exists risk,
        get_equivalence_classes lone_missing ["Age"] = Ok []
        /\ simulate_linkage_attack lone_missing ["Age"] = Ok risk
        /\ (risk == 0)%Q
        /\ Forall (fun r => companions [Age] lone_missing r = 1) lone_missing)
  /\ (exists frame risk r,
        apply_k_anonymity with_centenarian ["Age"] 2 = Some (Ok frame)
        /\ map Age frame = [VStr "20-29"; VStr "20-29"; VNaN]
        /\ get_equivalence_classes frame ["Age"]
           = Ok [([VStr "20-29"], [0; 1]%nat)]
        /\ simulate_linkage_attack frame ["Age"] = Ok risk
        /\ (risk == 0)%Q
        /\ nth_error frame 2 = Some r
        /\ companions [Age] frame r = 1).
Proof.
  split; [|split; [|split]].
  - eexists. split; [reflexivity|].
    split; [vm_compute; reflexivity | reflexivity].
  - eexists. eexists. split; [reflexivity|].
    split; [vm_compute; reflexivity|]. split; [reflexivity|].
    split; reflexivity.
  - eexists. split; [reflexivity|].
    split; [vm_compute; reflexivity|]. split; [reflexivity|].
    repeat constructor.
  - eexists. eexists. eexists.
    split; [vm_compute; reflexivity|]. split; [reflexivity|].
    split; [reflexivity|]. split; [vm_compute; reflexivity|].
    split; [reflexivity|]. split; reflexivity.
Qed.

(** ** l-diversity *)






Lemma failing_groups_from_spec (df : DataFrame) (sensitive_col : string)
    (get : Row -> cell) (l_val : Z) (cls : list eq_class) :
  column sensitive_col = Ok get ->
  forall acc,
    failing_groups_from df sensitive_col l_val cls acc
    = Ok (acc ++ failing_of df get l_val cls).
Proof.
  intros Hget. induction cls as [|c rest IH]; intros acc; simpl.
  - now rewrite app_nil_r.
  - unfold diversity_of. rewrite Hget. simpl bind.
    fold (class_diversity df get (snd c)).
    rewrite IH.
    destruct (class_diversity df get (snd c) <? l_val); simpl.
    + now rewrite <- app_assoc.
    + reflexivity.
Qed.

Lemma failing_of_In (df : DataFrame) (get : Row -> cell) (l_val : Z)
    (cls : list eq_class) (key : list cell) (d : Z) :
  In (key, d) (failing_of df get l_val cls) <->
  exists members, In (key, members) cls
                  /\ d = class_diversity df get members /\ d < l_val.
Proof.
  unfold failing_of. rewrite in_flat_map. split.
  - intros [[k ms] [Hc Hin]]. simpl in Hin.
    destruct (class_diversity df get ms <? l_val) eqn:E; [|contradiction].
    destruct Hin as [Heq|[]]. inversion Heq; subst.
    apply Z.ltb_lt in E. exists ms. auto.
  - intros [ms [Hc [Hd Hl]]]. exists (key, ms). split; [exact Hc|].
    simpl. subst d. rewrite (proj2 (Z.ltb_lt _ _) Hl). now left.
Qed.



(** ** The digest *)

Example sha256_abc :
  SHA256.hex (SHA256.sha256 (SHA256.bytes_of_string "abc"))
  = "ba7816bf8f01cfea414140de5dae2223b00361a396177a9cb410ff61f20015ad".
Proof. vm_compute. reflexivity. Qed.

Example sha256_empty :
  SHA256.hex (SHA256.sha256 [])
  = "e3b0c44298fc1c149afbf4c8996fb92427ae41e4649b934ca495991b7852b855".
Proof. vm_compute. reflexivity. Qed.

(** RFC 4231, test case 2. *)
Example hmac_rfc4231_case2 :
  hmac_hexdigest "Jefe" "what do ya want for nothing?"
  = "5bdcc146bf60754e6a042426089575c75a003f089d2739839dec58b964ec3843".
Proof. vm_compute. reflexivity. Qed.













(** ** Tokenization *)

Lemma column_set_column (id_col : string) (get : Row -> cell) (v : cell)
    (r r' : Row) :
  column id_col = Ok get -> set_column id_col v r = Ok r' -> get r' = v.
Proof.
  unfold column, set_column.
  repeat match goal with
         | |- context [String.eqb id_col ?s] => destruct (String.eqb id_col s)
         end;
    intros H1 H2; inversion H1; inversion H2; subst; try reflexivity.
Qed.

Lemma dict_set_In (k : cell) (v : string) (d : list (cell * string))
    (kv : cell * string) :
  In kv (dict_set k v d) -> kv = (k, v) \/ In kv d.
Proof.
  induction d as [|[k' v'] rest IH]; simpl.
  - intros [H|[]]; auto.
  - destruct (cell_eqb k' k) eqn:E; simpl.
    + apply cell_eqb_eq in E. subst. intros [H|H]; auto.
    + intros [H|H]; auto. destruct (IH H); auto.
Qed.

Lemma dict_of_In (kvs : list (cell * string)) (kv : cell * string) :
  In kv (dict_of kvs) -> In kv kvs.
Proof.
  unfold dict_of.
  assert (G : forall d, In kv (fold_left
                                 (fun d kv => dict_set (fst kv) (snd kv) d)
                                 kvs d) -> In kv d \/ In kv kvs).
  { induction kvs as [|[k v] rest IH]; simpl; intros d H; [auto|].
    destruct (IH _ H) as [H1|H1]; [|auto].
    apply dict_set_In in H1 as [H1|H1]; auto. }
  intros H. destruct (G [] H) as [[]|H']; exact H'.
Qed.

Lemma generate_token_text (id : cell) (t : string) :
  generate_token id = Ok t ->
  exists v, id = VStr v /\ t = hmac_hexdigest HMAC_SECRET_KEY v.
Proof.
  destruct id; simpl; intros H; inversion H. eauto.
Qed.

(** What [tokenize_ids] returns: each identifier replaced by its token,
    and a vault whose entries pair an identifier with its token. *)
Lemma tokenize_ids_tokens (df : DataFrame) (id_col : string)
    (out : DataFrame * list (cell * string)) :
  tokenize_ids df id_col = Ok out ->
  exists get,
    column id_col = Ok get
    /\ Forall2 (fun r r' =>
                  exists v, get r = VStr v
                            /\ get r' = VStr (hmac_hexdigest HMAC_SECRET_KEY v))
               df (fst out)
    /\ (forall id t, In (id, t) (snd out) ->
          exists v, id = VStr v /\ t = hmac_hexdigest HMAC_SECRET_KEY v).
Proof.
  unfold tokenize_ids. intros H.
  destruct (column id_col) as [get|e] eqn:Hget; simpl in H; [|discriminate].
  destruct (mapM (fun r => generate_token (get r)) df) as [tokens|e] eqn:Ht;
    simpl in H; [|discriminate].
  destruct (mapM _ (combine df tokens)) as [frame|e] eqn:Hf;
    simpl in H; [|discriminate].
  inversion H; subst out. simpl. exists get. split; [reflexivity|].
  apply mapM_Forall2 in Ht. apply mapM_Forall2 in Hf. split.
  - clear H. revert frame Hf.
    induction Ht as [|r t rs ts Hr _ IH]; intros frame Hf; simpl in Hf;
      inversion Hf; subst; constructor.
    + apply generate_token_text in Hr as [v [Hv ->]]. exists v.
      split; [exact Hv|]. simpl in *.
      eapply column_set_column; eauto.
    + now apply IH.
  - intros id t Hin. apply dict_of_In in Hin.
    clear H Hf. induction Ht as [|r t' rs ts Hr _ IH]; simpl in Hin;
      [contradiction|].
    destruct Hin as [Hin|Hin]; [|now apply IH].
    inversion Hin; subst. now apply generate_token_text.
Qed.

(** C4, as the code has it.  The key of the tokenizer is the module
    constant [HMAC_SECRET_KEY]; [tokenize_ids] takes the dataset and the
    name of the identifier column and nothing else, and every token it
    produces is the HMAC-SHA256 of the identifier under that constant. *)
Theorem tokenize_ids_uses_module_key (df : DataFrame) (id_col : string)
    (out : DataFrame * list (cell * string)) :
  tokenize_ids df id_col = Ok out ->
  exists get,
    column id_col = Ok get
    /\ Forall2 (fun r r' =>
                  exists v,
                    get r = VStr v
                    /\ get r'
                       = VStr (hmac_hexdigest
                                 "bcse318l-secret-key-for-reproducible-tokenization"
                                 v))
               df (fst out)
    /\ (forall id t, In (id, t) (snd out) ->
          exists v,
            id = VStr v
            /\ t = hmac_hexdigest
                     "bcse318l-secret-key-for-reproducible-tokenization" v).
Proof. exact (tokenize_ids_tokens df id_col out). Qed.

Lemma tokenize_ids_uses_module_key_witness :
  exists get,
    column "Patient_ID" = Ok get
    /\ Forall2 (fun r r' =>
                  exists v,
                    get r = VStr v
                    /\ get r'
                       = VStr (hmac_hexdigest
                                 "bcse318l-secret-key-for-reproducible-tokenization"
                                 v))
               lone_record (fst lone_record_tokenized)
    /\ (forall id t, In (id, t) (snd lone_record_tokenized) ->
          exists v,
            id = VStr v
            /\ t = hmac_hexdigest
                     "bcse318l-secret-key-for-reproducible-tokenization" v).
Proof.
  apply (tokenize_ids_uses_module_key lone_record "Patient_ID").
  vm_compute. reflexivity.
Defined.

(** C4, as the specification has it, fails: the key is the text compiled
    into the module, and no two calls of [tokenize_ids], whatever dataset
    and column name the caller passes, give one identifier two tokens,
    although HMAC under another key does give another token. *)
Lemma no_caller_supplied_key :
  HMAC_SECRET_KEY = "bcse318l-secret-key-for-reproducible-tokenization"
  /\ tokenize_ids lone_record "Patient_ID" = Ok lone_record_tokenized
  /\ hmac_hexdigest HMAC_SECRET_KEY "P001" = lone_token
  /\ hmac_hexdigest "other-key" "P001" <> lone_token
  /\ ~ (exists (df1 df2 : DataFrame) (c1 c2 : string)
               (out1 out2 : DataFrame * list (cell * string))
               (id : cell) (t1 t2 : string),
          tokenize_ids df1 c1 = Ok out1
          /\ tokenize_ids df2 c2 = Ok out2
          /\ In (id, t1) (snd out1)
          /\ In (id, t2) (snd out2)
          /\ t1 <> t2).
Proof.
  split; [reflexivity|].
  split; [vm_compute; reflexivity|].
  split; [vm_compute; reflexivity|].
  split; [vm_compute; discriminate|].
  intros [df1 [df2 [c1 [c2 [out1 [out2 [id [t1 [t2 [H1 [H2 [I1 [I2 N]]]]]]]]]]]]].
  destruct (tokenize_ids_tokens _ _ _ H1) as [_ [_ [_ T1]]].
  destruct (tokenize_ids_tokens _ _ _ H2) as [_ [_ [_ T2]]].
  destruct (T1 _ _ I1) as [v1 [E1 ->]].
  destruct (T2 _ _ I2) as [v2 [E2 ->]].
  apply N. congruence.
Qed.


(** ** The certainty penalty *)





Lemma ratio_nonneg (w t : Z) :
  0 <= w -> 0 < t -> (0 <= inject_Z w / inject_Z t)%Q.
Proof.
  intros Hw Ht. destruct t as [|p|p]; try lia.
  unfold Qdiv, Qinv, Qmult, Qle, inject_Z. simpl. lia.
Qed.

Lemma nansum_nonneg (l : list (option Q)) :
  Forall (fun o => match o with Some q => (0 <= q)%Q | None => True end) l ->
  (0 <= nansum l)%Q.
Proof.
  induction 1 as [|o t Ho _ IH]; simpl; [apply Qle_refl|].
  destruct o as [q|]; [|exact IH].
  apply (Qplus_le_compat 0 q 0 (nansum t)); assumption.
Qed.


Lemma count_char_nonneg (c : ascii) (s : string) : 0 <= count_char c s.
Proof.
  induction s as [|x s IH]; simpl; [lia|]. destruct (Ascii.eqb x c); lia.
Qed.


Lemma zip_ncp_nonneg (col : list cell) : (0 <= zip_ncp col)%Q.
Proof.
  unfold zip_ncp. apply nansum_nonneg. apply Forall_map.
  apply Forall_forall. intros c _.
  pose proof (count_char_nonneg "*"%char (astype_str c)) as H.
  change 5%Q with (inject_Z 5). apply ratio_nonneg; lia.
Qed.









Lemma total_ncp_from_fold (dtypes : string -> dtype)
    (original_df anonymized_df : DataFrame)
    (qis : list string) (xs : list Q) :
  mapM (qi_ncp dtypes original_df anonymized_df) qis = Ok xs ->
  forall acc,
    total_ncp_from dtypes original_df anonymized_df qis acc
    = Ok (fold_left Qplus xs acc).
Proof.
  revert xs. induction qis as [|q rest IH]; intros xs H acc; simpl in *.
  - inversion H. reflexivity.
  - destruct (qi_ncp dtypes original_df anonymized_df q) as [x|e]; simpl in *;
      [|discriminate].
    destruct (mapM _ rest) as [ys|e]; simpl in *; [|discriminate].
    inversion H; subst. simpl. now apply IH.
Qed.


Lemma fold_Qplus_zero (xs : list Q) (acc : Q) :
  (acc == 0)%Q -> Forall (fun x => (x == 0)%Q) xs ->
  (fold_left Qplus xs acc == 0)%Q.
Proof.
  intros Ha H. revert acc Ha. induction H as [|x t Hx _ IH]; intros acc Ha;
    simpl; [exact Ha|].
  apply IH. rewrite Ha, Hx. reflexivity.
Qed.

(** A turn of the loop returns, unless it reads the parts of an
    anonymized column without cells. *)
Lemma qi_ncp_total (dtypes : string -> dtype)
    (original_df anonymized_df : DataFrame) (qi : string) :
  is_column qi = true ->
  anonymized_df <> []
  \/ is_numeric_dtype (dtypes qi) && String.eqb qi "Age" = false ->
  exists x, qi_ncp dtypes original_df anonymized_df qi = Ok x.
Proof.
  intros H Hor. apply is_column_ok in H as [get Hget].
  unfold qi_ncp. rewrite Hget. simpl.
  destruct (is_numeric_dtype (dtypes qi) && String.eqb qi "Age").
  - destruct Hor as [Hne|]; [|discriminate].
    destruct anonymized_df; [congruence|].
    destruct (range_of _ _ _) as [[|p|p]|]; eauto.
  - destruct (String.eqb qi "ZIP_Code"); eauto.
Qed.












(* ================================================================== *)
(** * Further properties of the code *)

(** ** Texts *)

Lemma string_app_length (a b : string) :
  String.length (a ++ b)%string = (String.length a + String.length b)%nat.
Proof. induction a as [|c a IH]; simpl; [reflexivity | now rewrite IH]. Qed.

Lemma str_take_length (n : nat) (s : string) :
  String.length (str_take n s) = Nat.min n (String.length s).
Proof.
  revert s. induction n as [|n IH]; intros [|c s]; simpl; try reflexivity.
  now rewrite IH.
Qed.

Lemma repeat_char_length (c : ascii) (n : nat) :
  String.length (repeat_char c n) = n.
Proof. induction n as [|n IH]; simpl; [reflexivity | now rewrite IH]. Qed.

Lemma count_char_app (c : ascii) (a b : string) :
  count_char c (a ++ b)%string = count_char c a + count_char c b.
Proof. induction a as [|x a IH]; simpl; [reflexivity | rewrite IH; lia]. Qed.

Lemma count_char_repeat (c : ascii) (n : nat) :
  count_char c (repeat_char c n) = Z.of_nat n.
Proof.
  induction n as [|n IH]; [reflexivity|].
  cbn [repeat_char count_char]. rewrite Ascii.eqb_refl, IH. lia.
Qed.

Lemma str_slice0_nonneg (p : Z) (s : string) :
  0 <= p -> str_slice0 p s = str_take (Z.to_nat p) s.
Proof.
  intros H. unfold str_slice0.
  destruct (p <? 0) eqn:E; [apply Z.ltb_lt in E; lia | reflexivity].
Qed.

Lemma mask_text_shape (p : Z) (s : string) :
  0 <= p <= 5 ->
  mask_text p s
  = (str_take (Z.to_nat p) s
     ++ repeat_char "*"%char
          (5 - String.length (str_take (Z.to_nat p) s)))%string
  /\ String.length (mask_text p s) = 5%nat
  /\ 5 - p <= count_char "*"%char (mask_text p s).
Proof.
  intros Hp. unfold mask_text, str_pad_right. rewrite str_slice0_nonneg by lia.
  set (t := str_take (Z.to_nat p) s).
  assert (Ht : (String.length t <= Z.to_nat p)%nat)
    by (subst t; rewrite str_take_length; lia).
  assert (E : Z.to_nat (5 - str_len t) = (5 - String.length t)%nat)
    by (unfold str_len; lia).
  rewrite E. split; [reflexivity|]. split.
  - rewrite string_app_length, repeat_char_length. lia.
  - rewrite count_char_app, count_char_repeat.
    pose proof (count_char_nonneg "*"%char t). lia.
Qed.

Lemma mask_text_compose (p q : Z) (s : string) :
  0 <= p <= 5 -> 0 <= q <= 5 ->
  mask_text q (mask_text p s) = mask_text (Z.min p q) s.
Proof.
  intros Hp Hq.
  assert (Ep : p = 0 \/ p = 1 \/ p = 2 \/ p = 3 \/ p = 4 \/ p = 5) by lia.
  assert (Eq : q = 0 \/ q = 1 \/ q = 2 \/ q = 3 \/ q = 4 \/ q = 5) by lia.
  destruct s as [|c1 [|c2 [|c3 [|c4 [|c5 s]]]]];
    repeat (destruct Ep as [Ep|Ep]); subst p;
    repeat (destruct Eq as [Eq|Eq]); subst q; reflexivity.
Qed.

(** ** The generalization functions *)

Lemma column_cases (q : string) (get : Row -> cell) :
  column q = Ok get ->
  (q = "Patient_ID" /\ get = Patient_ID) \/ (q = "Name" /\ get = Name)
  \/ (q = "Age" /\ get = Age) \/ (q = "Gender" /\ get = Gender)
  \/ (q = "ZIP_Code" /\ get = ZIP_Code)
  \/ (q = "Diagnosis" /\ get = Diagnosis).
Proof.
  unfold column.
  repeat match goal with
         | |- context [String.eqb q ?s] =>
             let E := fresh "E" in
             destruct (String.eqb q s) eqn:E;
             [apply String.eqb_eq in E; intros H; inversion H; subst; tauto|]
         end.
  discriminate.
Qed.

Lemma same_but_set_ZIP_Code (v : cell) (r : Row) :
  same_but "ZIP_Code" r (set_ZIP_Code v r).
Proof.
  intros q get Hq Hne.
  destruct (column_cases q get Hq)
    as [[-> ->]|[[-> ->]|[[-> ->]|[[-> ->]|[[-> ->]|[-> ->]]]]]];
    try reflexivity; congruence.
Qed.

Lemma same_but_set_Age (v : cell) (r : Row) : same_but "Age" r (set_Age v r).
Proof.
  intros q get Hq Hne.
  destruct (column_cases q get Hq)
    as [[-> ->]|[[-> ->]|[[-> ->]|[[-> ->]|[[-> ->]|[-> ->]]]]]];
    try reflexivity; congruence.
Qed.

(** [generalize_zip] at a precision from 0 to 5 keeps the number and the
    order of the records and every column but [ZIP_Code]; each postal code
    becomes a text of exactly five characters: the first [precision]
    characters of the code (all of it when it is shorter), then mask
    characters only, at least [5 - precision] of them. *)
Theorem generalize_zip_shape (df : DataFrame) (precision : Z) :
  0 <= precision <= 5 ->
  List.length (generalize_zip df precision) = List.length df
  /\ Forall2
       (fun r r' =>
          same_but "ZIP_Code" r r'
          /\ exists t,
               ZIP_Code r' = VStr t
               /\ String.length t = 5%nat
               /\ t = (str_take (Z.to_nat precision) (astype_str (ZIP_Code r))
                       ++ repeat_char "*"%char
                            (5 - String.length
                                   (str_take (Z.to_nat precision)
                                             (astype_str (ZIP_Code r)))))%string
               /\ 5 - precision <= count_char "*"%char t)
       df (generalize_zip df precision).
Proof.
  intros Hp. split; [unfold generalize_zip; apply length_map|].
  eapply Forall2_impl; [|apply generalize_zip_rows].
  intros r r' ->. split; [apply same_but_set_ZIP_Code|].
  destruct (mask_text_shape precision (astype_str (ZIP_Code r)) Hp)
    as [H1 [H2 H3]].
  exists (mask_text precision (astype_str (ZIP_Code r))).
  repeat split; auto.
Qed.

Lemma generalize_zip_shape_witness :
  List.length (generalize_zip five_ages 3) = List.length five_ages
  /\ Forall2
       (fun r r' =>
          same_but "ZIP_Code" r r'
          /\ exists t,
               ZIP_Code r' = VStr t
               /\ String.length t = 5%nat
               /\ t = (str_take (Z.to_nat 3) (astype_str (ZIP_Code r))
                       ++ repeat_char "*"%char
                            (5 - String.length
                                   (str_take (Z.to_nat 3)
                                             (astype_str (ZIP_Code r)))))%string
               /\ 5 - 3 <= count_char "*"%char t)
       five_ages (generalize_zip five_ages 3).
Proof. apply (generalize_zip_shape five_ages 3). lia. Defined.

(** Masking twice is masking once at the lower precision; in particular
    [generalize_zip] is idempotent at every precision from 0 to 5. *)
Theorem generalize_zip_compose (df : DataFrame) (p q : Z) :
  0 <= p <= 5 -> 0 <= q <= 5 ->
  generalize_zip (generalize_zip df p) q = generalize_zip df (Z.min p q).
Proof.
  intros Hp Hq. unfold generalize_zip. rewrite map_map. apply map_ext.
  intros r. unfold set_ZIP_Code, mask_zip. simpl.
  fold (mask_text p (astype_str (ZIP_Code r))).
  fold (mask_text q (mask_text p (astype_str (ZIP_Code r)))).
  rewrite mask_text_compose by assumption. reflexivity.
Qed.

Lemma generalize_zip_compose_witness :
  generalize_zip (generalize_zip five_ages 2) 4
  = generalize_zip five_ages (Z.min 2 4).
Proof. apply (generalize_zip_compose five_ages 2 4); lia. Defined.

Lemma cut_cell_not_text (bins : list Z) (labels : list string) (c : cell) :
  match c with VStr _ => false | _ => true end = true ->
  cut_cell bins labels c = Ok (cut_value bins labels c).
Proof. destruct c; [reflexivity | discriminate | reflexivity]. Qed.

Lemma generalize_age_cases (df : DataFrame) (bins : list Z)
    (labels : list string) :
  (forallb age_not_text df = true ->
   generalize_age df bins labels
   = Ok (map (fun r => set_Age (cut_value bins labels (Age r)) r) df))
  /\ (forallb age_not_text df = false ->
      generalize_age df bins labels = Raise TypeError)
  /\ (forall frame, generalize_age df bins labels = Ok frame ->
        List.length frame = List.length df
        /\ Forall2 (same_but "Age") df frame).
Proof.
  unfold generalize_age.
  induction df as [|r df [IH1 [IH2 IH3]]]; simpl.
  - split; [reflexivity|]. split; [discriminate|].
    intros frame H. inversion H. split; [reflexivity | constructor].
  - assert (N : age_not_text r = match Age r with
                                  | VStr _ => false
                                  | _ => true
                                  end) by reflexivity.
    rewrite N. clear N.
    assert (S : forall c, same_but "Age" r (set_Age c r))
      by (intros c; apply same_but_set_Age).
    destruct (Age r) as [v| |]; simpl.
    + split; [intros H; rewrite (IH1 H); reflexivity|].
      split; [intros H; rewrite (IH2 H); reflexivity|].
      intros frame H.
      destruct (mapM _ df) as [fr|e]; simpl in H; [|discriminate].
      inversion H; subst. destruct (IH3 fr eq_refl) as [L F].
      split; [simpl; now rewrite L|].
      constructor; [apply S | exact F].
    + split; [discriminate|]. split; [reflexivity | discriminate].
    + split; [intros H; rewrite (IH1 H); reflexivity|].
      split; [intros H; rewrite (IH2 H); reflexivity|].
      intros frame H.
      destruct (mapM _ df) as [fr|e]; simpl in H; [|discriminate].
      inversion H; subst. destruct (IH3 fr eq_refl) as [L F].
      split; [simpl; now rewrite L|].
      constructor; [apply S | exact F].
Qed.

Lemma increasing_head_le (b : Z) (t : list Z) (i : nat) (x : Z) :
  increasing (b :: t) = true -> nth_error (b :: t) i = Some x -> b <= x.
Proof.
  revert b t x. induction i as [|i IH]; intros b t x Hinc Hn.
  - inversion Hn. lia.
  - destruct t as [|b' t]; [destruct i; discriminate|].
    simpl in Hinc. apply andb_true_iff in Hinc as [Hlt Hinc].
    apply Z.ltb_lt in Hlt. simpl in Hn.
    specialize (IH b' t x Hinc Hn). lia.
Qed.

Lemma cut_bins_in_bin (bins : list Z) (labels : list string) (v : Z)
    (i : nat) (lo hi : Z) (label : string) :
  increasing bins = true ->
  nth_error bins i = Some lo -> nth_error bins (S i) = Some hi ->
  nth_error labels i = Some label ->
  lo <= v < hi ->
  cut_bins bins labels v = VStr label.
Proof.
  revert bins labels. induction i as [|i IH];
    intros bins labels Hinc Hlo Hhi Hlab Hv.
  - destruct bins as [|b0 [|b1 bins]]; try discriminate.
    destruct labels as [|l0 labels]; try discriminate.
    inversion Hlo; inversion Hhi; inversion Hlab; subst. simpl.
    destruct (Z.leb_spec lo v); [|lia]. destruct (Z.ltb_spec v hi); [|lia].
    reflexivity.
  - destruct bins as [|b0 [|b1 bins]]; try discriminate.
    destruct labels as [|l0 labels]; try discriminate.
    pose proof Hinc as Hinc'. simpl in Hinc'.
    apply andb_true_iff in Hinc' as [_ Hinc'].
    pose proof (increasing_head_le b1 bins i lo Hinc' Hlo) as Hle.
    cbn [cut_bins].
    destruct (Z.ltb_spec v b1); [lia|]. rewrite andb_false_r.
    exact (IH (b1 :: bins) labels Hinc' Hlo Hhi Hlab Hv).
Qed.

Lemma cut_bins_in_no_bin (bins : list Z) (labels : list string) (v : Z) :
  (forall i lo hi, nth_error bins i = Some lo ->
                   nth_error bins (S i) = Some hi -> ~ lo <= v < hi) ->
  cut_bins bins labels v = VNaN.
Proof.
  revert labels. induction bins as [|b0 bins IH]; intros labels H;
    [reflexivity|].
  destruct bins as [|b1 bins]; [reflexivity|].
  destruct labels as [|l0 labels]; [reflexivity|].
  cbn [cut_bins].
  pose proof (H 0%nat b0 b1 eq_refl eq_refl) as H0.
  destruct (Z.leb_spec b0 v); destruct (Z.ltb_spec v b1); simpl; try lia;
    apply IH; intros i lo hi Hlo Hhi; exact (H (S i) lo hi Hlo Hhi).
Qed.

(** [generalize_age] with bins and labels that [pd.cut] accepts.  It
    returns a frame when no age is a text and raises [TypeError]
    otherwise.  The frame has the records of the input in their order,
    every column but [Age] as it was; an integer age has become the label
    of the bin [[lo, hi)] that holds it, or NaN when no bin holds it, and
    a missing age stays missing. *)
Theorem generalize_age_result (df : DataFrame) (bins : list Z)
    (labels : list string) :
  binning_ok bins labels = true ->
  (forallb age_not_text df = true ->
   generalize_age df bins labels
   = Ok (map (fun r => set_Age (cut_value bins labels (Age r)) r) df))
  /\ (forallb age_not_text df = false ->
      generalize_age df bins labels = Raise TypeError)
  /\ (forall frame, generalize_age df bins labels = Ok frame ->
        List.length frame = List.length df
        /\ Forall2 (same_but "Age") df frame)
  /\ (forall v i lo hi label,
        nth_error bins i = Some lo -> nth_error bins (S i) = Some hi ->
        nth_error labels i = Some label ->
        lo <= v < hi ->
        cut_value bins labels (VInt v) = VStr label)
  /\ (forall v,
        (forall i lo hi, nth_error bins i = Some lo ->
                         nth_error bins (S i) = Some hi -> ~ lo <= v < hi) ->
        cut_value bins labels (VInt v) = VNaN)
  /\ cut_value bins labels VNaN = VNaN.
Proof.
  intros Hok. unfold binning_ok in Hok.
  apply andb_true_iff in Hok as [Hok _].
  apply andb_true_iff in Hok as [Hok _].
  apply andb_true_iff in Hok as [Hok _].
  apply andb_true_iff in Hok as [_ Hinc].
  destruct (generalize_age_cases df bins labels) as [H1 [H2 H3]].
  split; [exact H1|]. split; [exact H2|]. split; [exact H3|].
  split; [|split; [|reflexivity]].
  - intros v i lo hi label Hlo Hhi Hlab Hv.
    exact (cut_bins_in_bin bins labels v i lo hi label Hinc Hlo Hhi Hlab Hv).
  - intros v H. exact (cut_bins_in_no_bin bins labels v H).
Qed.

Lemma generalize_age_result_witness :
  (forallb age_not_text five_ages = true ->
   generalize_age five_ages [0; 50; 100] ["0-49"; "50-99"]
   = Ok (map (fun r => set_Age (cut_value [0; 50; 100] ["0-49"; "50-99"]
                                          (Age r)) r) five_ages))
  /\ (forallb age_not_text five_ages = false ->
      generalize_age five_ages [0; 50; 100] ["0-49"; "50-99"]
      = Raise TypeError)
  /\ (forall frame,
        generalize_age five_ages [0; 50; 100] ["0-49"; "50-99"] = Ok frame ->
        List.length frame = List.length five_ages
        /\ Forall2 (same_but "Age") five_ages frame)
  /\ (forall v i lo hi label,
        nth_error [0; 50; 100] i = Some lo ->
        nth_error [0; 50; 100] (S i) = Some hi ->
        nth_error ["0-49"; "50-99"] i = Some label ->
        lo <= v < hi ->
        cut_value [0; 50; 100] ["0-49"; "50-99"] (VInt v) = VStr label)
  /\ (forall v,
        (forall i lo hi, nth_error [0; 50; 100] i = Some lo ->
                         nth_error [0; 50; 100] (S i) = Some hi ->
                         ~ lo <= v < hi) ->
        cut_value [0; 50; 100] ["0-49"; "50-99"] (VInt v) = VNaN)
  /\ cut_value [0; 50; 100] ["0-49"; "50-99"] VNaN = VNaN.
Proof.
  apply (generalize_age_result five_ages [0; 50; 100] ["0-49"; "50-99"]).
  reflexivity.
Defined.

(** ** The hierarchies of the enforcer *)

Lemma age_label_ok_spec (bins : list Z) (labels : list string) (v : Z) :
  age_label_ok bins labels v = true ->
  exists label lo hi,
    cut_bins bins labels v = VStr label
    /\ label_interval label = Some (lo, hi)
    /\ lo <= v <= hi
    /\ generalized_range (VStr label) = Some (hi - lo).
Proof.
  unfold age_label_ok.
  destruct (cut_bins bins labels v) as [|label|]; try discriminate.
  destruct (label_interval label) as [[lo hi]|] eqn:Ei; try discriminate.
  destruct (generalized_range (VStr label)) as [w|] eqn:Ew; try discriminate.
  intros H. apply andb_true_iff in H as [H Hw].
  apply andb_true_iff in H as [H1 H2].
  apply Z.leb_le in H1. apply Z.leb_le in H2. apply Z.eqb_eq in Hw. subst w.
  exists label, lo, hi.
  split; [reflexivity|]. split; [exact Ei|]. split; [lia | exact Ew].
Qed.

Lemma below_hundred (v : Z) :
  0 <= v < 100 -> In v (map Z.of_nat (seq 0 100)).
Proof.
  intros H. apply in_map_iff. exists (Z.to_nat v).
  split; [lia | apply in_seq; lia].
Qed.

Ltac settle_bins v :=
  cbn [cut_bins];
  repeat match goal with
         | |- context [(?a <=? v) && (v <? ?b)] =>
             let E := fresh "E" in
             destruct ((a <=? v) && (v <? b)) eqn:E;
             [apply andb_true_iff in E as [? ?]|
              apply andb_false_iff in E]
         end;
  repeat match goal with
         | H : (_ <=? _) = true |- _ => apply Z.leb_le in H
         | H : (_ <? _) = true |- _ => apply Z.ltb_lt in H
         | H : (_ <=? _) = false \/ (_ <? _) = false |- _ =>
             rewrite Z.leb_gt, Z.ltb_ge in H
         end.

(** Every rung of the age hierarchy gives an age from 0 to 99 a label
    whose two ends, read back the way [compute_ncp] reads them, enclose the
    age, and [compute_ncp] takes their difference as the width; an age
    below 0 or from 100 on gets no label but NaN. *)
Theorem age_labels_hold_ages :
  Forall
    (fun gen : list Z * list string =>
       forall v : Z,
         (0 <= v < 100 ->
          exists label lo hi,
            cut_bins (fst gen) (snd gen) v = VStr label
            /\ label_interval label = Some (lo, hi)
            /\ lo <= v <= hi
            /\ generalized_range (VStr label) = Some (hi - lo))
         /\ (v < 0 \/ 100 <= v -> cut_bins (fst gen) (snd gen) v = VNaN))
    age_generalizations.
Proof.
  assert (G : forallb (fun gen : list Z * list string =>
                         forallb (age_label_ok (fst gen) (snd gen))
                                 (map Z.of_nat (seq 0 100)))
                      age_generalizations = true) by (vm_compute; reflexivity).
  rewrite forallb_forall in G.
  apply Forall_forall. intros gen Hin v. split.
  - intros Hv. apply age_label_ok_spec.
    specialize (G gen Hin). rewrite forallb_forall in G.
    apply G. now apply below_hundred.
  - intros Hv. unfold age_generalizations in Hin. simpl in Hin.
    destruct Hin as [<-|[<-|[<-|[<-|[]]]]]; cbn [fst snd];
      settle_bins v; try reflexivity; lia.
Qed.

(** Both hierarchies and merging.  Two postal codes with the same mask at
    one precision have the same mask at every lower precision, and two ages
    with the same bin at rung 1 have the same bin at rung 2, and likewise
    from rung 2 to rung 3: classes only merge along these steps.  The
    decade bins of rung 0 are not refined by the quartile bins of rung 1:
    24 and 25 share a decade and are parted at rung 1. *)
Theorem hierarchies_coarsen :
  (forall (p q : Z) (a b : cell),
     0 <= q <= p -> p <= 5 ->
     mask_zip p a = mask_zip p b -> mask_zip q a = mask_zip q b)
  /\ (forall a b : Z, age_at 1 a = age_at 1 b -> age_at 2 a = age_at 2 b)
  /\ (forall a b : Z, age_at 2 a = age_at 2 b -> age_at 3 a = age_at 3 b)
  /\ (age_at 0 24 = age_at 0 25 /\ age_at 1 24 <> age_at 1 25).
Proof.
  split; [|split; [|split]].
  - intros p q a b Hq Hp H. unfold mask_zip in *.
    fold (mask_text p (astype_str a)) in H.
    fold (mask_text p (astype_str b)) in H.
    fold (mask_text q (astype_str a)). fold (mask_text q (astype_str b)).
    inversion H as [E].
    replace q with (Z.min p q) by lia.
    rewrite <- !mask_text_compose by lia. now rewrite E.
  - intros a b. cbv [age_at age_generalizations nth fst snd].
    settle_bins a; settle_bins b; intros Hsame;
      first [reflexivity | discriminate Hsame | exfalso; lia].
  - intros a b. cbv [age_at age_generalizations nth fst snd].
    settle_bins a; settle_bins b; intros Hsame;
      first [reflexivity | discriminate Hsame | exfalso; lia].
  - split; [reflexivity | discriminate].
Qed.

(** ** The classes, record by record *)

Lemma key_eqb_sym (a b : list cell) : key_eqb a b = key_eqb b a.
Proof.
  destruct (key_eqb a b) eqn:E1; destruct (key_eqb b a) eqn:E2; auto.
  - apply key_eqb_eq in E1. subst. now rewrite key_eqb_refl in E2.
  - apply key_eqb_eq in E2. subst. now rewrite key_eqb_refl in E1.
Qed.

Lemma class_size_add_member (key' key : list cell) (i : nat)
    (cls : list eq_class) :
  class_size key' (add_member key i cls)
  = (class_size key' cls + if key_eqb key key' then 1 else 0)%nat.
Proof.
  unfold class_size.
  induction cls as [|[k ms] rest IH]; simpl.
  - destruct (key_eqb key key'); reflexivity.
  - destruct (key_eqb k key) eqn:E; simpl.
    + apply key_eqb_eq in E. subst k.
      destruct (key_eqb key key'); simpl; [|lia].
      rewrite length_app. simpl. lia.
    + destruct (key_eqb k key') eqn:E'; simpl; [|exact IH].
      apply key_eqb_eq in E'. subst k. rewrite key_eqb_sym, E. lia.
Qed.

Lemma class_size_group_rows (cols : list (Row -> cell)) (key : list cell)
    (rows : list Row) : forall (i : nat) (acc : list eq_class),
  class_size key (group_rows cols rows i acc)
  = (class_size key acc
     + List.length (filter (fun r => complete cols r
                                     && key_eqb (group_key cols r) key)
                           rows))%nat.
Proof.
  induction rows as [|r rs IH]; intros i acc; simpl; [lia|].
  rewrite IH. unfold complete at 2.
  destruct (existsb isna (group_key cols r)); simpl; [reflexivity|].
  rewrite class_size_add_member.
  destruct (key_eqb (group_key cols r) key); simpl; lia.
Qed.

Lemma class_size_In (cls : list eq_class) (k : list cell) (ms : list nat) :
  NoDup (map fst cls) -> In (k, ms) cls ->
  class_size k cls = List.length ms.
Proof.
  unfold class_size.
  induction cls as [|[k0 ms0] rest IH]; simpl; intros ND Hin; [contradiction|].
  inversion ND as [|? ? Hnot ND']; subst.
  destruct Hin as [Heq|Hin].
  - inversion Heq; subst. now rewrite key_eqb_refl.
  - destruct (key_eqb k0 k) eqn:E.
    + apply key_eqb_eq in E. subst k0. exfalso. apply Hnot.
      apply in_map_iff. now exists (k, ms).
    + now apply IH.
Qed.

Lemma group_rows_keys (cols : list (Row -> cell)) (k : list cell)
    (rows : list Row) : forall (i : nat) (acc : list eq_class),
  In k (map fst (group_rows cols rows i acc)) <->
  In k (map fst acc)
  \/ exists r, In r rows /\ complete cols r = true /\ group_key cols r = k.
Proof.
  induction rows as [|r rs IH]; intros i acc; simpl.
  - split; [auto | intros [H|[r [[] _]]]; exact H].
  - rewrite IH. unfold complete.
    destruct (existsb isna (group_key cols r)) eqn:E; simpl.
    + split.
      * intros [H|[r' [H1 H2]]]; [auto|]. right. exists r'. auto.
      * intros [H|[r' [[H1|H1] [H2 H3]]]]; [auto | |].
        -- subst r'. unfold complete in H2. rewrite E in H2. discriminate.
        -- right. exists r'. auto.
    + rewrite add_member_keys. split.
      * intros [[H|H]|[r' [H1 H2]]]; [| auto |].
        -- right. exists r. unfold complete. rewrite E. auto.
        -- right. exists r'. auto.
      * intros [H|[r' [[H1|H1] [H2 H3]]]]; [auto | |].
        -- subst r'. left. left. now symmetry.
        -- right. exists r'. auto.
Qed.

Lemma same_key_complete (cols : list (Row -> cell)) (df : DataFrame)
    (r : Row) :
  complete cols r = true ->
  Z.of_nat (List.length
              (filter (fun r' => complete cols r'
                                 && key_eqb (group_key cols r')
                                            (group_key cols r)) df))
  = companions cols df r.
Proof.
  intros Hc. unfold companions. do 2 f_equal. apply filter_ext.
  intros r'. destruct (key_eqb (group_key cols r') (group_key cols r)) eqn:E;
    [|apply andb_false_r].
  apply key_eqb_eq in E. unfold complete in *. rewrite E, Hc. reflexivity.
Qed.

(** The class of a key holds as many members as the dataset has records
    with that key, and the keys of the classes are those of the records
    without a missing quasi-identifier value. *)
Lemma classes_count_records (cols : list (Row -> cell)) (df : DataFrame) :
  let cls := group_rows cols df 0%nat [] in
  (forall k, In k (map fst cls) <->
             exists r, In r df /\ complete cols r = true
                       /\ group_key cols r = k)
  /\ (forall r ms, In r df -> complete cols r = true ->
                   In (group_key cols r, ms) cls ->
                   Z.of_nat (List.length ms) = companions cols df r).
Proof.
  intros cls. split.
  - intros k. unfold cls. rewrite group_rows_keys. simpl.
    split; [intros [[]|H]; exact H | auto].
  - intros r ms Hin Hc Hcls.
    rewrite <- (class_size_In cls _ _
                  (group_rows_NoDup cols df 0%nat [] (NoDup_nil _)) Hcls).
    unfold cls. rewrite class_size_group_rows.
    rewrite <- (same_key_complete cols df r Hc). reflexivity.
Qed.

(** [check_k_anonymity] on a non-empty dataset, in terms of records: it
    answers True exactly when some record has no missing
    quasi-identifier value and every such record shares its
    quasi-identifier values with at least [k] records, itself included.
    A record that misses a value is not looked at. *)
Theorem check_k_anonymity_records (df : DataFrame) (qis : list string)
    (k : Z) :
  valid_qis qis = true ->
  df <> [] ->
  exists cols b,
    mapM column qis = Ok cols
    /\ check_k_anonymity df qis k = Ok b
    /\ (b = true <->
        (exists r, In r df /\ complete cols r = true)
        /\ forall r, In r df -> complete cols r = true ->
                     k <= companions cols df r).
Proof.
  intros Hq Hne. destruct (valid_qis_classes qis Hq) as [cols [Hc Hcls]].
  set (cls := group_rows cols df 0%nat []).
  exists cols, (ge_nan (series_min (group_sizes cls)) k).
  split; [exact Hc|]. split.
  { unfold check_k_anonymity. destruct df as [|r0 rest]; [congruence|].
    rewrite Hcls. reflexivity. }
  destruct (classes_count_records cols df) as [Hkeys Hsize].
  fold cls in Hkeys, Hsize.
  split.
  - intros Hge.
    destruct (series_min (group_sizes cls)) as [m|] eqn:Em; [|discriminate].
    simpl in Hge. apply Z.leb_le in Hge.
    pose proof (series_min_lower _ _ Em) as Hlow.
    split.
    + destruct cls as [|[k0 ms0] cs] eqn:Ecls; [discriminate|].
      destruct (proj1 (Hkeys k0) (or_introl eq_refl)) as [r [H1 [H2 _]]].
      exists r. auto.
    + intros r Hin Hcomp.
      assert (Hk : In (group_key cols r) (map fst cls))
        by (apply Hkeys; exists r; auto).
      apply in_map_iff in Hk as [[k0 ms] [E Hc0]]. simpl in E. subst k0.
      rewrite <- (Hsize r ms Hin Hcomp Hc0).
      unfold group_sizes in Hlow. rewrite Forall_map, Forall_forall in Hlow.
      specialize (Hlow _ Hc0). simpl in Hlow. lia.
  - intros [[r [Hin Hcomp]] Hall]. apply series_min_ge.
    + assert (Hk : In (group_key cols r) (map fst cls))
        by (apply Hkeys; exists r; auto).
      unfold group_sizes. destruct cls; [contradiction | discriminate].
    + unfold group_sizes. apply Forall_map. apply Forall_forall.
      intros [k0 ms] Hc0. simpl.
      assert (Hk : In k0 (map fst cls))
        by (apply in_map_iff; exists (k0, ms); auto).
      apply Hkeys in Hk as [r' [H1 [H2 H3]]]. subst k0.
      rewrite (Hsize r' ms H1 H2 Hc0). now apply Hall.
Qed.

Lemma check_k_anonymity_records_witness :
  exists cols b,
    mapM column ["Age"; "Gender"] = Ok cols
    /\ check_k_anonymity same_age ["Age"; "Gender"] 2 = Ok b
    /\ (b = true <->
        (exists r, In r same_age /\ complete cols r = true)
        /\ forall r, In r same_age -> complete cols r = true ->
                     2 <= companions cols same_age r).
Proof.
  apply (check_k_anonymity_records same_age ["Age"; "Gender"] 2);
    [reflexivity | discriminate].
Defined.

(** ** Exceptions of the classifier and its callers *)

Lemma column_unknown (name : string) :
  is_column name = false -> column name = Raise (KeyError name).
Proof.
  unfold is_column, column.
  repeat match goal with
         | |- context [String.eqb name ?s] => destruct (String.eqb name s)
         end; intros H; try discriminate; reflexivity.
Qed.

Lemma mapM_column_unknown (qis : list string) (name : string) :
  first_unknown qis = Some name -> mapM column qis = Raise (KeyError name).
Proof.
  induction qis as [|q rest IH]; simpl; [discriminate|].
  destruct (is_column q) eqn:E.
  - intros H. apply is_column_ok in E as [get Hget]. rewrite Hget. simpl.
    now rewrite (IH H).
  - intros H. inversion H; subst. now rewrite (column_unknown _ E).
Qed.

Lemma first_unknown_none (qis : list string) :
  first_unknown qis = None <-> forallb is_column qis = true.
Proof.
  induction qis as [|q rest IH]; simpl; [tauto|].
  destruct (is_column q); simpl; [exact IH | split; discriminate].
Qed.

Lemma groupby_error_none (qis : list string) :
  groupby_error qis = None <-> valid_qis qis = true.
Proof.
  unfold groupby_error, valid_qis. destruct qis as [|q rest];
    [split; discriminate|].
  rewrite <- first_unknown_none.
  destruct (first_unknown (q :: rest)); split; congruence.
Qed.

Lemma groupby_error_raise (qis : list string) (e : error) (df : DataFrame) :
  groupby_error qis = Some e ->
  List.length qis <> List.length df ->
  get_equivalence_classes df qis = Raise e.
Proof.
  unfold groupby_error, get_equivalence_classes.
  destruct qis as [|q rest].
  - intros H Hlen. destruct df; [now elim Hlen | now inversion H].
  - destruct (first_unknown (q :: rest)) as [name|] eqn:E; [|discriminate].
    intros H Hlen. inversion H; subst.
    rewrite (mapM_column_unknown _ _ E).
    apply Nat.eqb_neq in Hlen. now rewrite Hlen.
Qed.

Lemma groupby_labels (qis : list string) (e : error) (df : DataFrame) :
  groupby_error qis = Some e ->
  df <> [] ->
  List.length qis = List.length df ->
  get_equivalence_classes df qis = Ok (group_labels qis 0%nat []).
Proof.
  unfold groupby_error, get_equivalence_classes.
  destruct qis as [|q rest].
  - intros _ Hne Hlen. destruct df; [congruence | discriminate].
  - destruct (first_unknown (q :: rest)) as [name|] eqn:E; [|discriminate].
    intros _ _ Hlen. rewrite (mapM_column_unknown _ _ E).
    apply Nat.eqb_eq in Hlen. now rewrite Hlen.
Qed.

Lemma failing_groups_from_returns (df : DataFrame) (sensitive_col : string)
    (l_val : Z) (cls : list eq_class) :
  is_column sensitive_col = true ->
  forall acc, exists failing,
    failing_groups_from df sensitive_col l_val cls acc = Ok failing.
Proof.
  intros Hs. apply is_column_ok in Hs as [get Hget].
  induction cls as [|c rest IH]; intros acc; simpl; [eauto|].
  unfold diversity_of. rewrite Hget. cbn [bind]. apply IH.
Qed.

(** What a list of quasi-identifiers that [groupby] cannot resolve does
    to the callers of the classifier: a list that is empty ([ValueError])
    or holds a name that is not a column ([KeyError] of the first such
    name).
    - On a dataset with rows whose number differs from the number of
      names, all four callers raise that exception, the enforcer before
      any attempt.
    - On the dataset without rows, [check_k_anonymity] and
      [apply_k_anonymity] never look at the list: True and the empty
      dataset; the other two raise the [KeyError], but with the empty list
      they return 0 and (True, []): without rows [groupby] accepts it.
    - On a dataset with as many rows as the list has names, nothing is
      raised: the names themselves are the group labels of the rows, and
      every caller returns a value. *)
Theorem invalid_quasi_identifiers (qis : list string) (e : error) :
  groupby_error qis = Some e ->
  (forall df, df <> [] -> List.length qis <> List.length df ->
     simulate_linkage_attack df qis = Raise e
     /\ (forall sensitive_col l_val,
           check_l_diversity df sensitive_col qis l_val = Raise e)
     /\ (forall k,
           check_k_anonymity df qis k = Raise e
           /\ enforce df qis k = Some (Raise e)
           /\ apply_k_anonymity df qis k = Some (Raise e)))
  /\ ((forall k,
         check_k_anonymity [] qis k = Ok true
         /\ apply_k_anonymity [] qis k = Some (Ok []))
      /\ (qis <> [] ->
          simulate_linkage_attack [] qis = Raise e
          /\ forall sensitive_col l_val,
               check_l_diversity [] sensitive_col qis l_val = Raise e)
      /\ (qis = [] ->
          simulate_linkage_attack [] qis = Ok 0%Q
          /\ forall sensitive_col l_val,
               check_l_diversity [] sensitive_col qis l_val = Ok (true, [])))
  /\ (forall df, df <> [] -> List.length qis = List.length df ->
        get_equivalence_classes df qis = Ok (group_labels qis 0%nat [])
        /\ (exists risk, simulate_linkage_attack df qis = Ok risk)
        /\ (forall k, exists b, check_k_anonymity df qis k = Ok b)
        /\ (forall sensitive_col l_val,
              is_column sensitive_col = true ->
              exists out,
                check_l_diversity df sensitive_col qis l_val = Ok out)).
Proof.
  intros H. split; [|split].
  - intros df Hne Hlen.
    pose proof (groupby_error_raise _ _ df H Hlen) as Hg.
    split; [unfold simulate_linkage_attack; now rewrite Hg|].
    split; [intros s l; unfold check_l_diversity; now rewrite Hg|].
    intros k.
    assert (Hc : check_k_anonymity df qis k = Raise e).
    { unfold check_k_anonymity. destruct df; [congruence|]. now rewrite Hg. }
    split; [exact Hc|].
    assert (He : enforce df qis k = Some (Raise e)).
    { unfold enforce. cbn [while_loop initial_state anonymized_df].
      now rewrite Hc. }
    split; [exact He|]. unfold apply_k_anonymity. now rewrite He.
  - split; [intros k; split; reflexivity|]. split.
    + intros Hq.
      assert (Hlen : List.length qis <> List.length (@nil Row))
        by (destruct qis; [congruence | discriminate]).
      pose proof (groupby_error_raise _ _ [] H Hlen) as Hg.
      split; [unfold simulate_linkage_attack; now rewrite Hg|].
      intros s l. unfold check_l_diversity. now rewrite Hg.
    + intros ->. split; [reflexivity|]. intros s l. reflexivity.
  - intros df Hne Hlen. pose proof (groupby_labels _ _ df H Hne Hlen) as Hg.
    split; [exact Hg|].
    split; [unfold simulate_linkage_attack; rewrite Hg; cbn [bind]; eauto|].
    split.
    + intros k. unfold check_k_anonymity. destruct df; [congruence|].
      rewrite Hg. cbn [bind]. eauto.
    + intros s l Hs. unfold check_l_diversity. rewrite Hg. cbn [bind].
      destruct (failing_groups_from_returns df s l (group_labels qis 0 [])
                  Hs []) as [failing Hf].
      rewrite Hf. cbn [bind]. eauto.
Qed.

Lemma invalid_quasi_identifiers_witness :
  (forall df, df <> [] -> List.length ["Age"; "Zip"] <> List.length df ->
     simulate_linkage_attack df ["Age"; "Zip"] = Raise (KeyError "Zip")
     /\ (forall sensitive_col l_val,
           check_l_diversity df sensitive_col ["Age"; "Zip"] l_val
           = Raise (KeyError "Zip"))
     /\ (forall k,
           check_k_anonymity df ["Age"; "Zip"] k = Raise (KeyError "Zip")
           /\ enforce df ["Age"; "Zip"] k = Some (Raise (KeyError "Zip"))
           /\ apply_k_anonymity df ["Age"; "Zip"] k
              = Some (Raise (KeyError "Zip"))))
  /\ ((forall k,
         check_k_anonymity [] ["Age"; "Zip"] k = Ok true
         /\ apply_k_anonymity [] ["Age"; "Zip"] k = Some (Ok []))
      /\ (["Age"; "Zip"] <> [] ->
          simulate_linkage_attack [] ["Age"; "Zip"] = Raise (KeyError "Zip")
          /\ forall sensitive_col l_val,
               check_l_diversity [] sensitive_col ["Age"; "Zip"] l_val
               = Raise (KeyError "Zip"))
      /\ (["Age"; "Zip"] = [] ->
          simulate_linkage_attack [] ["Age"; "Zip"] = Ok 0%Q
          /\ forall sensitive_col l_val,
               check_l_diversity [] sensitive_col ["Age"; "Zip"] l_val
               = Ok (true, [])))
  /\ (forall df, df <> [] -> List.length ["Age"; "Zip"] = List.length df ->
        get_equivalence_classes df ["Age"; "Zip"]
        = Ok (group_labels ["Age"; "Zip"] 0%nat [])
        /\ (exists risk,
              simulate_linkage_attack df ["Age"; "Zip"] = Ok risk)
        /\ (forall k, exists b, check_k_anonymity df ["Age"; "Zip"] k = Ok b)
        /\ (forall sensitive_col l_val,
              is_column sensitive_col = true ->
              exists out,
                check_l_diversity df sensitive_col ["Age"; "Zip"] l_val
                = Ok out)).
Proof.
  apply (invalid_quasi_identifiers ["Age"; "Zip"] (KeyError "Zip")).
  reflexivity.
Defined.

(** Two records and two names, one of them unknown: the names are the
    labels of the two records, each alone in its group. *)
Example names_taken_for_labels :
  get_equivalence_classes narrow_ages ["Age"; "Zip"]
  = Ok [([VStr "Age"], [0%nat]); ([VStr "Zip"], [1%nat])]
  /\ (exists risk,
        simulate_linkage_attack narrow_ages ["Age"; "Zip"] = Ok risk
        /\ (risk == 1)%Q)
  /\ check_k_anonymity narrow_ages ["Age"; "Zip"] 2 = Ok false.
Proof.
  split; [reflexivity|]. split; [|reflexivity].
  eexists. split; [vm_compute; reflexivity | reflexivity].
Qed.

(** ** What the enforcer keeps *)

Lemma Forall2_same_length {A B : Type} (R : A -> B -> Prop) (l : list A)
    (l' : list B) : Forall2 R l l' -> List.length l' = List.length l.
Proof. induction 1; simpl; congruence. Qed.

Lemma attempt_row_kept (qis : list string) (level : Z) (r r' : Row) :
  attempt_row qis level r r' -> kept_record qis r r'.
Proof.
  intros [H1 [H2 [H3 [H4 [H5 H6]]]]]. unfold kept_record.
  repeat split; auto.
  - intros E. now rewrite E in H5.
  - intros E. rewrite E in H6. exact H6.
Qed.

(** Whatever [k], the frame [apply_k_anonymity] returns has the records of
    the input in their order; identifier, name, gender and diagnosis of
    every record are the input's, and so are the age and the postal code
    when their column is not among the quasi-identifiers. *)
Theorem apply_k_anonymity_keeps (df : DataFrame) (qis : list string)
    (k : Z) :
  valid_qis qis = true ->
  age_cuttable df qis = true ->
  exists frame,
    apply_k_anonymity df qis k = Some (Ok frame)
    /\ List.length frame = List.length df
    /\ Forall2 (kept_record qis) df frame.
Proof.
  intros Hq Ha.
  destruct (enforce_spec df qis k Hq Ha)
    as [e [st [_ [Hret [Hlv [Hfb _]]]]]].
  exists (anonymized_df st). split; [exact Hret|].
  assert (HF : Forall2 (kept_record qis) df (anonymized_df st)).
  { unfold frame_before in Hfb.
    destruct (gen_level st =? 0) eqn:E0.
    - inversion Hfb as [E]. eapply Forall2_impl; [|apply Forall2_refl_eq].
      intros r r' ->. unfold kept_record. repeat split; auto.
    - apply Z.eqb_neq in E0.
      destruct (generalize_attempt_rows df qis (gen_level st - 1))
        as [frame [Hf HFr]]; [lia | exact Ha |].
      rewrite Hf in Hfb. inversion Hfb; subst frame.
      eapply Forall2_impl; [|exact HFr].
      intros r r'. apply attempt_row_kept. }
  split; [exact (Forall2_same_length _ _ _ HF) | exact HF].
Qed.

Lemma apply_k_anonymity_keeps_witness :
  exists frame,
    apply_k_anonymity five_ages ["Age"] 3 = Some (Ok frame)
    /\ List.length frame = List.length five_ages
    /\ Forall2 (kept_record ["Age"]) five_ages frame.
Proof.
  apply (apply_k_anonymity_keeps five_ages ["Age"] 3); reflexivity.
Defined.

(** A frame the enforcer returned through the end of its loop is a fixed
    point: applied to it with the same quasi-identifiers and [k], the
    enforcer makes no attempt and returns it as it is. *)
Theorem apply_k_anonymity_idempotent (df : DataFrame) (qis : list string)
    (k : Z) (st : loop_state) :
  valid_qis qis = true ->
  age_cuttable df qis = true ->
  enforce df qis k = Some (Ok (ReturnAfterLoop, st)) ->
  apply_k_anonymity df qis k = Some (Ok (anonymized_df st))
  /\ enforce (anonymized_df st) qis k
     = Some (Ok (ReturnAfterLoop,
                 print (msg_achieved k) (initial_state (anonymized_df st))))
  /\ apply_k_anonymity (anonymized_df st) qis k
     = Some (Ok (anonymized_df st)).
Proof.
  intros Hq Ha Hrun.
  destruct (enforce_spec df qis k Hq Ha)
    as [e [st' [Hrun' [Hret [_ [_ [_ [_ Hend]]]]]]]].
  rewrite Hrun in Hrun'. inversion Hrun'; subst e st'.
  destruct Hend as [_ Hc].
  split; [exact Hret|].
  assert (Hre : enforce (anonymized_df st) qis k
                = Some (Ok (ReturnAfterLoop,
                            print (msg_achieved k)
                                  (initial_state (anonymized_df st))))).
  { unfold enforce. now apply while_loop_satisfied. }
  split; [exact Hre|]. unfold apply_k_anonymity. now rewrite Hre.
Qed.

Lemma apply_k_anonymity_idempotent_witness :
  apply_k_anonymity narrow_ages ["Age"] 2
  = Some (Ok (anonymized_df
                (mkState narrow_ages_binned narrow_ages_binned 1
                         [msg_not_met 2 0; msg_achieved 2])))
  /\ enforce (anonymized_df
                (mkState narrow_ages_binned narrow_ages_binned 1
                         [msg_not_met 2 0; msg_achieved 2])) ["Age"] 2
     = Some (Ok (ReturnAfterLoop,
                 print (msg_achieved 2)
                       (initial_state
                          (anonymized_df
                             (mkState narrow_ages_binned narrow_ages_binned 1
                                      [msg_not_met 2 0; msg_achieved 2])))))
  /\ apply_k_anonymity
       (anonymized_df
          (mkState narrow_ages_binned narrow_ages_binned 1
                   [msg_not_met 2 0; msg_achieved 2])) ["Age"] 2
     = Some (Ok (anonymized_df
                   (mkState narrow_ages_binned narrow_ages_binned 1
                            [msg_not_met 2 0; msg_achieved 2]))).
Proof.
  apply (apply_k_anonymity_idempotent narrow_ages ["Age"] 2);
    [reflexivity | reflexivity | vm_compute; reflexivity].
Defined.

Lemma while_loop_body_raises (fuel : nat) (df : DataFrame)
    (qis : list string) (k : Z) (st : loop_state) (e : error) :
  check_k_anonymity (anonymized_df st) qis k = Ok false ->
  loop_body df qis k st = Raise e ->
  while_loop (S fuel) df qis k st = Some (Raise e).
Proof. intros H1 H2. simpl. now rewrite H1, H2. Qed.

(** On a dataset that fails the test, with the age among the
    quasi-identifiers and a text in the age column (a dataset binned
    before, for one), the first attempt raises [TypeError]: the enforcer
    cannot generalize its own output further. *)
Theorem apply_k_anonymity_text_age (df : DataFrame) (qis : list string)
    (k : Z) :
  name_in "Age" qis = true ->
  forallb age_not_text df = false ->
  check_k_anonymity df qis k = Ok false ->
  enforce df qis k = Some (Raise TypeError)
  /\ apply_k_anonymity df qis k = Some (Raise TypeError).
Proof.
  intros Hin Htext Hc.
  assert (Hb : loop_body df qis k (initial_state df) = Raise TypeError).
  { unfold loop_body, generalize_attempt, initial_state.
    cbn [gen_level stdout]. cbv zeta. rewrite Hin.
    change (py_get age_generalizations
              (Z.min (0 / 2)
                     (Z.of_nat (List.length age_generalizations) - 1)))
      with (Ok (nth 0 age_generalizations ([], []))).
    cbn [bind].
    destruct (generalize_age_cases df
                (fst (nth 0 age_generalizations ([], [])))
                (snd (nth 0 age_generalizations ([], []))))
      as [_ [H _]].
    rewrite (H Htext). reflexivity. }
  assert (He : enforce df qis k = Some (Raise TypeError)).
  { unfold enforce. now apply while_loop_body_raises. }
  split; [exact He|]. unfold apply_k_anonymity. now rewrite He.
Qed.

Lemma apply_k_anonymity_text_age_witness :
  enforce narrow_ages_binned ["Age"] 3 = Some (Raise TypeError)
  /\ apply_k_anonymity narrow_ages_binned ["Age"] 3
     = Some (Raise TypeError).
Proof.
  apply (apply_k_anonymity_text_age narrow_ages_binned ["Age"] 3);
    reflexivity.
Defined.

(** ** Linkage risk, record by record *)

Lemma linkage_attack_value (df : DataFrame) (qis : list string)
    (cols : list (Row -> cell)) :
  valid_qis qis = true ->
  mapM column qis = Ok cols ->
  simulate_linkage_attack df qis
  = Ok (if 0 <? Z.of_nat (List.length df)
        then (inject_Z (singleton_classes (group_rows cols df 0%nat []))
              / inject_Z (Z.of_nat (List.length df)))%Q
        else 0%Q).
Proof.
  intros Hq Hc. destruct (valid_qis_classes qis Hq) as [cols' [Hc' Hcls]].
  rewrite Hc in Hc'. inversion Hc'; subst cols'.
  unfold simulate_linkage_attack. rewrite Hcls. cbn [bind].
  now rewrite count_singletons_classes.
Qed.

Lemma ge_nan_all (sizes : list Z) (k : Z) :
  ge_nan (series_min sizes) k = true -> Forall (fun x => k <= x) sizes.
Proof.
  destruct (series_min sizes) as [m|] eqn:E; [|discriminate].
  simpl. intros H. apply Z.leb_le in H.
  eapply Forall_impl; [|exact (series_min_lower _ _ E)].
  simpl. intros a Ha. lia.
Qed.

(** The enforcer and the simulator together: when the enforcer returns
    through the end of its loop for a [k] of at least 2, the linkage risk
    of the frame it returns, under the same quasi-identifiers, is 0. *)
Theorem satisfied_run_has_no_risk (df : DataFrame) (qis : list string)
    (k : Z) (st : loop_state) :
  valid_qis qis = true ->
  age_cuttable df qis = true ->
  2 <= k ->
  enforce df qis k = Some (Ok (ReturnAfterLoop, st)) ->
  exists risk,
    simulate_linkage_attack (anonymized_df st) qis = Ok risk
    /\ (risk == 0)%Q.
Proof.
  intros Hq Ha Hk Hrun.
  destruct (enforce_spec df qis k Hq Ha)
    as [e [st' [Hrun' [_ [_ [_ [_ [_ Hend]]]]]]]].
  rewrite Hrun in Hrun'. inversion Hrun'; subst e st'.
  destruct Hend as [_ Hc].
  destruct (valid_qis_classes qis Hq) as [cols [Hcols Hcls]].
  rewrite (linkage_attack_value _ _ cols Hq Hcols).
  eexists. split; [reflexivity|].
  set (frame := anonymized_df st) in *.
  set (cls := group_rows cols frame 0%nat []).
  destruct (0 <? Z.of_nat (List.length frame)) eqn:En; [|reflexivity].
  apply Z.ltb_lt in En.
  assert (Hz : singleton_classes cls = 0).
  { apply singleton_classes_zero;
      [apply group_rows_nonempty; constructor|].
    unfold check_k_anonymity in Hc.
    destruct frame as [|r0 rest] eqn:Ef; [simpl in En; lia|].
    rewrite Hcls in Hc. cbn [bind] in Hc. inversion Hc as [Hge].
    apply ge_nan_all in Hge. unfold group_sizes in Hge.
    rewrite Forall_map in Hge.
    eapply Forall_impl; [|exact Hge]. simpl. intros c Hc0. lia. }
  rewrite Hz. unfold Qdiv. apply Qmult_0_l.
Qed.

Lemma satisfied_run_has_no_risk_witness :
  exists risk,
    simulate_linkage_attack
      (anonymized_df
         (mkState narrow_ages_binned narrow_ages_binned 1
                  [msg_not_met 2 0; msg_achieved 2])) ["Age"] = Ok risk
    /\ (risk == 0)%Q.
Proof.
  apply (satisfied_run_has_no_risk narrow_ages ["Age"] 2);
    [reflexivity | reflexivity | lia | vm_compute; reflexivity].
Defined.

Lemma singles_eq_total (cls : list eq_class) :
  Forall (fun c => snd c <> []) cls ->
  (singleton_classes cls = Z.of_nat (List.length (all_members cls))
   <-> Forall (fun c => List.length (snd c) = 1%nat) cls).
Proof.
  induction cls as [|[k0 ms] rest IH]; intros NE.
  - split; [constructor | reflexivity].
  - inversion NE as [|? ? Hms Hrest]; subst. simpl in Hms.
    pose proof (count_singletons_le rest) as Hle.
    rewrite count_singletons_classes in Hle.
    specialize (IH Hrest).
    unfold singleton_classes, all_members in *. simpl.
    rewrite length_app.
    destruct (Nat.eqb (List.length ms) 1) eqn:E.
    + apply Nat.eqb_eq in E. simpl. split.
      * intros H. constructor; [exact E|]. apply IH. lia.
      * intros F. inversion F; subst. apply IH in H2. lia.
    + apply Nat.eqb_neq in E. split.
      * intros H. exfalso. destruct ms; [congruence|]. simpl in *. lia.
      * intros F. inversion F; subst. simpl in *. congruence.
Qed.

Lemma kept_positions_full (cols : list (Row -> cell)) (rows : list Row)
    (i : nat) :
  List.length (kept_positions cols rows i) = List.length rows
  <-> forall r, In r rows -> complete cols r = true.
Proof.
  revert i. induction rows as [|r rs IH]; intros i; simpl.
  - split; [intros _ r [] | reflexivity].
  - pose proof (kept_positions_length cols rs (S i)) as Hle.
    unfold complete at 1.
    destruct (existsb isna (group_key cols r)) eqn:E; simpl.
    + split; [lia|]. intros H. specialize (H r (or_introl eq_refl)).
      unfold complete in H. rewrite E in H. discriminate.
    + split.
      * intros H r' [<-|Hin]; [unfold complete; now rewrite E|].
        apply (proj1 (IH (S i))); [lia | exact Hin].
      * intros H. f_equal. apply IH. intros r' Hin. apply H. now right.
Qed.

Lemma ratio_one (s n : Z) :
  0 < n -> ((inject_Z s / inject_Z n == 1)%Q <-> s = n).
Proof.
  intros Hn. destruct n as [|p|p]; try lia.
  unfold Qdiv, Qinv, Qmult, Qeq, inject_Z. simpl. lia.
Qed.

(** The risk is 1 exactly when the dataset is not empty, no record misses
    a quasi-identifier value and no two records have the same
    quasi-identifier values: every record can be singled out. *)
Theorem linkage_risk_total (df : DataFrame) (attacker_qis : list string) :
  valid_qis attacker_qis = true ->
  exists cols risk,
    mapM column attacker_qis = Ok cols
    /\ simulate_linkage_attack df attacker_qis = Ok risk
    /\ ((risk == 1)%Q <->
        df <> []
        /\ forall r, In r df ->
                     complete cols r = true /\ companions cols df r = 1).
Proof.
  intros Hq. destruct (valid_qis_classes attacker_qis Hq) as [cols [Hc Hcls]].
  exists cols. rewrite (linkage_attack_value _ _ cols Hq Hc).
  eexists. split; [exact Hc|]. split; [reflexivity|].
  set (cls := group_rows cols df 0%nat []).
  assert (NE : Forall (fun c => snd c <> []) cls)
    by (apply group_rows_nonempty; constructor).
  pose proof (Permutation_length (group_rows_members cols df 0%nat [])) as P.
  fold cls in P. simpl in P.
  pose proof (kept_positions_length cols df 0%nat) as Hkept.
  pose proof (count_singletons_le cls) as Hle.
  rewrite count_singletons_classes in Hle.
  destruct (classes_count_records cols df) as [Hkeys Hsize].
  fold cls in Hkeys, Hsize.
  destruct (0 <? Z.of_nat (List.length df)) eqn:En.
  - apply Z.ltb_lt in En. rewrite (ratio_one _ _ En). split.
    + intros Hs.
      assert (Hall : singleton_classes cls
                     = Z.of_nat (List.length (all_members cls))) by lia.
      apply (singles_eq_total cls NE) in Hall.
      assert (Hfull : forall r, In r df -> complete cols r = true)
        by (apply (kept_positions_full cols df 0%nat); lia).
      split; [intros E; rewrite E in En; simpl in En; lia|].
      intros r Hin. split; [now apply Hfull|].
      assert (Hk : In (group_key cols r) (map fst cls))
        by (apply Hkeys; exists r; auto).
      apply in_map_iff in Hk as [[k0 ms] [E Hc0]]. simpl in E. subst k0.
      rewrite <- (Hsize r ms Hin (Hfull r Hin) Hc0).
      rewrite Forall_forall in Hall. specialize (Hall _ Hc0). simpl in Hall.
      lia.
    + intros [_ Hall].
      assert (Hfull : List.length (kept_positions cols df 0%nat)
                      = List.length df).
      { apply kept_positions_full. intros r Hin. now apply Hall. }
      assert (Hone : Forall (fun c => List.length (snd c) = 1%nat) cls).
      { apply Forall_forall. intros [k0 ms] Hc0. simpl.
        assert (Hk : In k0 (map fst cls))
          by (apply in_map_iff; exists (k0, ms); auto).
        apply Hkeys in Hk as [r' [H1 [H2 H3]]]. subst k0.
        pose proof (Hsize r' ms H1 H2 Hc0) as Hs.
        destruct (Hall r' H1) as [_ Hcomp]. lia. }
      apply (singles_eq_total cls NE) in Hone. lia.
  - apply Z.ltb_ge in En. split.
    + intros H. exfalso. unfold Qeq in H. simpl in H. discriminate.
    + intros [Hne _]. destruct df; [congruence | simpl in En; lia].
Qed.

Lemma linkage_risk_total_witness :
  exists cols risk,
    mapM column ["Age"] = Ok cols
    /\ simulate_linkage_attack five_ages ["Age"] = Ok risk
    /\ ((risk == 1)%Q <->
        five_ages <> []
        /\ forall r, In r five_ages ->
                     complete cols r = true
                     /\ companions cols five_ages r = 1).
Proof. apply (linkage_risk_total five_ages ["Age"]). reflexivity. Defined.

(** ** The tokenizer: frame, vault and exceptions *)

Lemma set_column_same_but (name : string) (v : cell) (r r' : Row) :
  set_column name v r = Ok r' -> same_but name r r'.
Proof.
  unfold set_column.
  repeat match goal with
         | |- context [String.eqb name ?s] =>
             let E := fresh "E" in
             destruct (String.eqb name s) eqn:E;
             [apply String.eqb_eq in E; subst name;
              intros H; inversion H; subst r'; intros q get Hq Hne;
              destruct (column_cases q get Hq)
                as [[-> ->]|[[-> ->]|[[-> ->]|[[-> ->]|[[-> ->]|[-> ->]]]]]];
              try reflexivity; congruence|]
         end.
  discriminate.
Qed.

Lemma set_column_total (name : string) (v : cell) (r : Row) :
  is_column name = true -> exists r', set_column name v r = Ok r'.
Proof.
  unfold is_column, column, set_column.
  repeat match goal with
         | |- context [String.eqb name ?s] =>
             destruct (String.eqb name s); [eauto|]
         end.
  discriminate.
Qed.

Lemma tokenize_ids_unfold (df : DataFrame) (id_col : string)
    (out : DataFrame * list (cell * string)) :
  tokenize_ids df id_col = Ok out ->
  exists get tokens,
    column id_col = Ok get
    /\ Forall2 (fun r t => generate_token (get r) = Ok t) df tokens
    /\ Forall2 (fun rt r' => set_column id_col (VStr (snd rt)) (fst rt) = Ok r')
               (combine df tokens) (fst out)
    /\ snd out = dict_of (combine (map get df) tokens).
Proof.
  unfold tokenize_ids. intros H.
  destruct (column id_col) as [get|e] eqn:Hget; simpl in H; [|discriminate].
  destruct (mapM (fun r => generate_token (get r)) df) as [tokens|e] eqn:Ht;
    simpl in H; [|discriminate].
  destruct (mapM _ (combine df tokens)) as [frame|e] eqn:Hf;
    simpl in H; [|discriminate].
  inversion H; subst out. exists get, tokens.
  split; [reflexivity|].
  split; [exact (mapM_Forall2 _ _ _ Ht)|].
  split; [exact (mapM_Forall2 _ _ _ Hf) | reflexivity].
Qed.

Lemma tokenize_ids_rows (df : DataFrame) (id_col : string)
    (out : DataFrame * list (cell * string)) :
  tokenize_ids df id_col = Ok out -> Forall2 (same_but id_col) df (fst out).
Proof.
  intros H.
  destruct (tokenize_ids_unfold _ _ _ H) as [get [tokens [_ [Ht [Hf _]]]]].
  revert Hf. generalize (fst out) as frame. clear H.
  induction Ht as [|r t rs ts _ _ IH]; intros frame Hf; simpl in Hf;
    inversion Hf as [|rt r' l l' Hrow Hrest]; subst; constructor.
  - simpl in Hrow. exact (set_column_same_but _ _ _ _ Hrow).
  - apply IH. exact Hrest.
Qed.

(** [tokenize_ids] returns the records of the input in their order, and
    every column but the identifier column as it was. *)
Theorem tokenize_ids_keeps (df : DataFrame) (id_col : string)
    (out : DataFrame * list (cell * string)) :
  tokenize_ids df id_col = Ok out ->
  List.length (fst out) = List.length df
  /\ Forall2 (same_but id_col) df (fst out).
Proof.
  intros H. pose proof (tokenize_ids_rows _ _ _ H) as HF.
  split; [exact (Forall2_same_length _ _ _ HF) | exact HF].
Qed.

Lemma tokenize_ids_keeps_witness :
  List.length (fst lone_record_tokenized) = List.length lone_record
  /\ Forall2 (same_but "Patient_ID") lone_record (fst lone_record_tokenized).
Proof.
  apply (tokenize_ids_keeps lone_record "Patient_ID").
  vm_compute. reflexivity.
Defined.

Lemma dict_get_set (k k' : cell) (v : string) (d : list (cell * string)) :
  dict_get k' (dict_set k v d)
  = if cell_eqb k k' then Some v else dict_get k' d.
Proof.
  induction d as [|[k0 v0] rest IH]; simpl.
  - destruct (cell_eqb k k'); reflexivity.
  - destruct (cell_eqb k0 k) eqn:E; simpl.
    + apply cell_eqb_eq in E. subst k0.
      destruct (cell_eqb k k'); reflexivity.
    + destruct (cell_eqb k0 k') eqn:E'; [|exact IH].
      apply cell_eqb_eq in E'. subst k0.
      destruct (cell_eqb k k') eqn:E2; [|reflexivity].
      apply cell_eqb_eq in E2. subst k.
      assert (cell_eqb k' k' = true) by now apply cell_eqb_eq. congruence.
Qed.

Lemma dict_set_keys (k : cell) (v : string) (d : list (cell * string)) :
  forall k', In k' (map fst (dict_set k v d)) <-> k' = k \/ In k' (map fst d).
Proof.
  induction d as [|[k0 v0] rest IH]; intros k'; simpl.
  - split; [intros [H|[]]; now left | intros [H|[]]; now left].
  - destruct (cell_eqb k0 k) eqn:E; simpl.
    + apply cell_eqb_eq in E. subst k0. split; intros [H|H]; auto.
    + rewrite IH. split; intros [H|[H|H]]; auto.
Qed.

Lemma dict_set_NoDup (k : cell) (v : string) (d : list (cell * string)) :
  NoDup (map fst d) -> NoDup (map fst (dict_set k v d)).
Proof.
  induction d as [|[k0 v0] rest IH]; intros H; simpl.
  - constructor; [intros []|constructor].
  - inversion H; subst. destruct (cell_eqb k0 k) eqn:E; simpl.
    + now constructor.
    + constructor; [|now apply IH].
      rewrite dict_set_keys. intros [Hk|Hk]; [|contradiction].
      subst. assert (cell_eqb k k = true) by now apply cell_eqb_eq.
      congruence.
Qed.

Lemma dict_set_length (k : cell) (v : string) (d : list (cell * string)) :
  (List.length (dict_set k v d) <= S (List.length d))%nat.
Proof.
  induction d as [|[k0 v0] rest IH]; simpl; [lia|].
  destruct (cell_eqb k0 k); simpl; lia.
Qed.

(** The fold that builds the vault, from any dictionary [d]. *)
Lemma dict_fold_facts (R : cell -> string -> Prop)
    (kvs : list (cell * string)) :
  (forall k v, In (k, v) kvs -> R k v) ->
  forall d,
    NoDup (map fst d) ->
    (forall k v, dict_get k d = Some v -> R k v) ->
    let d' := fold_left (fun d kv => dict_set (fst kv) (snd kv) d) kvs d in
    NoDup (map fst d')
    /\ (forall k v, dict_get k d' = Some v -> R k v)
    /\ (forall k, In k (map fst kvs) \/ dict_get k d <> None ->
                  dict_get k d' <> None)
    /\ (List.length d' <= List.length d + List.length kvs)%nat.
Proof.
  induction kvs as [|[k0 v0] rest IH]; intros HR d ND HP; simpl.
  - repeat split; auto; [|lia]. intros k [[]|H]; exact H.
  - destruct (IH (fun k v H => HR k v (or_intror H)) (dict_set k0 v0 d))
      as [A [B [C D]]].
    + now apply dict_set_NoDup.
    + intros k v. rewrite dict_get_set.
      destruct (cell_eqb k0 k) eqn:E; [|now apply HP].
      apply cell_eqb_eq in E. subst k0. intros H. inversion H; subst v0.
      apply HR. now left.
    + split; [exact A|]. split; [exact B|]. split.
      * intros k Hk. apply C. rewrite dict_get_set.
        destruct (cell_eqb k0 k) eqn:E; [right; discriminate|].
        destruct Hk as [[Hk|Hk]|Hk]; auto.
        simpl in Hk. subst k0.
        assert (cell_eqb k k = true) by now apply cell_eqb_eq. congruence.
      * pose proof (dict_set_length k0 v0 d). lia.
Qed.

Lemma combine_keys_In {A : Type} (get : Row -> cell) (R : Row -> A -> Prop)
    (df : DataFrame) (ts : list A) :
  Forall2 R df ts ->
  (forall k t, In (k, t) (combine (map get df) ts) ->
               exists r, In r df /\ get r = k /\ R r t)
  /\ (forall r, In r df -> In (get r) (map fst (combine (map get df) ts))).
Proof.
  induction 1 as [|r t rs ts Hr _ [IH1 IH2]]; simpl.
  - split; [intros k t [] | intros r []].
  - split.
    + intros k t' [E|Hin].
      * inversion E; subst. exists r. auto.
      * destruct (IH1 _ _ Hin) as [r' [H1 [H2 H3]]]. exists r'. auto.
    + intros r' [<-|Hin]; [now left | right; now apply IH2].
Qed.

(** The vault of [tokenize_ids] is a dictionary: no identifier has two
    entries, so it has at most as many entries as the dataset has records;
    looking up the identifier of any record of the input gives the token
    that replaced it, and every entry is the identifier of some record. *)
Theorem tokenize_ids_vault (df : DataFrame) (id_col : string)
    (out : DataFrame * list (cell * string)) :
  tokenize_ids df id_col = Ok out ->
  exists get,
    column id_col = Ok get
    /\ NoDup (map fst (snd out))
    /\ (List.length (snd out) <= List.length df)%nat
    /\ (forall r, In r df ->
          exists t, dict_get (get r) (snd out) = Some t
                    /\ generate_token (get r) = Ok t)
    /\ (forall id t, In (id, t) (snd out) -> exists r, In r df /\ get r = id).
Proof.
  intros H.
  destruct (tokenize_ids_unfold _ _ _ H) as [get [tokens [Hget [Ht [_ Hv]]]]].
  exists get. split; [exact Hget|]. rewrite Hv. unfold dict_of.
  destruct (combine_keys_In get _ df tokens Ht) as [K1 K2].
  destruct (dict_fold_facts (fun k t => generate_token k = Ok t)
              (combine (map get df) tokens)) with (d := @nil (cell * string))
    as [A [B [C D]]].
  - intros k t Hin. destruct (K1 _ _ Hin) as [r [_ [<- Hr]]]. exact Hr.
  - constructor.
  - intros k v Hd. discriminate Hd.
  - split; [exact A|]. split.
    { simpl in D. rewrite length_combine, length_map in D. lia. }
    split.
    + intros r Hin.
      destruct (dict_get (get r) _) as [t|] eqn:E.
      * exists t. split; [reflexivity | now apply B].
      * exfalso. apply (C (get r)); [left; now apply K2 | exact E].
    + intros id t Hin. apply dict_of_In in Hin.
      destruct (K1 _ _ Hin) as [r [H1 [H2 _]]]. exists r. auto.
Qed.

Lemma tokenize_ids_vault_witness :
  exists get,
    column "Patient_ID" = Ok get
    /\ NoDup (map fst (snd lone_record_tokenized))
    /\ (List.length (snd lone_record_tokenized) <= List.length lone_record)%nat
    /\ (forall r, In r lone_record ->
          exists t, dict_get (get r) (snd lone_record_tokenized) = Some t
                    /\ generate_token (get r) = Ok t)
    /\ (forall id t, In (id, t) (snd lone_record_tokenized) ->
          exists r, In r lone_record /\ get r = id).
Proof.
  apply (tokenize_ids_vault lone_record "Patient_ID").
  vm_compute. reflexivity.
Defined.

Lemma generate_tokens_cases (get : Row -> cell) (df : DataFrame) :
  (forallb (fun r => is_text (get r)) df = true ->
   exists tokens, mapM (fun r => generate_token (get r)) df = Ok tokens)
  /\ (forallb (fun r => is_text (get r)) df = false ->
      mapM (fun r => generate_token (get r)) df = Raise AttributeError).
Proof.
  induction df as [|r df [IH1 IH2]]; simpl.
  - split; [eauto | discriminate].
  - destruct (get r) as [z|v|]; simpl.
    + split; [discriminate | reflexivity].
    + split.
      * intros H. destruct (IH1 H) as [ts Hts]. rewrite Hts. simpl. eauto.
      * intros H. now rewrite (IH2 H).
    + split; [discriminate | reflexivity].
Qed.

(** [tokenize_ids] returns exactly when the identifier column exists and
    every identifier is a text.  A name that is not a column raises
    [KeyError], on the empty dataset too; a missing or numeric identifier
    raises [AttributeError]. *)
Theorem tokenize_ids_returns_iff (df : DataFrame) (id_col : string) :
  (is_column id_col = false ->
   tokenize_ids df id_col = Raise (KeyError id_col))
  /\ (forall get, column id_col = Ok get ->
        (forallb (fun r => is_text (get r)) df = false ->
         tokenize_ids df id_col = Raise AttributeError)
        /\ (forallb (fun r => is_text (get r)) df = true ->
            exists out, tokenize_ids df id_col = Ok out)).
Proof.
  split.
  - intros H. unfold tokenize_ids. now rewrite (column_unknown _ H).
  - intros get Hget. unfold tokenize_ids. rewrite Hget. cbn [bind].
    destruct (generate_tokens_cases get df) as [G1 G2]. split.
    + intros H. now rewrite (G2 H).
    + intros H. destruct (G1 H) as [tokens Ht]. rewrite Ht. cbn [bind].
      destruct (mapM_ok (fun rt => set_column id_col (VStr (snd rt)) (fst rt))
                        (combine df tokens)) as [frame Hf].
      * intros rt _. apply set_column_total.
        unfold is_column. now rewrite Hget.
      * rewrite Hf. cbn [bind]. eauto.
Qed.

(** ** Tokens as digests *)





(** ** Tokenizing and measuring *)

Lemma name_in_false (x : string) (qis : list string) :
  name_in x qis = false -> forall q, In q qis -> q <> x.
Proof.
  unfold name_in. intros H q Hin ->.
  assert (E : existsb (String.eqb x) qis = true).
  { apply existsb_exists. exists x. split; [exact Hin | apply String.eqb_refl]. }
  congruence.
Qed.

Lemma same_but_column (name q : string) (get : Row -> cell)
    (df df' : DataFrame) :
  Forall2 (same_but name) df df' ->
  column q = Ok get -> q <> name ->
  map get df' = map get df.
Proof.
  intros HF Hq Hne. induction HF as [|r r' l l' Hr _ IH]; simpl;
    [reflexivity|].
  rewrite IH. f_equal. exact (Hr q get Hq Hne).
Qed.

Lemma same_but_keys (name : string) (qis : list string)
    (cols : list (Row -> cell)) (r r' : Row) :
  same_but name r r' ->
  Forall2 (fun q g => column q = Ok g) qis cols ->
  (forall q, In q qis -> q <> name) ->
  group_key cols r' = group_key cols r.
Proof.
  intros Hr HF. induction HF as [|q g qs gs Hq _ IH]; intros Hne; simpl;
    [reflexivity|].
  rewrite (Hr q g Hq (Hne q (or_introl eq_refl))). f_equal.
  apply IH. intros q' Hin. apply Hne. now right.
Qed.

Lemma group_rows_same_keys (cols : list (Row -> cell)) (df df' : DataFrame) :
  Forall2 (fun r r' => group_key cols r' = group_key cols r) df df' ->
  forall i acc, group_rows cols df' i acc = group_rows cols df i acc.
Proof.
  induction 1 as [|r r' l l' Hr _ IH]; intros i acc; simpl; [reflexivity|].
  rewrite Hr. apply IH.
Qed.

Lemma classes_same_but (name : string) (qis : list string)
    (df df' : DataFrame) :
  Forall2 (same_but name) df df' ->
  name_in name qis = false ->
  get_equivalence_classes df' qis = get_equivalence_classes df qis.
Proof.
  intros HF Hn. unfold get_equivalence_classes.
  pose proof (Forall2_length HF) as Hlen.
  destruct qis as [|q0 qs];
    [destruct df, df'; try discriminate; reflexivity|].
  destruct (mapM column (q0 :: qs)) as [cols|e] eqn:Hc;
    [|now rewrite Hlen].
  f_equal. apply group_rows_same_keys.
  eapply Forall2_impl; [|exact HF].
  intros r r' Hr. eapply same_but_keys; eauto.
  - exact (mapM_Forall2 _ _ _ Hc).
  - now apply name_in_false.
Qed.

Lemma group_rows_of_same_but (name q : string) (get : Row -> cell)
    (df df' : DataFrame) (members : list nat) :
  Forall2 (same_but name) df df' ->
  column q = Ok get -> q <> name ->
  map get (group_rows_of df' members) = map get (group_rows_of df members).
Proof.
  intros HF Hq Hne. unfold group_rows_of.
  induction members as [|i ms IH]; simpl; [reflexivity|].
  rewrite !map_app, IH. f_equal.
  clear IH. revert i. induction HF as [|r r' l l' Hr _ IH]; intros i.
  - destruct i; reflexivity.
  - destruct i as [|i]; simpl; [|apply IH].
    now rewrite (Hr q get Hq Hne).
Qed.

Lemma total_ncp_same_but (name : string) (dtypes : string -> dtype)
    (original df df' : DataFrame) (qis : list string) :
  Forall2 (same_but name) df df' ->
  (forall q, In q qis -> q <> name) ->
  forall acc, total_ncp_from dtypes original df' qis acc
              = total_ncp_from dtypes original df qis acc.
Proof.
  intros HF. induction qis as [|q rest IH]; intros Hne acc; simpl;
    [reflexivity|].
  assert (E : qi_ncp dtypes original df' q = qi_ncp dtypes original df q).
  { unfold qi_ncp. destruct (column q) as [get|e] eqn:Hq; [|reflexivity].
    cbn [bind].
    rewrite (same_but_column name q get df df' HF Hq
               (Hne q (or_introl eq_refl))).
    destruct HF; reflexivity. }
  rewrite E. destruct (qi_ncp dtypes original df q); [|reflexivity].
  cbn [bind]. apply IH. intros q' Hin. apply Hne. now right.
Qed.

(** Tokenizing and measuring commute.  When the identifier column is not a
    quasi-identifier, the frame [tokenize_ids] returns has the equivalence
    classes of its input, so the k-anonymity test, the linkage risk and
    the NCP against any original are those of the input; and so is the
    l-diversity report for a sensitive column other than the identifier
    column. *)
Theorem tokenize_ids_keeps_metrics (df : DataFrame) (id_col : string)
    (out : DataFrame * list (cell * string)) (qis : list string) :
  tokenize_ids df id_col = Ok out ->
  name_in id_col qis = false ->
  get_equivalence_classes (fst out) qis = get_equivalence_classes df qis
  /\ (forall k, check_k_anonymity (fst out) qis k
                = check_k_anonymity df qis k)
  /\ simulate_linkage_attack (fst out) qis = simulate_linkage_attack df qis
  /\ (forall dtypes original,
        compute_ncp dtypes original (fst out) qis
        = compute_ncp dtypes original df qis)
  /\ (forall sensitive_col l_val,
        sensitive_col <> id_col ->
        check_l_diversity (fst out) sensitive_col qis l_val
        = check_l_diversity df sensitive_col qis l_val).
Proof.
  intros H Hn. pose proof (tokenize_ids_rows _ _ _ H) as HF.
  pose proof (classes_same_but id_col qis df (fst out) HF Hn) as Hcls.
  pose proof (Forall2_same_length _ _ _ HF) as Hlen.
  split; [exact Hcls|]. split.
  { intros k. unfold check_k_anonymity. rewrite Hcls.
    destruct df; destruct (fst out); simpl in Hlen; try discriminate;
      reflexivity. }
  split.
  { unfold simulate_linkage_attack. now rewrite Hcls, Hlen. }
  split.
  { intros dtypes original. unfold compute_ncp.
    now rewrite (total_ncp_same_but id_col dtypes original df (fst out) qis
                   HF (name_in_false _ _ Hn)). }
  intros s l Hs. unfold check_l_diversity. rewrite Hcls.
  destruct (get_equivalence_classes df qis) as [cls|e]; [|reflexivity].
  cbn [bind].
  assert (E : forall acc,
            failing_groups_from (fst out) s l cls acc
            = failing_groups_from df s l cls acc).
  { clear Hcls.
    induction cls as [|c rest IH]; intros acc; simpl; [reflexivity|].
    unfold diversity_of.
    destruct (column s) as [get|e] eqn:Hget; [|reflexivity].
    cbn [bind].
    rewrite (group_rows_of_same_but id_col s get df (fst out) (snd c)
               HF Hget Hs).
    apply IH. }
  now rewrite E.
Qed.

Lemma tokenize_ids_keeps_metrics_witness :
  get_equivalence_classes (fst lone_record_tokenized) ["Age"; "ZIP_Code"]
  = get_equivalence_classes lone_record ["Age"; "ZIP_Code"]
  /\ (forall k, check_k_anonymity (fst lone_record_tokenized)
                                   ["Age"; "ZIP_Code"] k
                = check_k_anonymity lone_record ["Age"; "ZIP_Code"] k)
  /\ simulate_linkage_attack (fst lone_record_tokenized) ["Age"; "ZIP_Code"]
     = simulate_linkage_attack lone_record ["Age"; "ZIP_Code"]
  /\ (forall dtypes original,
        compute_ncp dtypes original (fst lone_record_tokenized)
                    ["Age"; "ZIP_Code"]
        = compute_ncp dtypes original lone_record ["Age"; "ZIP_Code"])
  /\ (forall sensitive_col l_val,
        sensitive_col <> "Patient_ID" ->
        check_l_diversity (fst lone_record_tokenized) sensitive_col
                          ["Age"; "ZIP_Code"] l_val
        = check_l_diversity lone_record sensitive_col
                            ["Age"; "ZIP_Code"] l_val).
Proof.
  apply (tokenize_ids_keeps_metrics lone_record "Patient_ID");
    [vm_compute; reflexivity | reflexivity].
Defined.

(** ** l-diversity: sizes, thresholds and the sensitive column *)

Lemma unique_length_le (l : list cell) :
  (List.length (unique l) <= List.length l)%nat.
Proof.
  induction l as [|x t IH]; simpl; [lia|].
  destruct (existsb (cell_eqb x) t); simpl; lia.
Qed.

Lemma group_rows_of_length (df : DataFrame) (members : list nat) :
  (List.length (group_rows_of df members) <= List.length members)%nat.
Proof.
  unfold group_rows_of. induction members as [|i ms IH]; simpl; [lia|].
  rewrite length_app. destruct (nth_error df i); simpl; lia.
Qed.

Lemma class_diversity_bounds (df : DataFrame) (get : Row -> cell)
    (members : list nat) :
  0 <= class_diversity df get members <= Z.of_nat (List.length members).
Proof.
  unfold class_diversity, nunique, dropna. split; [lia|].
  pose proof (unique_length_le
                (filter (fun c => negb (isna c))
                        (map get (group_rows_of df members)))).
  pose proof (filter_length_le (fun c => negb (isna c))
                (map get (group_rows_of df members))).
  rewrite length_map in *.
  pose proof (group_rows_of_length df members). lia.
Qed.

Lemma check_l_diversity_value (df : DataFrame) (sensitive_col : string)
    (qis : list string) (l_val : Z) (cols : list (Row -> cell))
    (get : Row -> cell) :
  valid_qis qis = true ->
  mapM column qis = Ok cols ->
  column sensitive_col = Ok get ->
  check_l_diversity df sensitive_col qis l_val
  = Ok (Nat.eqb (List.length
                   (failing_of df get l_val (group_rows cols df 0%nat []))) 0,
        failing_of df get l_val (group_rows cols df 0%nat [])).
Proof.
  intros Hq Hc Hget. destruct (valid_qis_classes qis Hq) as [cols' [Hc' Hcls]].
  rewrite Hc in Hc'. inversion Hc'; subst cols'.
  unfold check_l_diversity. rewrite Hcls. cbn [bind].
  now rewrite (failing_groups_from_spec df sensitive_col get l_val _ Hget).
Qed.

Lemma check_k_of_sizes (df : DataFrame) (qis : list string)
    (cols : list (Row -> cell)) (k : Z) :
  valid_qis qis = true ->
  mapM column qis = Ok cols ->
  Forall (fun c => k <= Z.of_nat (List.length (snd c)))
         (group_rows cols df 0%nat []) ->
  group_rows cols df 0%nat [] <> [] \/ df = [] ->
  check_k_anonymity df qis k = Ok true.
Proof.
  intros Hq Hc Hall Hne.
  destruct (valid_qis_classes qis Hq) as [cols' [Hc' Hcls]].
  rewrite Hc in Hc'. inversion Hc'; subst cols'.
  destruct df as [|r0 rest]; [reflexivity|].
  unfold check_k_anonymity. rewrite Hcls. cbn [bind]. f_equal.
  apply series_min_ge.
  - unfold group_sizes. destruct Hne as [Hne|Hne]; [|discriminate].
    destruct (group_rows cols (r0 :: rest) 0%nat []);
      [congruence | discriminate].
  - unfold group_sizes. now apply Forall_map.
Qed.

(** A dataset that passes the l-diversity check has no class with fewer
    than [l] members, for a class cannot show more distinct values than
    it has records; so, unless no record at all was grouped, it passes the
    k-anonymity test with [k = l]. *)
Theorem l_diverse_is_l_anonymous (df : DataFrame) (sensitive_col : string)
    (qis : list string) (l_val : Z) (failing : list (list cell * Z)) :
  valid_qis qis = true ->
  is_column sensitive_col = true ->
  check_l_diversity df sensitive_col qis l_val = Ok (true, failing) ->
  exists cls,
    get_equivalence_classes df qis = Ok cls
    /\ Forall (fun c => l_val <= Z.of_nat (List.length (snd c))) cls
    /\ (cls <> [] \/ df = [] -> check_k_anonymity df qis l_val = Ok true).
Proof.
  intros Hq Hs Hcheck.
  destruct (valid_qis_classes qis Hq) as [cols [Hc Hcls]].
  destruct (is_column_ok _ Hs) as [get Hget].
  rewrite (check_l_diversity_value _ _ _ _ cols get Hq Hc Hget) in Hcheck.
  set (cls := group_rows cols df 0%nat []) in *.
  inversion Hcheck as [[Hsat Hfail]]. apply Nat.eqb_eq in Hsat.
  apply length_zero_iff_nil in Hsat.
  assert (Hall : Forall (fun c => l_val <= Z.of_nat (List.length (snd c)))
                        cls).
  { apply Forall_forall. intros [k0 ms] Hin. simpl.
    destruct (Z_lt_le_dec (class_diversity df get ms) l_val) as [Hlt|Hge].
    - assert (F : In (k0, class_diversity df get ms)
                     (failing_of df get l_val cls)).
      { apply failing_of_In. exists ms. auto. }
      rewrite Hsat in F. contradiction.
    - pose proof (class_diversity_bounds df get ms). lia. }
  exists cls. split; [apply Hcls|]. split; [exact Hall|].
  intros Hne. rewrite Hsat.
  exact (check_k_of_sizes df qis cols l_val Hq Hc Hall Hne).
Qed.

Lemma l_diverse_is_l_anonymous_witness :
  exists cls,
    get_equivalence_classes five_ages ["Gender"] = Ok cls
    /\ Forall (fun c => 3 <= Z.of_nat (List.length (snd c))) cls
    /\ (cls <> [] \/ five_ages = [] ->
        check_k_anonymity five_ages ["Gender"] 3 = Ok true).
Proof.
  apply (l_diverse_is_l_anonymous five_ages "Diagnosis" ["Gender"] 3 []);
    reflexivity.
Defined.

(** Raising [l] only adds failing groups: every group reported for [l1]
    is reported, with the same count, for any [l2] from [l1] on, so a
    dataset satisfied for [l2] is satisfied for [l1]; and for [l] at most 0
    nothing is ever reported. *)
Theorem l_diversity_monotone (df : DataFrame) (sensitive_col : string)
    (qis : list string) (l1 l2 : Z) :
  valid_qis qis = true ->
  is_column sensitive_col = true ->
  l1 <= l2 ->
  exists s1 f1 s2 f2,
    check_l_diversity df sensitive_col qis l1 = Ok (s1, f1)
    /\ check_l_diversity df sensitive_col qis l2 = Ok (s2, f2)
    /\ (forall g, In g f1 -> In g f2)
    /\ (s2 = true -> s1 = true)
    /\ (l1 <= 0 -> s1 = true /\ f1 = []).
Proof.
  intros Hq Hs Hl.
  destruct (valid_qis_classes qis Hq) as [cols [Hc Hcls]].
  destruct (is_column_ok _ Hs) as [get Hget].
  rewrite !(check_l_diversity_value _ _ _ _ cols get Hq Hc Hget).
  set (cls := group_rows cols df 0%nat []).
  do 4 eexists. split; [reflexivity|]. split; [reflexivity|].
  assert (Hsub : forall g, In g (failing_of df get l1 cls) ->
                           In g (failing_of df get l2 cls)).
  { intros [k0 d] Hin. apply failing_of_In in Hin as [ms [H1 [H2 H3]]].
    apply failing_of_In. exists ms. repeat split; auto. lia. }
  split; [exact Hsub|]. split.
  - rewrite !Nat.eqb_eq. intros H2. apply length_zero_iff_nil in H2.
    destruct (failing_of df get l1 cls) as [|g rest] eqn:E; [reflexivity|].
    exfalso. specialize (Hsub g (or_introl eq_refl)). now rewrite H2 in Hsub.
  - intros H0.
    assert (E : failing_of df get l1 cls = []).
    { destruct (failing_of df get l1 cls) as [|[k0 d] rest] eqn:E;
        [reflexivity|].
      assert (Hin : In (k0, d) (failing_of df get l1 cls))
        by (rewrite E; now left).
      apply failing_of_In in Hin as [ms [_ [H2 H3]]].
      pose proof (class_diversity_bounds df get ms). lia. }
    rewrite E. split; reflexivity.
Qed.

Lemma l_diversity_monotone_witness :
  exists s1 f1 s2 f2,
    check_l_diversity same_age "Diagnosis" ["Age"] 2 = Ok (s1, f1)
    /\ check_l_diversity same_age "Diagnosis" ["Age"] 3 = Ok (s2, f2)
    /\ (forall g, In g f1 -> In g f2)
    /\ (s2 = true -> s1 = true)
    /\ (2 <= 0 -> s1 = true /\ f1 = []).
Proof.
  apply (l_diversity_monotone same_age "Diagnosis" ["Age"] 2 3);
    [reflexivity | reflexivity | lia].
Defined.

(** The sensitive column is looked up once per group.  With a name that is
    not a column the check raises [KeyError] as soon as there is a group,
    and reports satisfied, with nothing failing, when there is none: on
    the empty dataset and on one whose records all miss a
    quasi-identifier value. *)
Theorem l_diversity_unknown_column (df : DataFrame) (sensitive_col : string)
    (qis : list string) (l_val : Z) :
  valid_qis qis = true ->
  is_column sensitive_col = false ->
  exists cols,
    mapM column qis = Ok cols
    /\ ((exists r, In r df /\ complete cols r = true) ->
        check_l_diversity df sensitive_col qis l_val
        = Raise (KeyError sensitive_col))
    /\ ((forall r, In r df -> complete cols r = false) ->
        check_l_diversity df sensitive_col qis l_val = Ok (true, [])).
Proof.
  intros Hq Hs. destruct (valid_qis_classes qis Hq) as [cols [Hc Hcls]].
  exists cols. split; [exact Hc|].
  destruct (classes_count_records cols df) as [Hkeys _].
  unfold check_l_diversity. rewrite Hcls. cbn [bind].
  set (cls := group_rows cols df 0%nat []) in *.
  split.
  - intros [r [Hin Hcomp]].
    assert (Hk : In (group_key cols r) (map fst cls))
      by (apply Hkeys; exists r; auto).
    destruct cls as [|c rest]; [contradiction|].
    simpl. unfold diversity_of. now rewrite (column_unknown _ Hs).
  - intros Hnone.
    destruct cls as [|[k0 ms] rest]; [reflexivity|]. exfalso.
    destruct (proj1 (Hkeys k0) (or_introl eq_refl)) as [r [H1 [H2 _]]].
    rewrite (Hnone r H1) in H2. discriminate.
Qed.

Lemma l_diversity_unknown_column_witness :
  exists cols,
    mapM column ["Age"] = Ok cols
    /\ ((exists r, In r five_ages /\ complete cols r = true) ->
        check_l_diversity five_ages "Illness" ["Age"] 2
        = Raise (KeyError "Illness"))
    /\ ((forall r, In r five_ages -> complete cols r = false) ->
        check_l_diversity five_ages "Illness" ["Age"] 2 = Ok (true, [])).
Proof.
  apply (l_diversity_unknown_column five_ages "Illness" ["Age"] 2);
    reflexivity.
Defined.

(** ** The certainty penalty: exceptions and the price of masking *)

Lemma qi_ncp_unknown (dtypes : string -> dtype)
    (original_df anonymized_df : DataFrame) (name : string) :
  is_column name = false ->
  qi_ncp dtypes original_df anonymized_df name = Raise (KeyError name).
Proof. intros H. unfold qi_ncp. now rewrite (column_unknown _ H). Qed.

Lemma name_in_cons (x q : string) (rest : list string) :
  name_in x (q :: rest) = String.eqb x q || name_in x rest.
Proof. reflexivity. Qed.

Lemma total_ncp_unknown (dtypes : string -> dtype)
    (original_df anonymized_df : DataFrame)
    (qis : list string) (name : string) :
  first_unknown qis = Some name ->
  anonymized_df <> []
  \/ name_in "Age" qis && is_numeric_dtype (dtypes "Age") = false ->
  forall acc, total_ncp_from dtypes original_df anonymized_df qis acc
              = Raise (KeyError name).
Proof.
  induction qis as [|q rest IH]; simpl first_unknown; [discriminate|].
  destruct (is_column q) eqn:E; intros H Hor acc; cbn [total_ncp_from].
  - destruct (qi_ncp_total dtypes original_df anonymized_df q E) as [x Hx].
    { destruct Hor as [Hne|Hage]; [now left | right].
      rewrite name_in_cons in Hage.
      destruct (String.eqb q "Age") eqn:Eq; [|apply andb_false_r].
      apply String.eqb_eq in Eq. subst q. simpl in Hage.
      now rewrite Hage. }
    rewrite Hx. cbn [bind]. apply IH; [exact H|].
    destruct Hor as [Hne|Hage]; [now left | right].
    rewrite name_in_cons in Hage.
    destruct (name_in "Age" rest); [|reflexivity].
    now rewrite orb_true_r in Hage.
  - inversion H; subst. now rewrite (qi_ncp_unknown _ _ _ _ E).
Qed.

Lemma qi_ncp_no_parts (dtypes : string -> dtype) (original_df : DataFrame) :
  is_numeric_dtype (dtypes "Age") = true ->
  age_range dtypes original_df <> Some 0 ->
  qi_ncp dtypes original_df [] "Age" = Raise (KeyError_int 0).
Proof.
  intros Hnum Hr. unfold qi_ncp.
  cbn [column String.eqb Ascii.eqb Bool.eqb bind]. rewrite Hnum.
  cbn [andb]. fold (age_range dtypes original_df).
  destruct (age_range dtypes original_df) as [[|p|p]|]; try reflexivity.
  now elim Hr.
Qed.

Lemma total_ncp_no_parts (dtypes : string -> dtype) (original_df : DataFrame)
    (pre rest : list string) :
  is_numeric_dtype (dtypes "Age") = true ->
  age_range dtypes original_df <> Some 0 ->
  forallb is_column pre = true ->
  forall acc, total_ncp_from dtypes original_df [] (pre ++ "Age" :: rest) acc
              = Raise (KeyError_int 0).
Proof.
  intros Hnum Hr. induction pre as [|q pre IH]; intros Hpre acc.
  - cbn [app total_ncp_from]. now rewrite qi_ncp_no_parts.
  - simpl in Hpre. apply andb_true_iff in Hpre as [Hq Hpre].
    cbn [app total_ncp_from].
    destruct (String.eqb q "Age") eqn:Eq.
    + apply String.eqb_eq in Eq. subst q. now rewrite qi_ncp_no_parts.
    + destruct (qi_ncp_total dtypes original_df [] q Hq) as [x Hx].
      { right. rewrite Eq. apply andb_false_r. }
      rewrite Hx. cbn [bind]. now apply IH.
Qed.

(** The exceptions of [compute_ncp].
    - A quasi-identifier that is not a column: [KeyError] of the first
      such name, when the anonymized dataset has rows, or when no age of a
      numeric dtype is among the quasi-identifiers.
    - An anonymized dataset without rows: [KeyError: 0] as soon as the age
      is a quasi-identifier of a numeric dtype whose range is not 0 (in
      particular when the original dataset has no rows either) and every
      name before it is a column; the frame of the parts of the labels has
      no column 0.
    - No quasi-identifier at all: [ZeroDivisionError] on an original
      dataset with rows, 0 on one without. *)
Theorem compute_ncp_exceptions (dtypes : string -> dtype)
    (original_df anonymized_df : DataFrame) :
  (forall qis name,
     first_unknown qis = Some name ->
     anonymized_df <> []
     \/ name_in "Age" qis && is_numeric_dtype (dtypes "Age") = false ->
     compute_ncp dtypes original_df anonymized_df qis
     = Raise (KeyError name))
  /\ (forall pre rest,
        anonymized_df = [] ->
        is_numeric_dtype (dtypes "Age") = true ->
        age_range dtypes original_df <> Some 0 ->
        forallb is_column pre = true ->
        compute_ncp dtypes original_df anonymized_df (pre ++ "Age" :: rest)
        = Raise (KeyError_int 0))
  /\ (original_df <> [] ->
      compute_ncp dtypes original_df anonymized_df []
      = Raise ZeroDivisionError)
  /\ (original_df = [] ->
      compute_ncp dtypes original_df anonymized_df [] = Ok 0%Q).
Proof.
  split; [|split; [|split]].
  - intros qis name H Hor. unfold compute_ncp.
    now rewrite (total_ncp_unknown _ _ _ _ _ H Hor).
  - intros pre rest -> Hnum Hr Hpre. unfold compute_ncp.
    now rewrite (total_ncp_no_parts _ _ _ _ Hnum Hr Hpre).
  - intros Hne. unfold compute_ncp. cbn [total_ncp_from bind List.length].
    destruct original_df as [|r rest]; [congruence|].
    assert (E : (0 <? Z.of_nat (List.length (r :: rest))) = true)
      by (apply Z.ltb_lt; simpl; lia).
    rewrite E, Z.mul_0_r. reflexivity.
  - intros ->. reflexivity.
Qed.

Lemma count_char_take (c : ascii) (n : nat) (s : string) :
  count_char c s = 0 -> count_char c (str_take n s) = 0.
Proof.
  revert s. induction n as [|n IH]; intros [|x s]; simpl; try reflexivity.
  intros H. pose proof (count_char_nonneg c s).
  destruct (Ascii.eqb x c); [lia|]. rewrite IH; lia.
Qed.

Lemma mask_text_stars (p : Z) (s : string) :
  0 <= p <= 5 ->
  p <= str_len s ->
  count_char "*"%char s = 0 ->
  count_char "*"%char (mask_text p s) = 5 - p.
Proof.
  intros Hp Hlen Hs.
  destruct (mask_text_shape p s Hp) as [E _]. rewrite E.
  rewrite count_char_app, count_char_repeat, count_char_take by exact Hs.
  rewrite str_take_length. unfold str_len in Hlen. lia.
Qed.

Lemma zip_ncp_constant (col : list cell) (c : Z) :
  Forall (fun x => count_char "*"%char (astype_str x) = c) col ->
  (zip_ncp col
   == inject_Z (Z.of_nat (List.length col)) * (inject_Z c / 5))%Q.
Proof.
  unfold zip_ncp. induction 1 as [|x l Hx _ IH].
  - simpl. ring.
  - cbn [map nansum List.length]. rewrite IH, Hx.
    rewrite Nat2Z.inj_succ, <- Z.add_1_r, inject_Z_plus. ring.
Qed.

Lemma count_char_le_length (c : ascii) (s : string) :
  count_char c s <= Z.of_nat (String.length s).
Proof.
  induction s as [|x s IH]; simpl String.length; simpl count_char; [lia|].
  destruct (Ascii.eqb x c); lia.
Qed.

(** The characters of a prefix that are not [c]: no fewer in a longer
    prefix. *)
Lemma str_take_others_mono (c : ascii) (n m : nat) (s : string) :
  (n <= m)%nat ->
  Z.of_nat (String.length (str_take n s)) - count_char c (str_take n s)
  <= Z.of_nat (String.length (str_take m s)) - count_char c (str_take m s).
Proof.
  revert m s. induction n as [|n IH]; intros m s Hle.
  - simpl. pose proof (count_char_le_length c (str_take m s)). lia.
  - destruct s as [|x s].
    + destruct m; simpl; lia.
    + destruct m as [|m]; [lia|].
      specialize (IH m s (le_S_n _ _ Hle)).
      cbn [str_take String.length count_char].
      destruct (Ascii.eqb x c); lia.
Qed.

Lemma mask_text_count (p : Z) (s : string) :
  0 <= p <= 5 ->
  count_char "*"%char (mask_text p s)
  = 5 - (Z.of_nat (String.length (str_take (Z.to_nat p) s))
         - count_char "*"%char (str_take (Z.to_nat p) s)).
Proof.
  intros Hp. destruct (mask_text_shape p s Hp) as [E _]. rewrite E.
  rewrite count_char_app, count_char_repeat.
  pose proof (str_take_length (Z.to_nat p) s) as Hl. lia.
Qed.

(** Masking more shows no fewer mask characters, five at most, and five
    when nothing is kept. *)
Lemma mask_text_count_mono (p q : Z) (s : string) :
  0 <= p <= q -> q <= 5 ->
  0 <= count_char "*"%char (mask_text q s)
  /\ count_char "*"%char (mask_text q s)
     <= count_char "*"%char (mask_text p s)
  /\ count_char "*"%char (mask_text p s) <= 5
  /\ (p = 0 -> count_char "*"%char (mask_text p s) = 5).
Proof.
  intros Hp Hq.
  rewrite (mask_text_count p s), (mask_text_count q s) by lia.
  pose proof (str_take_others_mono "*"%char (Z.to_nat p) (Z.to_nat q) s
                ltac:(lia)) as Hm.
  pose proof (count_char_le_length "*"%char (str_take (Z.to_nat p) s)).
  pose proof (count_char_le_length "*"%char (str_take (Z.to_nat q) s)).
  pose proof (count_char_nonneg "*"%char (str_take (Z.to_nat p) s)).
  pose proof (count_char_nonneg "*"%char (str_take (Z.to_nat q) s)).
  pose proof (str_take_length (Z.to_nat q) s).
  split; [lia|]. split; [lia|]. split; [lia|].
  intros ->. simpl. lia.
Qed.

Lemma zip_ncp_mono (l l' : list cell) :
  Forall2 (fun a b => count_char "*"%char (astype_str a)
                      <= count_char "*"%char (astype_str b)) l l' ->
  (zip_ncp l <= zip_ncp l')%Q.
Proof.
  unfold zip_ncp. induction 1 as [|a b l l' Hab _ IH]; [apply Qle_refl|].
  cbn [map nansum]. apply Qplus_le_compat; [|exact IH].
  unfold Qdiv. apply Qmult_le_compat_r; [|discriminate].
  now rewrite <- Zle_Qle.
Qed.

Lemma compute_ncp_zip (dtypes : string -> dtype)
    (original_df anonymized_df : DataFrame) :
  original_df <> [] ->
  exists ncp,
    compute_ncp dtypes original_df anonymized_df ["ZIP_Code"] = Ok ncp
    /\ (ncp == zip_ncp (map ZIP_Code anonymized_df)
               / inject_Z (Z.of_nat (List.length original_df)))%Q.
Proof.
  intros Hne. unfold compute_ncp. cbn [total_ncp_from].
  assert (Eq : qi_ncp dtypes original_df anonymized_df "ZIP_Code"
               = Ok (zip_ncp (map ZIP_Code anonymized_df))).
  { unfold qi_ncp. cbn [column String.eqb Ascii.eqb Bool.eqb bind].
    rewrite andb_false_r. reflexivity. }
  rewrite Eq. cbn [bind List.length].
  assert (Hn : 0 < Z.of_nat (List.length original_df))
    by (destruct original_df; [congruence | simpl; lia]).
  rewrite (proj2 (Z.ltb_lt _ _) Hn).
  replace (Z.of_nat (List.length original_df) * Z.of_nat 1)
    with (Z.of_nat (List.length original_df)) by lia.
  destruct (Z.of_nat (List.length original_df) =? 0) eqn:E0;
    [apply Z.eqb_eq in E0; lia|].
  eexists. split; [reflexivity|]. now rewrite Qplus_0_l.
Qed.

(** The price of masking, with the postal code as the only
    quasi-identifier of a dataset with rows.  For precisions
    [0 <= p <= q <= 5] the NCP of [generalize_zip] at [q] is at most the
    NCP at [p]: keeping fewer characters never costs less; both lie
    between 0 and 1; at precision 0 the NCP is 1; and at precision 5 it
    is 0 when every postal code has five characters or more and none
    holds the mask character. *)
Theorem masking_penalty (dtypes : string -> dtype) (df : DataFrame)
    (p q : Z) :
  df <> [] ->
  0 <= p <= q ->
  q <= 5 ->
  exists ncp_p ncp_q,
    compute_ncp dtypes df (generalize_zip df p) ["ZIP_Code"] = Ok ncp_p
    /\ compute_ncp dtypes df (generalize_zip df q) ["ZIP_Code"] = Ok ncp_q
    /\ (0 <= ncp_q)%Q /\ (ncp_q <= ncp_p)%Q /\ (ncp_p <= 1)%Q
    /\ (p = 0 -> (ncp_p == 1)%Q)
    /\ (q = 5 ->
        Forall (fun r => 5 <= str_len (astype_str (ZIP_Code r))
                         /\ count_char "*"%char (astype_str (ZIP_Code r)) = 0)
               df ->
        (ncp_q == 0)%Q).
Proof.
  intros Hne Hp Hq.
  destruct (compute_ncp_zip dtypes df (generalize_zip df p) Hne)
    as [np [Hnp Ep]].
  destruct (compute_ncp_zip dtypes df (generalize_zip df q) Hne)
    as [nq [Hnq Eq]].
  exists np, nq. split; [exact Hnp|]. split; [exact Hnq|].
  assert (Hn : 0 < Z.of_nat (List.length df))
    by (destruct df; [congruence | simpl; lia]).
  assert (HnQ : (0 < inject_Z (Z.of_nat (List.length df)))%Q).
  { change 0%Q with (inject_Z 0). now rewrite <- Zlt_Qlt. }
  assert (Hn0 : ~ (inject_Z (Z.of_nat (List.length df)) == 0)%Q).
  { intros H. unfold Qeq in H. simpl in H. lia. }
  assert (Hcells : forall x (f : Z -> Prop),
            (forall s, f (count_char "*"%char (mask_text x s))) ->
            Forall (fun c => f (count_char "*"%char (astype_str c)))
                   (map ZIP_Code (generalize_zip df x))).
  { intros x f Hf. unfold generalize_zip. rewrite map_map.
    apply Forall_map. apply Forall_forall. intros r _. simpl. apply Hf. }
  rewrite Ep, Eq. split; [|split; [|split; [|split]]].
  - apply Qle_shift_div_l; [exact HnQ|]. rewrite Qmult_0_l.
    apply zip_ncp_nonneg.
  - unfold Qdiv. apply Qmult_le_compat_r.
    + apply zip_ncp_mono. unfold generalize_zip. rewrite !map_map.
      clear - Hp Hq. induction df as [|r df IH]; constructor; [|exact IH].
      simpl.
      exact (proj1 (proj2 (mask_text_count_mono p q _ Hp Hq))).
    + apply Qlt_le_weak. now apply Qinv_lt_0_compat.
  - apply Qle_shift_div_r; [exact HnQ|]. rewrite Qmult_1_l.
    assert (Hle : (zip_ncp (map ZIP_Code (generalize_zip df p))
                   <= zip_ncp (map (fun _ => VStr "*****") df))%Q).
    { apply zip_ncp_mono. unfold generalize_zip. rewrite map_map.
      clear - Hp Hq. induction df as [|r df IH]; constructor; [|exact IH].
      simpl.
      exact (proj1 (proj2 (proj2 (mask_text_count_mono p q _ Hp Hq)))). }
    eapply Qle_trans; [exact Hle|]. rewrite (zip_ncp_constant _ 5).
    + rewrite length_map. apply Qle_lteq. right. field.
    + apply Forall_map. apply Forall_forall. intros r _. reflexivity.
  - intros ->. rewrite (zip_ncp_constant _ 5).
    + unfold generalize_zip. rewrite !length_map. field. exact Hn0.
    + apply (Hcells 0 (fun z => z = 5)). intros s0.
      exact (proj2 (proj2 (proj2 (mask_text_count_mono 0 q s0 Hp Hq)))
               eq_refl).
  - intros -> Hall. rewrite (zip_ncp_constant _ 0).
    + unfold generalize_zip. rewrite !length_map. field. exact Hn0.
    + unfold generalize_zip. rewrite map_map. apply Forall_map.
      eapply Forall_impl; [|exact Hall].
      intros r [H1 H2]. simpl.
      fold (mask_text 5 (astype_str (ZIP_Code r))).
      now rewrite mask_text_stars by lia.
Qed.

Lemma masking_penalty_witness :
  exists ncp_p ncp_q,
    compute_ncp (read_dtypes five_ages) five_ages
                (generalize_zip five_ages 2) ["ZIP_Code"] = Ok ncp_p
    /\ compute_ncp (read_dtypes five_ages) five_ages
                   (generalize_zip five_ages 4) ["ZIP_Code"] = Ok ncp_q
    /\ (0 <= ncp_q)%Q /\ (ncp_q <= ncp_p)%Q /\ (ncp_p <= 1)%Q
    /\ (2 = 0 -> (ncp_p == 1)%Q)
    /\ (4 = 5 ->
        Forall (fun r => 5 <= str_len (astype_str (ZIP_Code r))
                         /\ count_char "*"%char (astype_str (ZIP_Code r)) = 0)
               five_ages ->
        (ncp_q == 0)%Q).
Proof.
  apply (masking_penalty (read_dtypes five_ages) five_ages 2 4);
    [discriminate | lia | lia].
Defined.

(** ** Linkage risk as a count of records *)

Lemma weighted_add_member (F : list cell -> nat) (key : list cell) (i : nat)
    (cls : list eq_class) :
  weighted F (add_member key i cls) = (weighted F cls + F key)%nat.
Proof.
  induction cls as [|[k ms] rest IH]; simpl; [lia|].
  destruct (key_eqb k key) eqn:E; simpl.
  - apply key_eqb_eq in E. subst k. rewrite length_app. simpl. lia.
  - rewrite IH. lia.
Qed.

Lemma weighted_group_rows (F : list cell -> nat) (cols : list (Row -> cell))
    (rows : list Row) : forall (i : nat) (acc : list eq_class),
  weighted F (group_rows cols rows i acc)
  = (weighted F acc
     + list_sum (map (fun r => if complete cols r
                               then F (group_key cols r) else 0%nat) rows))%nat.
Proof.
  induction rows as [|r rs IH]; intros i acc; simpl; [lia|].
  rewrite IH. unfold complete at 2.
  destruct (existsb isna (group_key cols r)); simpl; [lia|].
  rewrite weighted_add_member. lia.
Qed.

Lemma weighted_singletons (cls : list eq_class) :
  NoDup (map fst cls) ->
  weighted (fun k => if Nat.eqb (class_size k cls) 1 then 1%nat else 0%nat)
           cls
  = List.length (filter (fun c => Nat.eqb (List.length (snd c)) 1) cls).
Proof.
  intros ND.
  assert (G : forall l,
            (forall c, In c l -> class_size (fst c) cls = List.length (snd c)) ->
            weighted (fun k => if Nat.eqb (class_size k cls) 1
                               then 1%nat else 0%nat) l
            = List.length (filter (fun c => Nat.eqb (List.length (snd c)) 1)
                                  l)).
  { induction l as [|c rest IH]; intros H; simpl; [reflexivity|].
    rewrite (H c (or_introl eq_refl)).
    rewrite IH by (intros c' Hc'; apply H; now right).
    destruct (Nat.eqb (List.length (snd c)) 1) eqn:E; simpl; [|lia].
    apply Nat.eqb_eq in E. rewrite E. lia. }
  apply G. intros [k ms] Hin. simpl. now apply class_size_In.
Qed.

Lemma list_sum_indicator {A : Type} (f : A -> bool) (l : list A) :
  list_sum (map (fun x => if f x then 1%nat else 0%nat) l)
  = List.length (filter f l).
Proof.
  induction l as [|x t IH]; simpl; [reflexivity|].
  destruct (f x); simpl; lia.
Qed.

Lemma singleton_classes_records (cols : list (Row -> cell)) (df : DataFrame) :
  singleton_classes (group_rows cols df 0%nat []) = unique_records cols df.
Proof.
  set (cls := group_rows cols df 0%nat []).
  assert (ND : NoDup (map fst cls))
    by (apply group_rows_NoDup; constructor).
  unfold singleton_classes, unique_records. f_equal.
  rewrite <- (weighted_singletons cls ND).
  unfold cls at 2. rewrite weighted_group_rows. simpl.
  rewrite <- list_sum_indicator. f_equal. apply map_ext_in.
  intros r Hin. destruct (complete cols r) eqn:Hc; [|reflexivity].
  simpl. unfold cls. rewrite class_size_group_rows. simpl.
  pose proof (same_key_complete cols df r Hc) as Hs.
  destruct (companions cols df r =? 1) eqn:E1.
  - apply Z.eqb_eq in E1.
    replace (Nat.eqb _ 1) with true; [reflexivity|].
    symmetry. apply Nat.eqb_eq. lia.
  - apply Z.eqb_neq in E1.
    replace (Nat.eqb _ 1) with false; [reflexivity|].
    symmetry. apply Nat.eqb_neq. lia.
Qed.

(** The risk counts records: on a non-empty dataset it is the number of
    records that miss no attacker quasi-identifier value and share their
    values with no other record, over the number of all records.  A
    record with a missing value is counted below the line only. *)
Theorem linkage_risk_records (df : DataFrame) (attacker_qis : list string) :
  valid_qis attacker_qis = true ->
  df <> [] ->
  exists cols,
    mapM column attacker_qis = Ok cols
    /\ simulate_linkage_attack df attacker_qis
       = Ok (inject_Z (unique_records cols df)
             / inject_Z (Z.of_nat (List.length df)))%Q.
Proof.
  intros Hq Hne. destruct (valid_qis_columns _ Hq) as [_ [cols Hc]].
  exists cols. split; [exact Hc|].
  rewrite (linkage_attack_value df attacker_qis cols Hq Hc).
  rewrite singleton_classes_records.
  assert (Hn : 0 < Z.of_nat (List.length df))
    by (destruct df; [congruence | simpl; lia]).
  now rewrite (proj2 (Z.ltb_lt _ _) Hn).
Qed.

Lemma linkage_risk_records_witness :
  exists cols,
    mapM column ["Age"; "Gender"] = Ok cols
    /\ simulate_linkage_attack same_age ["Age"; "Gender"]
       = Ok (inject_Z (unique_records cols same_age)
             / inject_Z (Z.of_nat (List.length same_age)))%Q.
Proof.
  apply (linkage_risk_records same_age ["Age"; "Gender"]);
    [reflexivity | discriminate].
Defined.

Lemma filter_length_mono {A : Type} (f g : A -> bool) (l : list A) :
  (forall x, In x l -> f x = true -> g x = true) ->
  (List.length (filter f l) <= List.length (filter g l))%nat.
Proof.
  induction l as [|x t IH]; intros H; simpl; [lia|].
  assert (IH' := IH (fun y Hy => H y (or_intror Hy))).
  destruct (f x) eqn:Ef.
  - rewrite (H x (or_introl eq_refl) Ef). simpl. lia.
  - destruct (g x); simpl; lia.
Qed.

Lemma group_key_pointwise (cols : list (Row -> cell)) (r1 r2 : Row) :
  group_key cols r1 = group_key cols r2 ->
  forall g, In g cols -> g r1 = g r2.
Proof.
  unfold group_key. induction cols as [|f fs IH]; simpl; intros H g [];
    inversion H; subst; auto.
Qed.

Lemma columns_included (qis qis' : list string)
    (cols cols' : list (Row -> cell)) :
  mapM column qis = Ok cols ->
  mapM column qis' = Ok cols' ->
  forallb (fun q => name_in q qis') qis = true ->
  forall g, In g cols -> In g cols'.
Proof.
  intros Hc Hc' Hincl g Hg.
  apply mapM_Forall2 in Hc. apply mapM_Forall2 in Hc'.
  assert (Hq : exists q, In q qis /\ column q = Ok g).
  { clear Hincl. induction Hc as [|q f qs fs Hqf _ IH]; [contradiction|].
    destruct Hg as [<-|Hg]; [exists q; split; [now left | exact Hqf]|].
    destruct (IH Hg) as [q' [H1 H2]]. exists q'. split; [now right | exact H2]. }
  destruct Hq as [q [Hin Hq]].
  rewrite forallb_forall in Hincl. specialize (Hincl q Hin).
  unfold name_in in Hincl. apply existsb_exists in Hincl as [q' [Hin' E]].
  apply String.eqb_eq in E. subst q'.
  clear Hc. induction Hc' as [|q' f qs fs Hqf _ IH]; [contradiction|].
  destruct Hin' as [->|Hin']; [left; congruence | right; now apply IH].
Qed.

(** More knowledge, more risk.  On a dataset that misses no value of the
    larger set, an attacker who knows a set of quasi-identifiers that
    includes another one singles out every record the other set singles
    out: the risk under the larger set is at least the risk under the
    smaller. *)
Theorem more_knowledge_more_risk (df : DataFrame)
    (attacker_qis wider_qis : list string) :
  valid_qis attacker_qis = true ->
  valid_qis wider_qis = true ->
  forallb (fun q => name_in q wider_qis) attacker_qis = true ->
  no_missing_qi df wider_qis = true ->
  exists risk wider_risk,
    simulate_linkage_attack df attacker_qis = Ok risk
    /\ simulate_linkage_attack df wider_qis = Ok wider_risk
    /\ (risk <= wider_risk)%Q.
Proof.
  intros Hq Hq' Hincl Hm.
  destruct (valid_qis_columns _ Hq) as [_ [cols Hc]].
  destruct (valid_qis_columns _ Hq') as [_ [cols' Hc']].
  rewrite (linkage_attack_value df _ cols Hq Hc).
  rewrite (linkage_attack_value df _ cols' Hq' Hc').
  rewrite !singleton_classes_records.
  do 2 eexists. split; [reflexivity|]. split; [reflexivity|].
  destruct (0 <? Z.of_nat (List.length df)) eqn:En; [|apply Qle_refl].
  apply Z.ltb_lt in En.
  assert (Hkeys : forall r1 r2, group_key cols' r1 = group_key cols' r2 ->
                                group_key cols r1 = group_key cols r2).
  { intros r1 r2 E. unfold group_key. apply map_ext_in. intros g Hg.
    apply (group_key_pointwise cols' r1 r2 E).
    exact (columns_included _ _ _ _ Hc Hc' Hincl g Hg). }
  assert (Hle : unique_records cols df <= unique_records cols' df).
  { unfold unique_records. apply inj_le. apply filter_length_mono.
    intros r Hin H. apply andb_true_iff in H as [_ H1]. apply Z.eqb_eq in H1.
    apply andb_true_iff. split.
    - unfold complete. apply negb_true_iff. apply (no_missing_key wider_qis);
        [exact Hc'|].
      unfold no_missing_qi in Hm. rewrite forallb_forall in Hm. now apply Hm.
    - apply Z.eqb_eq.
      assert (Hup : companions cols' df r <= companions cols df r).
      { unfold companions. apply inj_le. apply filter_length_mono.
        intros r' _ E. apply key_eqb_eq in E. apply key_eqb_eq.
        now apply Hkeys. }
      assert (Hlow : 1 <= companions cols' df r).
      { unfold companions.
        assert (Hr : In r (filter (fun r' => key_eqb (group_key cols' r')
                                                     (group_key cols' r)) df))
          by (apply filter_In; split; [exact Hin | apply key_eqb_refl]).
        destruct (filter _ df); [contradiction | simpl; lia]. }
      lia. }
  unfold Qdiv. apply Qmult_le_compat_r.
  - now rewrite <- Zle_Qle.
  - apply Qinv_le_0_compat. change 0%Q with (inject_Z 0).
    rewrite <- Zle_Qle. lia.
Qed.

Lemma more_knowledge_more_risk_witness :
  exists risk wider_risk,
    simulate_linkage_attack same_age ["Age"] = Ok risk
    /\ simulate_linkage_attack same_age ["Age"; "Gender"] = Ok wider_risk
    /\ (risk <= wider_risk)%Q.
Proof.
  apply (more_knowledge_more_risk same_age ["Age"] ["Age"; "Gender"]);
    reflexivity.
Defined.

(** ** Ends of the search *)

Lemma attempt_from_seven (df : DataFrame) (qis : list string) (level : Z) :
  7 <= level -> generalize_attempt df qis level = generalize_attempt df qis 7.
Proof.
  intros H. unfold generalize_attempt. cbv zeta.
  change (Z.of_nat (List.length age_generalizations) - 1) with 3.
  change (Z.of_nat (List.length zip_generalizations) - 1) with 3.
  assert (A : 3 <= level / 2) by (apply Z.div_le_lower_bound; lia).
  assert (B : 3 <= (level - 1) / 2) by (apply Z.div_le_lower_bound; lia).
  assert (C : (0 <=? (level - 1) / 2) = true) by (apply Z.leb_le; lia).
  rewrite C, (Z.min_r (level / 2) 3), (Z.min_r ((level - 1) / 2) 3) by lia.
  reflexivity.
Qed.

(** The top of the lattice is reached at level 7: every later attempt
    gives the frame of level 7 again, in which an age is in the single bin
    [0-99] (NaN outside [[0, 100)]) and a postal code keeps its first
    character, each when its column is a quasi-identifier.  The last four
    of the eleven attempts of an exhausted run add nothing. *)
Theorem top_of_the_hierarchy (df : DataFrame) (qis : list string) :
  age_cuttable df qis = true ->
  exists frame,
    (forall level, 7 <= level -> generalize_attempt df qis level = Ok frame)
    /\ Forall2
         (fun r r' =>
            (name_in "Age" qis = true ->
             Age r' = cut_value [0; 100] ["0-99"] (Age r))
            /\ (name_in "ZIP_Code" qis = true ->
                ZIP_Code r' = mask_zip 1 (ZIP_Code r)))
         df frame.
Proof.
  intros Ha.
  destruct (generalize_attempt_rows df qis 7) as [frame [Hf HF]];
    [lia | exact Ha |].
  exists frame. split.
  - intros level Hl. now rewrite attempt_from_seven.
  - unfold age_cuttable in Ha. apply orb_true_iff in Ha.
    assert (Hall : forall r, In r df -> name_in "Age" qis = true ->
                             age_not_text r = true).
    { intros r Hin E. destruct Ha as [Ha|Ha];
        [rewrite E in Ha; discriminate|].
      rewrite forallb_forall in Ha. now apply Ha. }
    clear Hf Ha. induction HF as [|r r' l l' Hr _ IH]; constructor.
    + destruct Hr as [_ [_ [_ [_ [H5 H6]]]]]. split.
      * intros E. rewrite E in H5.
        change (age_bins_at (age_rung 7)) with ([0; 100], ["0-99"]) in H5.
        cbn [fst snd] in H5.
        rewrite cut_cell_not_text in H5
          by (apply (Hall r); [now left | exact E]).
        now inversion H5.
      * intros E. rewrite E in H6. exact H6.
    + apply IH. intros r0 Hin. apply Hall. now right.
Qed.

Lemma top_of_the_hierarchy_witness :
  exists frame,
    (forall level, 7 <= level ->
                   generalize_attempt five_ages ["Age"; "ZIP_Code"] level
                   = Ok frame)
    /\ Forall2
         (fun r r' =>
            (name_in "Age" ["Age"; "ZIP_Code"] = true ->
             Age r' = cut_value [0; 100] ["0-99"] (Age r))
            /\ (name_in "ZIP_Code" ["Age"; "ZIP_Code"] = true ->
                ZIP_Code r' = mask_zip 1 (ZIP_Code r)))
         five_ages frame.
Proof.
  apply (top_of_the_hierarchy five_ages ["Age"; "ZIP_Code"]). reflexivity.
Defined.

Lemma all_members_length (cls : list eq_class) (c : eq_class) :
  In c cls -> (List.length (snd c) <= List.length (all_members cls))%nat.
Proof.
  unfold all_members. induction cls as [|c0 rest IH]; intros [];
    simpl; rewrite length_app; [subst; lia|].
  specialize (IH H). lia.
Qed.

Lemma check_needs_records (df : DataFrame) (qis : list string) (k : Z) :
  valid_qis qis = true ->
  check_k_anonymity df qis k = Ok true ->
  df = [] \/ k <= Z.of_nat (List.length df).
Proof.
  intros Hq Hc. destruct (valid_qis_classes qis Hq) as [cols [_ Hcls]].
  destruct (Nat.eq_dec (List.length df) 0) as [E|E];
    [left; now apply length_zero_iff_nil|].
  right.
  assert (Hge : ge_nan (series_min
                          (group_sizes (group_rows cols df 0%nat []))) k
                = true).
  { unfold check_k_anonymity in Hc. destruct df; [simpl in E; congruence|].
    rewrite Hcls in Hc. cbn [bind] in Hc. now inversion Hc. }
  pose proof (ge_nan_all _ _ Hge) as Hall.
  pose proof (Permutation_length (group_rows_members cols df 0%nat [])) as P.
  simpl in P.
  pose proof (kept_positions_length cols df 0%nat) as Hkept.
  remember (group_rows cols df 0%nat []) as cls eqn:Ecls.
  destruct cls as [|c cs]; [simpl in Hge; discriminate|].
  unfold group_sizes in Hall. simpl in Hall.
  inversion Hall as [|x l Hc0 Hrest]; subst x l.
  pose proof (all_members_length (c :: cs) c (or_introl eq_refl)) as Hm.
  lia.
Qed.

(** More asked than there is.  On a non-empty dataset with fewer than [k]
    records no generalization can help: the enforcer makes all eleven
    attempts, prints the error line and returns the frame of the last
    attempt, with as many records as the input. *)
Theorem too_few_records (df : DataFrame) (qis : list string) (k : Z) :
  valid_qis qis = true ->
  age_cuttable df qis = true ->
  df <> [] ->
  Z.of_nat (List.length df) < k ->
  exists st,
    enforce df qis k = Some (Ok (ReturnInLoop, st))
    /\ gen_level st = 11
    /\ generalize_attempt df qis 10 = Ok (anonymized_df st)
    /\ List.length (anonymized_df st) = List.length df
    /\ last (stdout st) EmptyString = msg_error.
Proof.
  intros Hq Ha Hne Hk.
  destruct (enforce_spec df qis k Hq Ha)
    as [e [st [Hrun [_ [Hlv [Hfb [_ [Hout Hend]]]]]]]].
  assert (Hlen : List.length (anonymized_df st) = List.length df).
  { unfold frame_before in Hfb. destruct (gen_level st =? 0) eqn:E0.
    - now inversion Hfb.
    - apply Z.eqb_neq in E0.
      destruct (generalize_attempt_rows df qis (gen_level st - 1))
        as [frame [Hf HF]]; [lia | exact Ha |].
      rewrite Hf in Hfb. inversion Hfb; subst frame.
      exact (Forall2_same_length _ _ _ HF). }
  destruct e.
  - destruct Hend as [E Hc]. exists st. rewrite E in Hfb.
    split; [exact Hrun|]. split; [exact E|]. split; [exact Hfb|].
    split; [exact Hlen|]. rewrite Hout. apply last_last.
  - exfalso. destruct Hend as [_ Hc].
    destruct (check_needs_records _ _ _ Hq Hc) as [E|E].
    + rewrite E in Hlen. destruct df; [congruence | discriminate].
    + lia.
Qed.

Lemma too_few_records_witness :
  exists st,
    enforce lone_record ["Age"; "ZIP_Code"] 2 = Some (Ok (ReturnInLoop, st))
    /\ gen_level st = 11
    /\ generalize_attempt lone_record ["Age"; "ZIP_Code"] 10
       = Ok (anonymized_df st)
    /\ List.length (anonymized_df st) = List.length lone_record
    /\ last (stdout st) EmptyString = msg_error.
Proof.
  apply (too_few_records lone_record ["Age"; "ZIP_Code"] 2);
    [reflexivity | reflexivity | discriminate | simpl; lia].
Defined.

Lemma attempt_without_age_zip (df : DataFrame) (qis : list string)
    (level : Z) :
  name_in "Age" qis = false -> name_in "ZIP_Code" qis = false ->
  generalize_attempt df qis level = Ok df.
Proof.
  intros HA HZ. unfold generalize_attempt. cbv zeta. now rewrite HA, HZ.
Qed.

(** Nothing to generalize.  When neither the age nor the postal code is a
    quasi-identifier every attempt is the input again: the enforcer
    returns the input unchanged, at once when the input passes the test,
    and after eleven useless attempts and the error line when it does
    not. *)
Theorem nothing_to_generalize (df : DataFrame) (qis : list string) (k : Z) :
  valid_qis qis = true ->
  name_in "Age" qis = false ->
  name_in "ZIP_Code" qis = false ->
  exists e st b,
    enforce df qis k = Some (Ok (e, st))
    /\ apply_k_anonymity df qis k = Some (Ok df)
    /\ check_k_anonymity df qis k = Ok b
    /\ (if b then e = ReturnAfterLoop /\ gen_level st = 0
        else e = ReturnInLoop /\ gen_level st = 11).
Proof.
  intros Hq HA HZ.
  assert (Ha : age_cuttable df qis = true)
    by (unfold age_cuttable; now rewrite HA).
  destruct (enforce_spec df qis k Hq Ha)
    as [e [st [Hrun [Hret [Hlv [Hfb [Hfail [_ Hend]]]]]]]].
  assert (Hsame : anonymized_df st = df).
  { unfold frame_before in Hfb. destruct (gen_level st =? 0).
    - now inversion Hfb.
    - rewrite attempt_without_age_zip in Hfb by assumption.
      now inversion Hfb. }
  rewrite Hsame in *.
  destruct (check_k_anonymity_total df qis k Hq) as [b Hb].
  exists e, st, b. split; [exact Hrun|]. split; [exact Hret|].
  split; [exact Hb|].
  assert (H0 : 0 < gen_level st -> check_k_anonymity df qis k = Ok false).
  { intros Hpos. destruct (Hfail 0) as [f [Hf Hc]]; [lia|].
    unfold frame_before in Hf. simpl in Hf. inversion Hf; subst f. exact Hc. }
  destruct e; destruct Hend as [E Hc]; rewrite Hb in Hc; inversion Hc; subst b.
  - split; [reflexivity | exact E].
  - split; [reflexivity|].
    destruct (Z.eq_dec (gen_level st) 0) as [E0|E0]; [exact E0|].
    rewrite H0 in Hb by lia. discriminate.
Qed.

Lemma nothing_to_generalize_witness :
  exists e st b,
    enforce same_age ["Gender"] 2 = Some (Ok (e, st))
    /\ apply_k_anonymity same_age ["Gender"] 2 = Some (Ok same_age)
    /\ check_k_anonymity same_age ["Gender"] 2 = Ok b
    /\ (if b then e = ReturnAfterLoop /\ gen_level st = 0
        else e = ReturnInLoop /\ gen_level st = 11).
Proof.
  apply (nothing_to_generalize same_age ["Gender"] 2); reflexivity.
Defined.

Lemma qi_ncp_other (dtypes : string -> dtype)
    (original_df anonymized_df : DataFrame) (q : string) :
  is_column q = true ->
  String.eqb q "Age" = false -> String.eqb q "ZIP_Code" = false ->
  qi_ncp dtypes original_df anonymized_df q = Ok 0%Q.
Proof.
  intros Hq HA HZ. apply is_column_ok in Hq as [get Hget].
  unfold qi_ncp. rewrite Hget. cbn [bind].
  rewrite HA, HZ, andb_false_r. reflexivity.
Qed.

(** The penalty sees the age and the postal code only: for
    quasi-identifiers that include neither, [compute_ncp] is 0 whatever
    the two datasets hold and whatever their dtypes. *)
Theorem ncp_blind_to_other_columns (dtypes : string -> dtype)
    (original_df anonymized_df : DataFrame) (qis : list string) :
  valid_qis qis = true ->
  name_in "Age" qis = false ->
  name_in "ZIP_Code" qis = false ->
  exists ncp,
    compute_ncp dtypes original_df anonymized_df qis = Ok ncp
    /\ (ncp == 0)%Q.
Proof.
  intros Hq HA HZ.
  assert (Hcols : forall q, In q qis -> is_column q = true).
  { destruct qis; [discriminate|]. unfold valid_qis in Hq.
    now rewrite forallb_forall in Hq. }
  assert (Hxs : mapM (qi_ncp dtypes original_df anonymized_df) qis
                = Ok (map (fun _ => 0%Q) qis)).
  { pose proof (name_in_false _ _ HA) as NA.
    pose proof (name_in_false _ _ HZ) as NZ.
    clear Hq HA HZ. induction qis as [|q rest IH]; [reflexivity|].
    simpl. rewrite qi_ncp_other.
    - simpl. rewrite IH; [reflexivity | | |];
        intros q' Hq'; [apply Hcols | apply NA | apply NZ]; now right.
    - apply Hcols. now left.
    - apply String.eqb_neq. apply NA. now left.
    - apply String.eqb_neq. apply NZ. now left. }
  unfold compute_ncp. rewrite (total_ncp_from_fold _ _ _ _ _ Hxs).
  cbn [bind].
  assert (Hz : (fold_left Qplus (map (fun _ : string => 0%Q) qis) 0 == 0)%Q).
  { apply fold_Qplus_zero; [reflexivity|]. apply Forall_map.
    apply Forall_forall. intros q _. reflexivity. }
  destruct (0 <? Z.of_nat (List.length original_df)) eqn:En;
    [|eexists; split; reflexivity].
  apply Z.ltb_lt in En.
  assert (Hm : 0 < Z.of_nat (List.length qis))
    by (destruct qis; [discriminate | simpl; lia]).
  destruct (_ * _ =? 0) eqn:E0; [apply Z.eqb_eq in E0; lia|].
  eexists. split; [reflexivity|]. rewrite Hz. unfold Qdiv. apply Qmult_0_l.
Qed.

Lemma ncp_blind_to_other_columns_witness :
  exists ncp,
    compute_ncp (read_dtypes same_age) same_age released
                ["Gender"; "Diagnosis"] = Ok ncp
    /\ (ncp == 0)%Q.
Proof.
  apply (ncp_blind_to_other_columns (read_dtypes same_age) same_age released
           ["Gender"; "Diagnosis"]); reflexivity.
Defined.
